(** * libinput: timer subsystem and touchpad edge motion

    A shallow embedding of
    - util-time.h   (the [usec] conversions),
    - timer.c       (the logical timers multiplexed over one timerfd),
    - evdev-mt-touchpad-edge-motion.c (the edge-motion state machine),
    with the properties of the specification stated over it. *)

From Stdlib Require Import ZArith List Bool Lia Floats.
Import ListNotations.

Local Open Scope Z_scope.

(** ** Machine integers

    [uint32_t] and [uint64_t] values are integers in [Z]; every C operation
    that can wrap is followed by an explicit reduction. *)

Definition UINT32_MOD : Z := 2 ^ 32.
Definition UINT64_MOD : Z := 2 ^ 64.
Definition UINT64_MAX : Z := 2 ^ 64 - 1.

Definition to_u32 (z : Z) : Z := z mod UINT32_MOD.
Definition to_u64 (z : Z) : Z := z mod UINT64_MOD.

Definition is_u64 (z : Z) : Prop := 0 <= z < UINT64_MOD.

(** [int] values are integers in [Z] as well; the result of an [int]
    operation that can leave the 32 bits is reduced in two's complement. *)
Definition INT32_MIN : Z := - 2 ^ 31.
Definition INT32_MAX : Z := 2 ^ 31 - 1.

Definition to_i32 (z : Z) : Z := (z + 2 ^ 31) mod UINT32_MOD - 2 ^ 31.

Definition is_i32 (z : Z) : Prop := INT32_MIN <= z <= INT32_MAX.

(** ** util-time.h *)

Module UtilTime.

(** [DECLARE_NEWTYPE(usec, uint64_t)]: a wrapped 64-bit count. *)
Definition usec_t := Z.

Definition usec_from_uint64_t (v : Z) : usec_t := to_u64 v.
Definition usec_as_uint64_t (us : usec_t) : Z := us.

(** [millis * 1000] is an [uint32_t] multiplied by an [int]: the product is
    computed in 32 bits and only then widened. *)
Definition usec_from_millis (millis : Z) : usec_t :=
  usec_from_uint64_t (to_u32 (millis * 1000)).

Definition usec_from_seconds (secs : Z) : usec_t :=
  usec_from_millis (to_u32 (secs * 1000)).

Definition usec_from_hours (hours : Z) : usec_t :=
  usec_from_seconds (to_u32 (hours * 3600)).

(** The 64-bit quotient is returned as [uint32_t]. *)
Definition usec_to_millis (us : usec_t) : Z :=
  to_u32 (usec_as_uint64_t us / 1000).

Definition usec_to_seconds (us : usec_t) : Z :=
  to_u32 (usec_as_uint64_t us / 1000000).

Definition usec_to_minutes (us : usec_t) : Z :=
  to_u32 (usec_to_seconds us / 60).

Definition usec_to_hours (us : usec_t) : Z :=
  to_u32 (usec_to_minutes us / 60).

Definition usec_is_zero (a : usec_t) : bool := usec_as_uint64_t a =? 0.

Definition usec_add (a b : usec_t) : usec_t :=
  usec_from_uint64_t (usec_as_uint64_t a + usec_as_uint64_t b).

Definition usec_delta (later earlier : usec_t) : usec_t :=
  usec_from_uint64_t (later - earlier).

(** Modelled from the spec: [usec_cmp] and [usec_ne] are generated by the
    macro [DECLARE_NEWTYPE] of util-newtype.h, which is not part of the
    sources at hand; timestamps are "totally ordered, supporting ...
    comparison": a three-way comparison and an inequality test on the
    wrapped value. *)
Definition usec_cmp (a b : usec_t) : Z :=
  if usec_as_uint64_t a <? usec_as_uint64_t b then -1
  else if usec_as_uint64_t a =? usec_as_uint64_t b then 0 else 1.

Definition usec_ne (a : usec_t) (b : Z) : bool :=
  negb (usec_as_uint64_t a =? b).

Record timespec : Type := mk_timespec { tv_sec : Z; tv_nsec : Z }.

Definition usec_to_timespec (time : usec_t) : timespec :=
  let time_us := usec_as_uint64_t time in
  let one_sec_us := usec_as_uint64_t (usec_from_millis 1000) in
  {| tv_sec := time_us / one_sec_us;
     tv_nsec := (time_us mod one_sec_us) * 1000 |}.

(** [tv_nsec] is a [long]: its division truncates toward zero. *)
Definition usec_from_timespec (tp : timespec) : usec_t :=
  usec_from_uint64_t (tv_sec tp * 1000000 + Z.quot (tv_nsec tp) 1000).

End UtilTime.
Import UtilTime.


(** ** timer.c

    A [struct libinput_timer] lives inside its owner; it is identified here
    by its address.  The subsystem state holds the active list (an intrusive
    list, first element first), the [expire] field of every timer object, the
    setting last programmed into the timerfd and the cached next expiry.
    Diagnostics (the [#ifndef NDEBUG] block of [libinput_timer_set_flags] and
    the error log after [timerfd_settime]) leave no trace in this state. *)

Definition timer_id := nat.

Record itimerspec : Type := mk_itimerspec {
  it_interval : timespec;
  it_value : timespec
}.

Definition timespec_zero : timespec := {| tv_sec := 0; tv_nsec := 0 |}.

Definition itimerspec_zero : itimerspec :=
  {| it_interval := timespec_zero; it_value := timespec_zero |}.

Record libinput : Type := mk_libinput {
  timer_list : list timer_id;
  timer_expire : timer_id -> usec_t;
  timer_fd : itimerspec;
  next_expiry : usec_t
}.

Definition set_expire (f : timer_id -> usec_t) (t : timer_id) (v : usec_t)
  : timer_id -> usec_t :=
  fun t' => if Nat.eqb t' t then v else f t'.

(** Modelled from the spec: [list_insert] and [list_remove] of util-list are
    not part of the sources at hand.  The collection is unordered for the
    specification; insertion is taken to link the element right after the
    list head and removal to unlink it. *)
Definition list_insert (l : list timer_id) (elm : timer_id) : list timer_id :=
  elm :: l.

Definition list_remove (l : list timer_id) (elm : timer_id) : list timer_id :=
  remove Nat.eq_dec elm l.

Definition timespec_eqb (a b : timespec) : bool :=
  (tv_sec a =? tv_sec b) && (tv_nsec a =? tv_nsec b).

Definition libinput_timer_arm_timer_fd (li : libinput) : libinput :=
  let earliest_expire :=
    fold_left
      (fun earliest timer =>
         if usec_cmp (timer_expire li timer) earliest <? 0
         then timer_expire li timer else earliest)
      (timer_list li) (usec_from_uint64_t UINT64_MAX) in
  let its :=
    if usec_ne earliest_expire UINT64_MAX
    then {| it_interval := timespec_zero;
            it_value := usec_to_timespec earliest_expire |}
    else itimerspec_zero in
  {| timer_list := timer_list li;
     timer_expire := timer_expire li;
     timer_fd := its;
     next_expiry := earliest_expire |}.

(** [assert(usec_ne(expire, 0))] aborts the process: [None]. *)
Definition libinput_timer_set_flags
  (li : libinput) (timer : timer_id) (expire : usec_t) (flags : Z)
  : option libinput :=
  if usec_ne expire 0 then
    let l :=
      if usec_is_zero (timer_expire li timer)
      then list_insert (timer_list li) timer
      else timer_list li in
    Some (libinput_timer_arm_timer_fd
            {| timer_list := l;
               timer_expire := set_expire (timer_expire li) timer expire;
               timer_fd := timer_fd li;
               next_expiry := next_expiry li |})
  else None.

(** The flags only select diagnostics; the value of [TIMER_FLAG_NONE]
    (timer.h) plays no part. *)
Definition TIMER_FLAG_NONE : Z := 0.

Definition libinput_timer_set (li : libinput) (timer : timer_id) (expire : usec_t)
  : option libinput :=
  libinput_timer_set_flags li timer expire TIMER_FLAG_NONE.

Definition libinput_timer_cancel (li : libinput) (timer : timer_id) : libinput :=
  if usec_is_zero (timer_expire li timer) then li
  else
    libinput_timer_arm_timer_fd
      {| timer_list := list_remove (timer_list li) timer;
         timer_expire := set_expire (timer_expire li) timer (usec_from_uint64_t 0);
         timer_fd := timer_fd li;
         next_expiry := next_expiry li |}.

(** [libinput_timer_destroy]: the assertion fires when the timer is still
    linked. *)
Definition libinput_timer_destroy (li : libinput) (timer : timer_id)
  : option libinput :=
  if in_dec Nat.eq_dec timer (timer_list li) then None else Some li.

(** The state [libinput_timer_subsys_init] leaves in a zero-allocated
    context: an empty list and a fresh, disarmed timerfd. *)
Definition libinput_timer_subsys_init : libinput :=
  {| timer_list := [];
     timer_expire := fun _ => 0;
     timer_fd := itimerspec_zero;
     next_expiry := 0 |}.

(** *** Timer operations issued by owners and by callbacks *)

Inductive timer_op : Type :=
| TimerSet (timer : timer_id) (expire : usec_t) (flags : Z)
| TimerCancel (timer : timer_id).

Definition op_target (op : timer_op) : timer_id :=
  match op with
  | TimerSet t _ _ => t
  | TimerCancel t => t
  end.

Definition op_is_set (op : timer_op) : bool :=
  match op with
  | TimerSet _ _ _ => true
  | TimerCancel _ => false
  end.

Definition run_op (li : libinput) (op : timer_op) : option libinput :=
  match op with
  | TimerSet t e f => libinput_timer_set_flags li t e f
  | TimerCancel t => Some (libinput_timer_cancel li t)
  end.

Fixpoint run_ops (li : libinput) (ops : list timer_op) : option libinput :=
  match ops with
  | [] => Some li
  | op :: ops' =>
      match run_op li op with
      | Some li' => run_ops li' ops'
      | None => None
      end
  end.

(** *** Dispatch

    A timer callback receives [now] and its owner's data; what it does to the
    timer subsystem, it does through [libinput_timer_set_flags] and
    [libinput_timer_cancel], in the order it lists.  [None] is a callback
    that aborts the process.  The handler loops for as long as callbacks keep
    timers due, hence the fuel. *)

Inductive result (A : Type) : Type :=
| Returned (a : A)
| Aborted
| OutOfFuel.

Arguments Returned {A} a.
Arguments Aborted {A}.
Arguments OutOfFuel {A}.

(** One invocation of a timer callback, with what the callback finds in its
    own timer when it starts. *)
Record callback_call : Type := mk_call {
  call_timer : timer_id;
  call_now : usec_t;
  call_due_expire : usec_t;
  call_expire : usec_t;
  call_linked : bool
}.

Definition timer_func_t (ctx : Type) : Type :=
  timer_id -> usec_t -> ctx -> option (ctx * list timer_op).

(** The scan of [list_for_each_safe]: the first timer of the list with a
    non-zero expiry that is not after [now]. *)
Fixpoint first_expired (expire : timer_id -> usec_t) (now : usec_t)
  (l : list timer_id) : option timer_id :=
  match l with
  | [] => None
  | timer :: rest =>
      if usec_is_zero (expire timer) then first_expired expire now rest
      else if usec_cmp (expire timer) now <=? 0 then Some timer
      else first_expired expire now rest
  end.

Fixpoint libinput_timer_handler {ctx : Type} (timer_func : timer_func_t ctx)
  (fuel : nat) (li : libinput) (c : ctx) (now : usec_t)
  : result (libinput * ctx * list callback_call) :=
  match fuel with
  | O => OutOfFuel
  | S fuel' =>
      match first_expired (timer_expire li) now (timer_list li) with
      | None => Returned (li, c, [])
      | Some timer =>
          let li1 := libinput_timer_cancel li timer in
          let call :=
            {| call_timer := timer;
               call_now := now;
               call_due_expire := timer_expire li timer;
               call_expire := timer_expire li1 timer;
               call_linked := existsb (Nat.eqb timer) (timer_list li1) |} in
          match timer_func timer now c with
          | None => Aborted
          | Some (c', ops) =>
              match run_ops li1 ops with
              | None => Aborted
              | Some li2 =>
                  (* goto restart *)
                  match libinput_timer_handler timer_func fuel' li2 c' now with
                  | Returned (li3, c3, calls) => Returned (li3, c3, call :: calls)
                  | Aborted => Aborted
                  | OutOfFuel => OutOfFuel
                  end
              end
          end
      end
  end.

(** [libinput_timer_dispatch]: [clock] is what [libinput_now] returns, zero
    when the clock could not be read. *)
Definition libinput_timer_dispatch {ctx : Type} (timer_func : timer_func_t ctx)
  (fuel : nat) (li : libinput) (c : ctx) (clock : usec_t)
  : result (libinput * ctx * list callback_call) :=
  let now := clock in
  if usec_is_zero now then Returned (li, c, [])
  else libinput_timer_handler timer_func fuel li c now.

Definition libinput_timer_flush {ctx : Type} (timer_func : timer_func_t ctx)
  (fuel : nat) (li : libinput) (c : ctx) (now : usec_t)
  : result (libinput * ctx * list callback_call) :=
  if usec_is_zero (next_expiry li) || (usec_cmp (next_expiry li) now >? 0)
  then Returned (li, c, [])
  else libinput_timer_handler timer_func fuel li c now.

(** The specification's wording of [flush]: nothing happens when [now] is
    before the cached next expiry or no expiry is cached; otherwise it is a
    dispatch at [now]. *)
Definition flush_spec {ctx : Type} (timer_func : timer_func_t ctx)
  (fuel : nat) (li : libinput) (c : ctx) (now : usec_t)
  : result (libinput * ctx * list callback_call) :=
  if (now <? next_expiry li) || (next_expiry li =? 0)
  then Returned (li, c, [])
  else libinput_timer_handler timer_func fuel li c now.

(** *** What the specification says of the timer state *)

(** A timer is linked iff its expiry is set, and it is linked once. *)
Definition timer_inv (li : libinput) : Prop :=
  NoDup (timer_list li) /\
  forall t, In t (timer_list li) <-> timer_expire li t <> 0.

(** The smallest expiry among the linked timers. *)
Fixpoint min_expire (expire : timer_id -> usec_t) (l : list timer_id)
  : option usec_t :=
  match l with
  | [] => None
  | t :: rest =>
      match min_expire expire rest with
      | None => Some (expire t)
      | Some m => Some (Z.min (expire t) m)
      end
  end.

(** The absolute deadline the timerfd is programmed with; [None] when it is
    disarmed (an all-zero [it_value]). *)
Definition timerfd_deadline (li : libinput) : option usec_t :=
  if timespec_eqb (it_value (timer_fd li)) timespec_zero then None
  else Some (usec_from_timespec (it_value (timer_fd li))).

(** A timer that is due: linked, with a set expiry that is not after [now]. *)
Definition is_due (li : libinput) (now : usec_t) (t : timer_id) : bool :=
  existsb (Nat.eqb t) (timer_list li) &&
  negb (timer_expire li t =? 0) && (timer_expire li t <=? now).

(** Every linked timer has an expiry a caller can have meant: set, and
    below the value [libinput_timer_arm_timer_fd] starts its search from. *)
Definition expiries_valid (li : libinput) : Prop :=
  forall t, In t (timer_list li) -> 0 < timer_expire li t < UINT64_MAX.

(** The timerfd is programmed with the smallest linked expiry, and the cached
    next expiry is that value; with no timer linked the timerfd is disarmed
    and the cache holds [UINT64_MAX], or the zero it starts with. *)
Definition timerfd_armed_to_min (li : libinput) : Prop :=
  timerfd_deadline li = min_expire (timer_expire li) (timer_list li) /\
  match min_expire (timer_expire li) (timer_list li) with
  | Some m => next_expiry li = m
  | None => next_expiry li = UINT64_MAX \/ next_expiry li = 0
  end.

Definition timerfd_inv (li : libinput) : Prop :=
  expiries_valid li /\ timerfd_armed_to_min li.

Definition op_expiry_u64 (op : timer_op) : Prop :=
  match op with
  | TimerSet _ e _ => is_u64 e
  | TimerCancel _ => True
  end.

Definition op_expiry_valid (op : timer_op) : Prop :=
  match op with
  | TimerSet _ e _ => is_u64 e /\ e <> UINT64_MAX
  | TimerCancel _ => True
  end.




(** Callbacks that return and set no timer at all. *)
Definition sets_no_timer {ctx : Type} (timer_func : timer_func_t ctx) : Prop :=
  forall t now c, exists c' ops,
    timer_func t now c = Some (c', ops) /\
    Forall (fun op => op_is_set op = false) ops.


(** The value a returned computation carries. *)
Definition returned_or {A : Type} (d : A) (r : result A) : A :=
  match r with
  | Returned a => a
  | _ => d
  end.

Definition option_or {A : Type} (d : A) (o : option A) : A :=
  match o with
  | Some a => a
  | None => d
  end.


(** ** evdev-mt-touchpad-edge-motion.c *)

Set Warnings "-inexact-float".

(** [(double)] of an integer, rounded to nearest even, and the truncating
    conversion back. *)
Definition double_of_int (z : Z) : float :=
  SF2Prim (binary_normalize prec emax z 0 false).

Definition int_of_double (f : float) : Z :=
  match Prim2SF f with
  | S754_finite s m e =>
      let v := if 0 <=? e then Zpos m * 2 ^ e else Zpos m / 2 ^ (- e) in
      if s then - v else v
  | _ => 0
  end.

Inductive edge_motion_state : Type :=
| STATE_IDLE
| STATE_DRAG_ACTIVE
| STATE_EDGE_MOTION.

Definition edge_motion_state_eqb (a b : edge_motion_state) : bool :=
  match a, b with
  | STATE_IDLE, STATE_IDLE => true
  | STATE_DRAG_ACTIVE, STATE_DRAG_ACTIVE => true
  | STATE_EDGE_MOTION, STATE_EDGE_MOTION => true
  | _, _ => false
  end.

(** The address of a [struct tp_dispatch]. *)
Definition tp_ptr := nat.

(** [struct edge_motion_fsm]; [tp] is [None] for the NULL pointer.  The
    embedded [timer] is the timer object [fsm_timer] of the timer
    subsystem. *)
Record edge_motion_fsm : Type := mk_fsm {
  current_state : edge_motion_state;
  last_motion_time : Z;
  current_edge : Z;
  motion_dx : float;
  motion_dy : float;
  continuous_motion_count : Z;
  tp : option tp_ptr
}.

Definition fsm_timer : timer_id := 0%nat.

(** [memset(&fsm, 0, sizeof(fsm))] followed by [current_state = STATE_IDLE]. *)
Definition fsm_zero : edge_motion_fsm :=
  {| current_state := STATE_IDLE;
     last_motion_time := 0;
     current_edge := 0;
     motion_dx := 0%float;
     motion_dy := 0%float;
     continuous_motion_count := 0;
     tp := None |}.

Definition EDGE_MOTION_CONFIG_SPEED_MM_S : float := 70.0%float.
Definition EDGE_MOTION_CONFIG_MIN_INTERVAL_US : Z := 8000.
Definition EDGE_MOTION_CONFIG_EDGE_THRESHOLD_MM : float := 5.0%float.

(** The parts of evdev-mt-touchpad.h and evdev.h the module reads. *)
Inductive tp_tap_state : Type :=
| TAP_STATE_1FGTAP_DRAGGING
| TAP_STATE_1FGTAP_DRAGGING_2
| TAP_STATE_1FGTAP_DRAGGING_WAIT
| TAP_STATE_1FGTAP_DRAGGING_OR_TAP
| TAP_STATE_1FGTAP_DRAGGING_OR_DOUBLETAP
| TAP_STATE_OTHER (n : nat).

Inductive touch_state : Type :=
| TOUCH_NONE
| TOUCH_HOVERING
| TOUCH_OTHER (n : nat).

Record device_coords : Type := mk_device_coords { dc_x : Z; dc_y : Z }.
Record phys_coords : Type := mk_phys_coords { mm_x : float; mm_y : float }.
Record device_float_coords : Type := mk_dfc { dfc_x : float; dfc_y : float }.
Record normalized_coords : Type := mk_nc { nc_x : float; nc_y : float }.

Record input_absinfo : Type := mk_absinfo {
  minimum : Z;
  maximum : Z;
  resolution : Z
}.

Record evdev_device : Type := mk_evdev_device {
  base : nat;
  absinfo_x : input_absinfo;
  absinfo_y : input_absinfo;
  pointer_filter : nat
}.

Record tp_touch : Type := mk_touch {
  t_state : touch_state;
  point : device_coords
}.

Record tp_dispatch : Type := mk_tp {
  device : evdev_device;
  tap_state : tp_tap_state;
  touches : list tp_touch;
  accel_x_scale_coeff : float;
  accel_y_scale_coeff : float
}.

(** [pointer_notify_motion(&tp->device->base, time, &delta, &raw)]. *)
Record motion_event : Type := mk_motion {
  ev_device : nat;
  ev_time : Z;
  ev_delta : normalized_coords;
  ev_raw : device_float_coords
}.

(** The values of [enum tp_edge] are declared outside the sources at hand:
    the four flags are parameters, [EDGE_NONE] is the empty mask. *)
Record tp_edge : Type := mk_tp_edge {
  EDGE_LEFT : Z;
  EDGE_RIGHT : Z;
  EDGE_TOP : Z;
  EDGE_BOTTOM : Z
}.

Definition EDGE_NONE : Z := 0.

(** The flags are usable as a bit mask: non-empty and pairwise disjoint. *)
Definition tp_edge_ok (E : tp_edge) : Prop :=
  EDGE_LEFT E <> 0 /\ EDGE_RIGHT E <> 0 /\ EDGE_TOP E <> 0 /\ EDGE_BOTTOM E <> 0 /\
  Z.land (EDGE_LEFT E) (EDGE_RIGHT E) = 0 /\
  Z.land (EDGE_LEFT E) (EDGE_TOP E) = 0 /\
  Z.land (EDGE_LEFT E) (EDGE_BOTTOM E) = 0 /\
  Z.land (EDGE_RIGHT E) (EDGE_TOP E) = 0 /\
  Z.land (EDGE_RIGHT E) (EDGE_BOTTOM E) = 0 /\
  Z.land (EDGE_TOP E) (EDGE_BOTTOM E) = 0.

(** Modelled from the spec: [evdev_device_mm_to_units] is declared outside
    the sources at hand; the margin in millimetres is "converted to device
    units via the device's physical-to-logical mapping", that is the axis
    resolution in units per millimetre, counted from the axis minimum. *)
Definition evdev_device_mm_to_units_model (d : evdev_device) (mm : phys_coords)
  : device_coords :=
  {| dc_x := int_of_double
               (mm_x mm * double_of_int (resolution (absinfo_x d))
                + double_of_int (minimum (absinfo_x d)))%float;
     dc_y := int_of_double
               (mm_y mm * double_of_int (resolution (absinfo_y d))
                + double_of_int (minimum (absinfo_y d)))%float |}.

(** The collaborators of the module. *)
Record externals : Type := mk_externals {
  edges : tp_edge;
  evdev_device_mm_to_units : evdev_device -> phys_coords -> device_coords;
  filter_dispatch : nat -> device_float_coords -> tp_ptr -> Z -> normalized_coords
}.

Definition has_flag (edge flag : Z) : bool := negb (Z.land edge flag =? 0).

Definition calculate_motion_vector (E : tp_edge) (edge : Z) : float * float :=
  let dx :=
    if has_flag edge (EDGE_LEFT E) then (-1.0)%float
    else if has_flag edge (EDGE_RIGHT E) then 1.0%float
    else 0.0%float in
  let dy :=
    if has_flag edge (EDGE_TOP E) then (-1.0)%float
    else if has_flag edge (EDGE_BOTTOM E) then 1.0%float
    else 0.0%float in
  let mag := PrimFloat.sqrt (dx * dx + dy * dy)%float in
  if (0 <? mag)%float then ((dx / mag)%float, (dy / mag)%float) else (dx, dy).

(** The coordinates, the converted margin and the axis maximum are [int]s,
    and so is the difference of the last two. *)
Definition detect_touch_edge (X : externals) (d : tp_dispatch) (t : tp_touch) : Z :=
  let mm := {| mm_x := EDGE_MOTION_CONFIG_EDGE_THRESHOLD_MM;
               mm_y := EDGE_MOTION_CONFIG_EDGE_THRESHOLD_MM |} in
  let threshold := evdev_device_mm_to_units X (device d) mm in
  let edge := EDGE_NONE in
  let edge :=
    if dc_x (point t) <? dc_x threshold
    then Z.lor edge (EDGE_LEFT (edges X)) else edge in
  let edge :=
    if dc_x (point t) >? to_i32 (maximum (absinfo_x (device d)) - dc_x threshold)
    then Z.lor edge (EDGE_RIGHT (edges X)) else edge in
  let edge :=
    if dc_y (point t) <? dc_y threshold
    then Z.lor edge (EDGE_TOP (edges X)) else edge in
  let edge :=
    if dc_y (point t) >? to_i32 (maximum (absinfo_y (device d)) - dc_y threshold)
    then Z.lor edge (EDGE_BOTTOM (edges X)) else edge in
  edge.

(** The edge margin, as [detect_touch_edge] passes it to the conversion. *)
Definition threshold_mm : phys_coords :=
  {| mm_x := EDGE_MOTION_CONFIG_EDGE_THRESHOLD_MM;
     mm_y := EDGE_MOTION_CONFIG_EDGE_THRESHOLD_MM |}.

(** The state the module works on: the static [fsm], the timer subsystem
    its timer is registered with, and the motion notifications sent so far.
    [mem] gives the [struct tp_dispatch] behind a pointer. *)
Record world : Type := mk_world {
  w_fsm : edge_motion_fsm;
  w_li : libinput;
  w_motion : list motion_event
}.

Definition set_last_motion_time (f : edge_motion_fsm) (time : Z) : edge_motion_fsm :=
  {| current_state := current_state f;
     last_motion_time := time;
     current_edge := current_edge f;
     motion_dx := motion_dx f;
     motion_dy := motion_dy f;
     continuous_motion_count := continuous_motion_count f;
     tp := tp f |}.

Definition set_motion_count (f : edge_motion_fsm) (n : Z) : edge_motion_fsm :=
  {| current_state := current_state f;
     last_motion_time := last_motion_time f;
     current_edge := current_edge f;
     motion_dx := motion_dx f;
     motion_dy := motion_dy f;
     continuous_motion_count := n;
     tp := tp f |}.

Definition set_state_edge (f : edge_motion_fsm) (s : edge_motion_state) (edge : Z)
  : edge_motion_fsm :=
  {| current_state := s;
     last_motion_time := last_motion_time f;
     current_edge := edge;
     motion_dx := motion_dx f;
     motion_dy := motion_dy f;
     continuous_motion_count := continuous_motion_count f;
     tp := tp f |}.

Definition set_motion_vector (f : edge_motion_fsm) (v : float * float)
  : edge_motion_fsm :=
  {| current_state := current_state f;
     last_motion_time := last_motion_time f;
     current_edge := current_edge f;
     motion_dx := fst v;
     motion_dy := snd v;
     continuous_motion_count := continuous_motion_count f;
     tp := tp f |}.

(** [None]: the NULL [tp] is dereferenced. *)
Definition inject_accumulated_motion (X : externals) (mem : tp_ptr -> tp_dispatch)
  (tpp : option tp_ptr) (time : Z) (f : edge_motion_fsm) (out : list motion_event)
  : option (edge_motion_fsm * list motion_event) :=
  if last_motion_time f =? 0 then Some (set_last_motion_time f time, out)
  else
    let time_since_last := to_u64 (time - last_motion_time f) in
    let dist_mm :=
      (EDGE_MOTION_CONFIG_SPEED_MM_S
       * (double_of_int time_since_last / 1000000.0))%float in
    if (dist_mm <? 0.001)%float then Some (f, out)
    else
      match tpp with
      | None => None
      | Some p =>
          let raw :=
            {| dfc_x := (motion_dx f * dist_mm * accel_x_scale_coeff (mem p))%float;
               dfc_y := (motion_dy f * dist_mm * accel_y_scale_coeff (mem p))%float |} in
          let delta :=
            filter_dispatch X (pointer_filter (device (mem p))) raw p time in
          let ev :=
            {| ev_device := base (device (mem p));
               ev_time := time;
               ev_delta := delta;
               ev_raw := raw |} in
          Some (set_motion_count (set_last_motion_time f time)
                  (to_u64 (continuous_motion_count f + 1)),
                out ++ [ev])
      end.

(** The timer callback, on the owner's data (the [fsm] and the notification
    sink); the call of [libinput_timer_set] it ends with is returned as the
    timer operation it issues. *)
Definition tp_edge_motion_handle_timeout (X : externals) (mem : tp_ptr -> tp_dispatch)
  (now : Z) (c : edge_motion_fsm * list motion_event)
  : option ((edge_motion_fsm * list motion_event) * list timer_op) :=
  let (f, out) := c in
  if negb (edge_motion_state_eqb (current_state f) STATE_EDGE_MOTION)
  then Some (c, [])
  else
    match inject_accumulated_motion X mem (tp f) now f out with
    | None => None
    | Some c' =>
        Some (c', [TimerSet fsm_timer
                     (to_u64 (now + EDGE_MOTION_CONFIG_MIN_INTERVAL_US))
                     TIMER_FLAG_NONE])
    end.

(** The callback table of a context whose only owner is the edge-motion
    module: [libinput_timer_init] registers [tp_edge_motion_handle_timeout]
    for [fsm_timer]. *)
Definition edge_motion_timer_func (X : externals) (mem : tp_ptr -> tp_dispatch)
  : timer_func_t (edge_motion_fsm * list motion_event) :=
  fun timer now c =>
    if Nat.eqb timer fsm_timer then tp_edge_motion_handle_timeout X mem now c
    else Some (c, []).

(** The [memset] also clears the embedded timer object; it does not unlink
    it. *)
Definition memset_fsm_timer (li : libinput) : libinput :=
  {| timer_list := timer_list li;
     timer_expire := set_expire (timer_expire li) fsm_timer 0;
     timer_fd := timer_fd li;
     next_expiry := next_expiry li |}.

Definition tp_edge_motion_init (tpp : tp_ptr) (w : world) : world :=
  match tp (w_fsm w) with
  | Some _ => w
  | None =>
      {| w_fsm :=
           {| current_state := STATE_IDLE;
              last_motion_time := 0;
              current_edge := 0;
              motion_dx := 0%float;
              motion_dy := 0%float;
              continuous_motion_count := 0;
              tp := Some tpp |};
         w_li := memset_fsm_timer (w_li w);
         w_motion := w_motion w |}
  end.

Definition tp_edge_motion_cleanup (w : world) : option world :=
  let destroyed :=
    match tp (w_fsm w) with
    | Some _ => libinput_timer_destroy (w_li w) fsm_timer
    | None => Some (w_li w)
    end in
  match destroyed with
  | None => None
  | Some li =>
      Some {| w_fsm := fsm_zero;
              w_li := memset_fsm_timer li;
              w_motion := w_motion w |}
  end.

Definition drag_active_of (s : tp_tap_state) : bool :=
  match s with
  | TAP_STATE_1FGTAP_DRAGGING
  | TAP_STATE_1FGTAP_DRAGGING_2
  | TAP_STATE_1FGTAP_DRAGGING_WAIT
  | TAP_STATE_1FGTAP_DRAGGING_OR_TAP
  | TAP_STATE_1FGTAP_DRAGGING_OR_DOUBLETAP => true
  | TAP_STATE_OTHER _ => false
  end.

Definition touch_in_contact (t : tp_touch) : bool :=
  match t_state t with
  | TOUCH_NONE | TOUCH_HOVERING => false
  | TOUCH_OTHER _ => true
  end.

(** [tp_for_each_touch] up to the [break]. *)
Fixpoint first_touch_edge (X : externals) (d : tp_dispatch) (ts : list tp_touch) : Z :=
  match ts with
  | [] => EDGE_NONE
  | t :: rest =>
      if touch_in_contact t then detect_touch_edge X d t
      else first_touch_edge X d rest
  end.

Definition detected_edge_of (X : externals) (d : tp_dispatch) : Z :=
  if drag_active_of (tap_state d) then first_touch_edge X d (touches d)
  else EDGE_NONE.

Definition next_state_of (X : externals) (d : tp_dispatch) : edge_motion_state :=
  if drag_active_of (tap_state d) then
    if negb (detected_edge_of X d =? EDGE_NONE) then STATE_EDGE_MOTION
    else STATE_DRAG_ACTIVE
  else STATE_IDLE.

Definition tp_edge_motion_handle_drag_state (X : externals)
  (mem : tp_ptr -> tp_dispatch) (tpp : tp_ptr) (time : Z) (w : world)
  : option (world * bool) :=
  let w := match tp (w_fsm w) with
           | None => tp_edge_motion_init tpp w
           | Some _ => w
           end in
  let detected_edge := detected_edge_of X (mem tpp) in
  let next_state := next_state_of X (mem tpp) in
  let f := w_fsm w in
  if negb (edge_motion_state_eqb next_state (current_state f)) then
    let f := set_state_edge f next_state detected_edge in
    let f :=
      if negb (edge_motion_state_eqb (current_state f) STATE_EDGE_MOTION)
      then set_motion_count f 0 else f in
    match current_state f with
    | STATE_IDLE | STATE_DRAG_ACTIVE =>
        Some ({| w_fsm := f;
                 w_li := libinput_timer_cancel (w_li w) fsm_timer;
                 w_motion := w_motion w |},
              edge_motion_state_eqb (current_state f) STATE_EDGE_MOTION)
    | STATE_EDGE_MOTION =>
        let f := set_motion_vector f
                   (calculate_motion_vector (edges X) (current_edge f)) in
        let f := set_last_motion_time f time in
        match tp_edge_motion_handle_timeout X mem time (f, w_motion w) with
        | None => None
        | Some ((f', out'), ops) =>
            match run_ops (w_li w) ops with
            | None => None
            | Some li' =>
                Some ({| w_fsm := f'; w_li := li'; w_motion := out' |},
                      edge_motion_state_eqb (current_state f') STATE_EDGE_MOTION)
            end
        end
    end
  else if edge_motion_state_eqb (current_state f) STATE_EDGE_MOTION
          && negb (detected_edge =? current_edge f) then
    let f := set_state_edge f (current_state f) detected_edge in
    let f := set_motion_vector f
               (calculate_motion_vector (edges X) (current_edge f)) in
    Some ({| w_fsm := f; w_li := w_li w; w_motion := w_motion w |},
          edge_motion_state_eqb (current_state f) STATE_EDGE_MOTION)
  else
    Some (w, edge_motion_state_eqb (current_state f) STATE_EDGE_MOTION).

(** The static initialiser of [fsm], in a freshly initialised context. *)
Definition world_init : world :=
  {| w_fsm := fsm_zero; w_li := libinput_timer_subsys_init; w_motion := [] |}.

(** The embedded timer is armed exactly in [STATE_EDGE_MOTION]; outside of
    that state the continuous-motion counter is zero; an unbound machine is
    idle.  Together with the invariant of the timer list. *)
Definition fsm_inv (w : world) : Prop :=
  (current_state (w_fsm w) = STATE_EDGE_MOTION <->
   timer_expire (w_li w) fsm_timer <> 0) /\
  (current_state (w_fsm w) <> STATE_EDGE_MOTION ->
   continuous_motion_count (w_fsm w) = 0) /\
  (tp (w_fsm w) = None -> current_state (w_fsm w) = STATE_IDLE) /\
  timer_inv (w_li w).

(** The world after the lazy binding at the head of
    [tp_edge_motion_handle_drag_state]. *)
Definition bound_world (tpp : tp_ptr) (w : world) : world :=
  match tp (w_fsm w) with
  | None => tp_edge_motion_init tpp w
  | Some _ => w
  end.

(** The [fsm] as it enters [STATE_EDGE_MOTION] at [time] with the detected
    [edge], before the timeout handler is called. *)
Definition entering_fsm (E : tp_edge) (f : edge_motion_fsm) (edge : Z) (time : Z)
  : edge_motion_fsm :=
  set_last_motion_time
    (set_motion_vector (set_state_edge f STATE_EDGE_MOTION edge)
       (calculate_motion_vector E edge))
    time.

(** The notification [inject_accumulated_motion] sends for device [p] at
    [now], [elapsed] microseconds after the last one. *)
Definition injected_event (X : externals) (mem : tp_ptr -> tp_dispatch)
  (p : tp_ptr) (f : edge_motion_fsm) (now elapsed : Z) : motion_event :=
  let dist_mm :=
    (EDGE_MOTION_CONFIG_SPEED_MM_S * (double_of_int elapsed / 1000000.0))%float in
  let raw :=
    {| dfc_x := (motion_dx f * dist_mm * accel_x_scale_coeff (mem p))%float;
       dfc_y := (motion_dy f * dist_mm * accel_y_scale_coeff (mem p))%float |} in
  {| ev_device := base (device (mem p));
     ev_time := now;
     ev_delta := filter_dispatch X (pointer_filter (device (mem p))) raw p now;
     ev_raw := raw |}.

(** ** Sample inputs *)

(** Four timers, linked in the order 1, 2, 3, 4 and due at 5, 7, 6 and 20.
    The callback of timer 1 re-arms itself once, to [now]; the callback of
    timer 2 cancels timer 3. *)
Definition sample_timer_func : timer_func_t nat :=
  fun t now c =>
    match t with
    | 1%nat => if Nat.eqb c 0 then Some (1%nat, [TimerSet 1%nat now 0])
               else Some (c, [])
    | 2%nat => Some (c, [TimerCancel 3%nat])
    | _ => Some (c, [])
    end.

Definition sample_timers : libinput :=
  option_or libinput_timer_subsys_init
    (run_ops libinput_timer_subsys_init
       [TimerSet 4%nat 20 0; TimerSet 3%nat 6 0; TimerSet 2%nat 7 0;
        TimerSet 1%nat 5 0]).

(** Two timers due at 5; the callback of timer 2 cancels timer 1. *)
Definition cancelling_timer_func : timer_func_t unit :=
  fun t now c =>
    match t with
    | 2%nat => Some (c, [TimerCancel 1%nat])
    | _ => Some (c, [])
    end.


(** Edge flags as four distinct bits, the modelled unit conversion, and a
    filter that passes the raw delta on. *)
Definition sample_edges : tp_edge :=
  {| EDGE_LEFT := 1; EDGE_RIGHT := 2; EDGE_TOP := 4; EDGE_BOTTOM := 8 |}.

Definition sample_externals : externals :=
  {| edges := sample_edges;
     evdev_device_mm_to_units := evdev_device_mm_to_units_model;
     filter_dispatch :=
       fun _ raw _ _ => {| nc_x := dfc_x raw; nc_y := dfc_y raw |} |}.

(** A touchpad 100 mm wide and high at 10 units per millimetre, and one
    that is 5 mm wide and high. *)
Definition sample_device (id : nat) (size : Z) : evdev_device :=
  {| base := id;
     absinfo_x := {| minimum := 0; maximum := size; resolution := 10 |};
     absinfo_y := {| minimum := 0; maximum := size; resolution := 10 |};
     pointer_filter := id |}.

(** A touchpad 100 mm wide and high at 10 units per millimetre whose axes
    run from 1000 to 2000, with one finger on it. *)
Definition offset_device : evdev_device :=
  {| base := 1%nat;
     absinfo_x := {| minimum := 1000; maximum := 2000; resolution := 10 |};
     absinfo_y := {| minimum := 1000; maximum := 2000; resolution := 10 |};
     pointer_filter := 1%nat |}.

Definition offset_tp (s : tp_tap_state) (x y : Z) : tp_dispatch :=
  {| device := offset_device;
     tap_state := s;
     touches := [ {| t_state := TOUCH_OTHER 0;
                     point := {| dc_x := x; dc_y := y |} |} ];
     accel_x_scale_coeff := 1.0%float;
     accel_y_scale_coeff := 1.0%float |}.

Definition sample_tp (id : nat) (size : Z) (s : tp_tap_state) (x y : Z)
  : tp_dispatch :=
  {| device := sample_device id size;
     tap_state := s;
     touches := [ {| t_state := TOUCH_HOVERING; point := {| dc_x := 500; dc_y := 500 |} |};
                  {| t_state := TOUCH_OTHER 0; point := {| dc_x := x; dc_y := y |} |} ];
     accel_x_scale_coeff := 1.0%float;
     accel_y_scale_coeff := 1.0%float |}.

(** A drag with the finger at the left edge, a drag with the finger in the
    middle, and no drag, on every device. *)
Definition sample_mem_edge : tp_ptr -> tp_dispatch :=
  fun p => sample_tp p 1000 TAP_STATE_1FGTAP_DRAGGING 10 500.

Definition sample_mem_centre : tp_ptr -> tp_dispatch :=
  fun p => sample_tp p 1000 TAP_STATE_1FGTAP_DRAGGING 500 500.

Definition sample_mem_idle : tp_ptr -> tp_dispatch :=
  fun p => sample_tp p 1000 (TAP_STATE_OTHER 0) 10 500.

(** The world after a first evaluation, for device 1 at 1 s, that finds the
    finger at the left edge; and after a second one, 4 ms later, that finds
    the drag over. *)
Definition sample_world_edge : world :=
  fst (option_or (world_init, false)
         (tp_edge_motion_handle_drag_state sample_externals sample_mem_edge
            1%nat 1000000 world_init)).

Definition sample_world_idle : world :=
  fst (option_or (world_init, false)
         (tp_edge_motion_handle_drag_state sample_externals sample_mem_idle
            1%nat 1004000 sample_world_edge)).

(** ** util-time.h, the remaining conversions *)

Module Timeval.

Record timeval : Type := mk_timeval { tv_sec : Z; tv_usec : Z }.

End Timeval.

Definition usec_add_millis (us : usec_t) (millis : Z) : usec_t :=
  usec_from_uint64_t (usec_as_uint64_t us + to_u32 (millis * 1000)).

Definition usec_from_timeval (tv : Timeval.timeval) : usec_t :=
  usec_from_uint64_t (Timeval.tv_sec tv * 1000000 + Timeval.tv_usec tv).

Definition usec_to_timeval (time : usec_t) : Timeval.timeval :=
  let time_us := usec_as_uint64_t time in
  let one_sec_us := usec_as_uint64_t (usec_from_millis 1000) in
  {| Timeval.tv_sec := time_us / one_sec_us;
     Timeval.tv_usec := time_us mod one_sec_us |}.

Definition usec_sub (a b : usec_t) : usec_t :=
  usec_from_uint64_t (usec_as_uint64_t a - usec_as_uint64_t b).

From Stdlib Require Strings.String.

Module HumanTime.

Import Stdlib.Strings.String.

(** [struct human_time]; [value] is an [unsigned int]. *)
Record human_time : Type := mk_human_time { value : Z; unit : string }.

(** [struct c]: unit, divisor from the previous unit, limit.  The last limit
    is [~0] converted to [uint64_t]. *)
Record conversion_step : Type := mk_step {
  c_unit : string;
  change_from_previous : Z;
  limit : Z
}.

Definition conversion : list conversion_step :=
  [ {| c_unit := "us"; change_from_previous := 1; limit := 5000 |};
    {| c_unit := "ms"; change_from_previous := 1000; limit := 5000 |};
    {| c_unit := "s"; change_from_previous := 1000; limit := 120 |};
    {| c_unit := "min"; change_from_previous := 60; limit := 120 |};
    {| c_unit := "h"; change_from_previous := 60; limit := 48 |};
    {| c_unit := "d"; change_from_previous := 24; limit := UINT64_MAX |} ].

(** [ARRAY_FOR_EACH(conversion, c)]; running off the array is the
    assertion: [None]. *)
Fixpoint to_human_time_loop (value : Z) (cs : list conversion_step)
  : option human_time :=
  match cs with
  | [] => None
  | c :: rest =>
      let value := value / change_from_previous c in
      if value <? limit c
      then Some {| value := to_u32 value; unit := c_unit c |}
      else to_human_time_loop value rest
  end.

Definition to_human_time (us : usec_t) : option human_time :=
  to_human_time_loop (usec_as_uint64_t us) conversion.

(** The length of a unit in microseconds, and the result the documentation
    of [to_human_time] describes: the count of whole units, in the first
    unit for which the count is below its limit. *)
Definition human (count : Z) (u : string) : option human_time :=
  Some {| value := count; unit := u |}.

Definition human_time_spec (us : Z) : option human_time :=
  if us <? 5000 then human us "us"
  else if us <? 5000000 then human (us / 1000) "ms"
  else if us <? 120000000 then human (us / 1000000) "s"
  else if us <? 7200000000 then human (us / 60000000) "min"
  else if us <? 172800000000 then human (us / 3600000000) "h"
  else human (us / 86400000000) "d".

End HumanTime.

(** ** timer.c, teardown *)

(** [libinput_timer_subsys_destroy]: the assertion wants the list empty. *)
Definition libinput_timer_subsys_destroy (li : libinput) : option unit :=
  match timer_list li with
  | [] => Some tt
  | _ :: _ => None
  end.

(** An expiry that makes a timer due at [now]. *)
Definition due_at (expire : timer_id -> usec_t) (now : usec_t) (t : timer_id)
  : bool :=
  negb (expire t =? 0) && (expire t <=? now).

(** Callbacks that return and leave the timer subsystem alone. *)
Definition passive {ctx : Type} (timer_func : timer_func_t ctx) : Prop :=
  forall t now c, exists c', timer_func t now c = Some (c', []).

(** Callbacks that only set expiries below [UINT64_MAX]. *)
Definition sets_valid_expiries {ctx : Type} (timer_func : timer_func_t ctx)
  : Prop :=
  forall t now c c' ops,
    timer_func t now c = Some (c', ops) -> Forall op_expiry_valid ops.

(** A callback table whose callbacks do nothing. *)
Definition idle_timer_func : timer_func_t unit :=
  fun _ _ c => Some (c, []).

(** Timers 1 and 2 due at 5 and timer 3 due at 50. *)
Definition three_timers : libinput :=
  option_or libinput_timer_subsys_init
    (run_ops libinput_timer_subsys_init
       [TimerSet 3%nat 50 0; TimerSet 1%nat 5 0; TimerSet 2%nat 5 0]).

(** ** evdev-mt-touchpad-edge-motion.c, the injection cadence *)

(** The test [dist_mm < 0.001] of [inject_accumulated_motion], as a function
    of the microseconds elapsed. *)
Definition negligible_distance (elapsed : Z) : bool :=
  (EDGE_MOTION_CONFIG_SPEED_MM_S * (double_of_int elapsed / 1000000.0)
   <? 0.001)%float.

(** [k] dispatches of the timer subsystem, the first at [now] and each
    further one [EDGE_MOTION_CONFIG_MIN_INTERVAL_US] later, in a context
    whose callbacks are those of the edge-motion module. *)
Fixpoint edge_motion_dispatches (X : externals) (mem : tp_ptr -> tp_dispatch)
  (k : nat) (now : usec_t) (li : libinput)
  (c : edge_motion_fsm * list motion_event)
  : result (libinput * (edge_motion_fsm * list motion_event)) :=
  match k with
  | O => Returned (li, c)
  | S k' =>
      match libinput_timer_handler (edge_motion_timer_func X mem) 2 li c now with
      | Returned (li', c', _) =>
          edge_motion_dispatches X mem k'
            (now + EDGE_MOTION_CONFIG_MIN_INTERVAL_US) li' c'
      | Aborted => Aborted
      | OutOfFuel => OutOfFuel
      end
  end.

(** [P] on all of [lo, lo + 2 ^ depth). *)
Fixpoint holds_on_range (P : Z -> bool) (depth : nat) (lo : Z) : bool :=
  match depth with
  | O => P lo
  | S d => holds_on_range P d lo && holds_on_range P d (lo + 2 ^ Z.of_nat d)
  end.

(** * The Lua plugins of plugins/10-copilot-key-override.lua and
      plugins/10-disable-feature.lua *)

Module Lua.

(** An event of an evdev frame, the table [{ usage = ..., value = ... }]. *)
Record evdev_event := { usage : Z; value : Z }.

(** The entries of the global table [evdev] that the plugins read. *)
Record evdev_table := {
  KEY_A : Z;
  KEY_LEFTSHIFT : Z;
  KEY_LEFTMETA : Z;
  KEY_F23 : Z;
  REL_WHEEL : Z;
  REL_WHEEL_HI_RES : Z;
  ABS_X : Z;
  ABS_Y : Z;
  ABS_MISC : Z;
  BTN_LEFT : Z;
  BTN_RIGHT : Z;
  BTN_MIDDLE : Z;
  BTN_EXTRA : Z;
  BTN_TOUCH : Z;
  BTN_STYLUS : Z;
  BTN_STYLUS2 : Z
}.

(** A device object, by identity. *)
Definition device_t := nat.

(** The method calls of a plugin on a device object, in the order made. *)
Inductive device_call :=
| prepend_frame (device : device_t) (events : list evdev_event)
| append_frame (device : device_t) (events : list evdev_event).

(** What a frame handler returns: [nil] leaves the frame as it is, a table
    replaces it. *)
Definition frame_result := option (list evdev_event).

End Lua.

(** ** The Copilot key plugin *)

Module CopilotKey.
Import Lua.

(** The globals [meta_is_down], [shift_is_down] and
    [replacement_sequence]. *)
Record globals := {
  meta_is_down : bool;
  shift_is_down : bool;
  replacement_sequence : list Z
}.

Definition globals_init (E : evdev_table) : globals :=
  {| meta_is_down := false;
     shift_is_down := false;
     replacement_sequence := [KEY_LEFTSHIFT E; KEY_A E] |}.

Definition set_meta_is_down (g : globals) (b : bool) : globals :=
  {| meta_is_down := b;
     shift_is_down := shift_is_down g;
     replacement_sequence := replacement_sequence g |}.

Definition set_shift_is_down (g : globals) (b : bool) : globals :=
  {| meta_is_down := meta_is_down g;
     shift_is_down := b;
     replacement_sequence := replacement_sequence g |}.

(** [frame(device, frame, _)]: the loop over the events of the frame, with
    the globals threaded through and the calls on [device] collected. *)
Fixpoint frame (E : evdev_table) (device : device_t) (g : globals)
  (events : list evdev_event) : globals * list device_call * frame_result :=
  match events with
  | [] => (g, [], None)
  | v :: rest =>
      if negb (value v =? 2) then
        if usage v =? KEY_LEFTMETA E then
          frame E device (set_meta_is_down g (value v =? 1)) rest
        else if usage v =? KEY_LEFTSHIFT E then
          frame E device (set_shift_is_down g (value v =? 1)) rest
        else if (usage v =? KEY_F23 E) && meta_is_down g && shift_is_down g then
          if value v =? 1 then
            (g,
             [prepend_frame device
                [{| usage := KEY_LEFTSHIFT E; value := 0 |};
                 {| usage := KEY_LEFTMETA E; value := 0 |}];
              append_frame device
                (map (fun rv => {| usage := rv; value := 1 |})
                   (replacement_sequence g))],
             Some [])
          else
            (g,
             [append_frame device
                (map (fun rv => {| usage := rv; value := 0 |})
                   (rev (replacement_sequence g)))],
             Some [])
        else frame E device g rest
      else frame E device g rest
  end.

(** Whether the key [key] is down after the events, from the last event of
    the key that is not a repeat. *)
Definition key_down_after (key : Z) (down : bool) (events : list evdev_event)
  : bool :=
  fold_left
    (fun b v =>
       if negb (value v =? 2) && (usage v =? key) then value v =? 1 else b)
    events down.

Definition is_repeat (v : evdev_event) : bool := value v =? 2.

End CopilotKey.

(** ** The tablet-as-pointer plugin *)

Module TabletPointer.
Import Lua.

(** The loop of [on_tablet_frame] with the table [events] built so far;
    [None] is the early [return {}] at an [ABS_MISC] event. *)
Fixpoint map_frame (E : evdev_table) (frame events : list evdev_event)
  : option (list evdev_event) :=
  match frame with
  | [] => Some events
  | v :: rest =>
      if usage v =? ABS_MISC E then None
      else if usage v =? ABS_X E then
        map_frame E rest (events ++ [{| usage := ABS_X E; value := value v |}])
      else if usage v =? ABS_Y E then
        map_frame E rest (events ++ [{| usage := ABS_Y E; value := value v |}])
      else if usage v =? BTN_TOUCH E then
        map_frame E rest (events ++ [{| usage := BTN_LEFT E; value := value v |}])
      else if usage v =? BTN_STYLUS E then
        map_frame E rest (events ++ [{| usage := BTN_RIGHT E; value := value v |}])
      else if usage v =? BTN_STYLUS2 E then
        map_frame E rest (events ++ [{| usage := BTN_MIDDLE E; value := value v |}])
      else map_frame E rest events
  end.

(** [on_tablet_frame(device, frame, time_in_microseconds)], reading the
    global [pointer_device]. *)
Definition on_tablet_frame (E : evdev_table) (pointer_device : option device_t)
  (frame : list evdev_event) : list device_call * frame_result :=
  match pointer_device with
  | None => ([], None)
  | Some pointer =>
      match map_frame E frame [] with
      | None => ([], Some [])
      | Some events =>
          (if (0 <? length events)%nat then [append_frame pointer events] else [],
           Some [])
      end
  end.

(** The usages the plugin sends to the pointer device. *)
Definition pointer_usages (E : evdev_table) : list Z :=
  [ABS_X E; ABS_Y E; BTN_LEFT E; BTN_RIGHT E; BTN_MIDDLE E].

(** The usages of the tablet that the plugin reads. *)
Definition tablet_usages (E : evdev_table) : list Z :=
  [ABS_X E; ABS_Y E; BTN_TOUCH E; BTN_STYLUS E; BTN_STYLUS2 E].

Definition is_forwarded (E : evdev_table) (v : evdev_event) : bool :=
  existsb (Z.eqb (usage v)) (tablet_usages E).

Definition is_proximity (E : evdev_table) (v : evdev_event) : bool :=
  usage v =? ABS_MISC E.

End TabletPointer.

(** ** The wheel-to-button plugin *)

Module WheelButton.
Import Lua.

Definition wheel_button (E : evdev_table) : Z := BTN_EXTRA E.

(** Truth of [button_states[device]]: [nil] and [false] are false. *)
Definition truthy (state : option bool) : bool :=
  match state with
  | Some true => true
  | _ => false
  end.

(** The loop of [evdev_frame] with the locals [events] and [modified];
    [state] is the entry [button_states[device]]. *)
Fixpoint frame_loop (E : evdev_table) (state : option bool)
  (frame events : list evdev_event) (modified : bool)
  : option bool * list evdev_event * bool :=
  match frame with
  | [] => (state, events, modified)
  | v :: rest =>
      if usage v =? REL_WHEEL E then
        if value v <? 0 then
          if negb (truthy state) then
            frame_loop E (Some true) rest
              (events ++ [{| usage := wheel_button E; value := 1 |}]) true
          else frame_loop E state rest events true
        else
          if truthy state then
            frame_loop E (Some false) rest
              (events ++ [{| usage := wheel_button E; value := 0 |}]) true
          else frame_loop E state rest events true
      else if usage v =? REL_WHEEL_HI_RES E then
        frame_loop E state rest events true
      else frame_loop E state rest (events ++ [v]) modified
  end.

(** [evdev_frame(device, frame, timestamp)]: the new [button_states[device]]
    and the returned frame. *)
Definition evdev_frame (E : evdev_table) (state : option bool)
  (frame : list evdev_event) : option bool * frame_result :=
  match frame_loop E state frame [] false with
  | (state', events, modified) =>
      (state', if modified then Some events else None)
  end.

(** Values of button events that alternate, starting with a press when the
    button is up and with a release when it is down. *)
Fixpoint alternates (down : bool) (values : list Z) : Prop :=
  match values with
  | [] => True
  | x :: rest => x = (if down then 0 else 1) /\ alternates (negb down) rest
  end.

Definition button_values (E : evdev_table) (events : list evdev_event)
  : list Z :=
  map value (filter (fun v => usage v =? wheel_button E) events).

Definition is_wheel (E : evdev_table) (v : evdev_event) : bool :=
  (usage v =? REL_WHEEL E) || (usage v =? REL_WHEEL_HI_RES E).

End WheelButton.

(** The usages of the Linux input event codes, as [type << 16 | code]. *)
Definition sample_evdev : Lua.evdev_table :=
  {| Lua.KEY_A := 0x1001e;
     Lua.KEY_LEFTSHIFT := 0x1002a;
     Lua.KEY_LEFTMETA := 0x1007d;
     Lua.KEY_F23 := 0x100c1;
     Lua.REL_WHEEL := 0x20008;
     Lua.REL_WHEEL_HI_RES := 0x2000b;
     Lua.ABS_X := 0x30000;
     Lua.ABS_Y := 0x30001;
     Lua.ABS_MISC := 0x30028;
     Lua.BTN_LEFT := 0x10110;
     Lua.BTN_RIGHT := 0x10111;
     Lua.BTN_MIDDLE := 0x10112;
     Lua.BTN_EXTRA := 0x10114;
     Lua.BTN_TOUCH := 0x1014a;
     Lua.BTN_STYLUS := 0x1014b;
     Lua.BTN_STYLUS2 := 0x1014c |}.

Definition lua_event (usage value : Z) : Lua.evdev_event :=
  {| Lua.usage := usage; Lua.value := value |}.

(** * Properties *)

(** ** Time conversions *)

Lemma to_u32_small (z : Z) : 0 <= z < UINT32_MOD -> to_u32 z = z.
Proof. intros H. unfold to_u32. now apply Z.mod_small. Qed.

Lemma to_u64_small (z : Z) : 0 <= z < UINT64_MOD -> to_u64 z = z.
Proof. intros H. unfold to_u64. now apply Z.mod_small. Qed.

Lemma to_i32_small (z : Z) : is_i32 z -> to_i32 z = z.
Proof.
  unfold is_i32, INT32_MIN, INT32_MAX, to_i32, UINT32_MOD. intros H.
  rewrite Z.mod_small; lia.
Qed.

Lemma u32_in_u64 (z : Z) : 0 <= z < UINT32_MOD -> 0 <= z < UINT64_MOD.
Proof. unfold UINT32_MOD, UINT64_MOD. lia. Qed.

(** The quotient by a unit, multiplied back, is the value without its
    remainder. *)
Lemma truncate_to_unit (us unit : Z) :
  0 < unit -> us / unit * unit = us - us mod unit.
Proof. intros H. pose proof (Z.div_mod us unit). lia. Qed.

Lemma millis_roundtrip (us : usec_t) :
  is_u64 us -> us - us mod 1000 < UINT32_MOD ->
  usec_from_millis (usec_to_millis us) = us - us mod 1000.
Proof.
  intros [H0 H1] Hs.
  rewrite <- (truncate_to_unit us 1000) in * by lia.
  assert (Hq : 0 <= us / 1000) by (apply Z.div_pos; lia).
  unfold usec_from_millis, usec_to_millis, usec_as_uint64_t, usec_from_uint64_t.
  rewrite (to_u32_small (us / 1000)) by (unfold UINT32_MOD in *; lia).
  rewrite to_u32_small by lia.
  apply to_u64_small, u32_in_u64. lia.
Qed.

Lemma seconds_roundtrip (us : usec_t) :
  is_u64 us -> us - us mod 1000000 < UINT32_MOD ->
  usec_from_seconds (usec_to_seconds us) = us - us mod 1000000.
Proof.
  intros [H0 H1] Hs.
  rewrite <- (truncate_to_unit us 1000000) in * by lia.
  assert (Hq : 0 <= us / 1000000) by (apply Z.div_pos; lia).
  unfold usec_from_seconds, usec_from_millis, usec_to_seconds,
    usec_as_uint64_t, usec_from_uint64_t.
  rewrite (to_u32_small (us / 1000000)) by (unfold UINT32_MOD in *; lia).
  rewrite (to_u32_small (us / 1000000 * 1000)) by (unfold UINT32_MOD in *; lia).
  rewrite to_u32_small by lia.
  rewrite to_u64_small by (apply u32_in_u64; lia). lia.
Qed.

Lemma hours_roundtrip (us : usec_t) :
  is_u64 us -> us - us mod 3600000000 < UINT32_MOD ->
  usec_from_hours (usec_to_hours us) = us - us mod 3600000000.
Proof.
  intros [H0 H1] Hs.
  rewrite <- (truncate_to_unit us 3600000000) in * by lia.
  assert (Hq : 0 <= us / 3600000000) by (apply Z.div_pos; lia).
  assert (Hh : us / 3600000000 = 0 \/ us / 3600000000 = 1)
    by (unfold UINT32_MOD in Hs; lia).
  assert (Hus : us < 7200000000).
  { pose proof (Z.div_mod us 3600000000).
    pose proof (Z.mod_pos_bound us 3600000000). lia. }
  assert (Hsec : 0 <= us / 1000000 < 7200).
  { split; [apply Z.div_pos; lia | apply Z.div_lt_upper_bound; lia]. }
  assert (Hmin : 0 <= us / 1000000 / 60 < 120).
  { split; [apply Z.div_pos; lia | apply Z.div_lt_upper_bound; lia]. }
  assert (Hhr : us / 1000000 / 60 / 60 = us / 3600000000).
  { rewrite !Z.div_div by lia. reflexivity. }
  unfold usec_to_hours, usec_to_minutes, usec_to_seconds, usec_as_uint64_t.
  rewrite (to_u32_small (us / 1000000)) by (unfold UINT32_MOD; lia).
  rewrite (to_u32_small (us / 1000000 / 60)) by (unfold UINT32_MOD; lia).
  rewrite Hhr.
  destruct Hh as [-> | ->]; reflexivity.
Qed.

(** Below 2^32 us the round trips truncate to the coarser unit. *)
Lemma usec_roundtrip_within_32_bits (us : usec_t) :
  is_u64 us ->
  (us - us mod 1000 < UINT32_MOD ->
   usec_from_millis (usec_to_millis us) = us - us mod 1000) /\
  (us - us mod 1000000 < UINT32_MOD ->
   usec_from_seconds (usec_to_seconds us) = us - us mod 1000000) /\
  (us - us mod 3600000000 < UINT32_MOD ->
   usec_from_hours (usec_to_hours us) = us - us mod 3600000000).
Proof.
  intros H. repeat split; intros Hs.
  - now apply millis_roundtrip.
  - now apply seconds_roundtrip.
  - now apply hours_roundtrip.
Qed.

(** C8: the round trip of 5000 s through milliseconds does not return the
    value truncated to milliseconds.  [usec_to_millis] gives 5000000, which
    fits [uint32_t]; [usec_from_millis] multiplies it by 1000 in 32 bits
    before the product becomes the 64-bit [usec_t], and returns 705032704
    where the truncated value is 5000000000.  The constructors for seconds
    and hours go through the same product: two hours come back as
    2905032704 us. *)
Theorem usec_roundtrip_wraps_at_32_bits :
  is_u64 5000000000 /\
  usec_to_millis 5000000000 = 5000000 /\
  usec_from_millis (usec_to_millis 5000000000) = 705032704 /\
  5000000000 - 5000000000 mod 1000 = 5000000000 /\
  usec_from_seconds (usec_to_seconds 5000000000) = 705032704 /\
  usec_to_hours 7200000000 = 2 /\
  usec_from_hours (usec_to_hours 7200000000) = 2905032704.
Proof.
  split; [unfold is_u64, UINT64_MOD; lia|].
  repeat split; vm_compute; reflexivity.
Qed.

Example usec_from_hours_2 : usec_from_hours 2 = 2905032704.
Proof. reflexivity. Qed.

(** ** The timer list and the expiry fields *)

Lemma usec_is_zero_eqb (a : usec_t) : usec_is_zero a = (a =? 0).
Proof. reflexivity. Qed.

Lemma usec_cmp_ltb (a b : usec_t) : (usec_cmp a b <? 0) = (a <? b).
Proof.
  unfold usec_cmp, usec_as_uint64_t.
  destruct (Z.ltb_spec a b); [reflexivity|].
  destruct (Z.eqb_spec a b); reflexivity.
Qed.

Lemma usec_cmp_leb (a b : usec_t) : (usec_cmp a b <=? 0) = (a <=? b).
Proof.
  unfold usec_cmp, usec_as_uint64_t.
  destruct (Z.ltb_spec a b), (Z.eqb_spec a b), (Z.leb_spec a b);
    try reflexivity; lia.
Qed.

Lemma usec_cmp_gtb (a b : usec_t) : (usec_cmp a b >? 0) = (b <? a).
Proof.
  unfold usec_cmp, usec_as_uint64_t.
  destruct (Z.ltb_spec a b), (Z.eqb_spec a b), (Z.ltb_spec b a);
    try reflexivity; lia.
Qed.

Lemma set_expire_same f t v : set_expire f t v t = v.
Proof. unfold set_expire. now rewrite Nat.eqb_refl. Qed.

Lemma set_expire_other f t v t' : t' <> t -> set_expire f t v t' = f t'.
Proof.
  intros H. unfold set_expire.
  destruct (Nat.eqb_spec t' t); [contradiction | reflexivity].
Qed.

Lemma existsb_eqb_In (t : timer_id) (l : list timer_id) :
  existsb (Nat.eqb t) l = true <-> In t l.
Proof.
  rewrite existsb_exists. split.
  - intros (x & Hx & He). apply Nat.eqb_eq in He. now subst.
  - intros H. exists t. split; [assumption | apply Nat.eqb_refl].
Qed.

Lemma NoDup_list_remove (l : list timer_id) (t : timer_id) :
  NoDup l -> NoDup (list_remove l t).
Proof.
  unfold list_remove. induction 1 as [|x l Hx Hl IH]; simpl.
  - constructor.
  - destruct (Nat.eq_dec t x); [assumption|].
    constructor; [|assumption].
    intros Hin. apply in_remove in Hin. tauto.
Qed.

Lemma arm_timer_list li :
  timer_list (libinput_timer_arm_timer_fd li) = timer_list li.
Proof. reflexivity. Qed.

Lemma arm_timer_expire li :
  timer_expire (libinput_timer_arm_timer_fd li) = timer_expire li.
Proof. reflexivity. Qed.

Lemma set_flags_runs li t e f :
  e <> 0 -> exists li', libinput_timer_set_flags li t e f = Some li'.
Proof.
  intros He. unfold libinput_timer_set_flags, usec_ne, usec_as_uint64_t.
  destruct (Z.eqb_spec e 0); [contradiction|]. simpl. eauto.
Qed.

Lemma set_flags_Some li t e f li' :
  libinput_timer_set_flags li t e f = Some li' ->
  e <> 0 /\
  timer_list li' =
    (if timer_expire li t =? 0 then t :: timer_list li else timer_list li) /\
  timer_expire li' = set_expire (timer_expire li) t e.
Proof.
  unfold libinput_timer_set_flags, usec_ne, usec_as_uint64_t.
  destruct (Z.eqb_spec e 0); simpl; [discriminate|].
  intros H. injection H as <-.
  rewrite arm_timer_list, arm_timer_expire. simpl.
  rewrite usec_is_zero_eqb. unfold list_insert.
  repeat split; try assumption;
    try (destruct (timer_expire li t =? 0); reflexivity).
Qed.

Lemma cancel_timer_list li t :
  timer_list (libinput_timer_cancel li t) =
    if timer_expire li t =? 0 then timer_list li
    else list_remove (timer_list li) t.
Proof.
  unfold libinput_timer_cancel. rewrite usec_is_zero_eqb.
  destruct (timer_expire li t =? 0); reflexivity.
Qed.

Lemma cancel_timer_expire li t t' :
  timer_expire (libinput_timer_cancel li t) t' =
    if Nat.eqb t' t then 0 else timer_expire li t'.
Proof.
  unfold libinput_timer_cancel. rewrite usec_is_zero_eqb.
  destruct (Z.eqb_spec (timer_expire li t) 0) as [Hz|Hz].
  - destruct (Nat.eqb_spec t' t); [now subst | reflexivity].
  - rewrite arm_timer_expire. reflexivity.
Qed.

Lemma set_flags_inv li t e f li' :
  timer_inv li -> libinput_timer_set_flags li t e f = Some li' -> timer_inv li'.
Proof.
  intros [Hnd Hin] H. apply set_flags_Some in H. destruct H as (He & Hl & Hx).
  unfold timer_inv. rewrite Hl, Hx.
  destruct (Z.eqb_spec (timer_expire li t) 0) as [Hz|Hz].
  - split.
    + constructor; [|assumption]. rewrite Hin. tauto.
    + intros t'. simpl. destruct (Nat.eq_dec t' t) as [->|Hne].
      * rewrite set_expire_same. tauto.
      * rewrite set_expire_other by assumption. rewrite <- Hin.
        split; [intros [Heq|]; [congruence | assumption] | tauto].
  - split; [assumption|].
    intros t'. destruct (Nat.eq_dec t' t) as [->|Hne].
    + rewrite set_expire_same, Hin. tauto.
    + rewrite set_expire_other by assumption. apply Hin.
Qed.

Lemma cancel_inv li t : timer_inv li -> timer_inv (libinput_timer_cancel li t).
Proof.
  intros [Hnd Hin]. unfold timer_inv. rewrite cancel_timer_list.
  destruct (Z.eqb_spec (timer_expire li t) 0) as [Hz|Hz].
  - split; [assumption|]. intros t'. rewrite cancel_timer_expire.
    destruct (Nat.eqb_spec t' t) as [->|Hne]; [|apply Hin].
    rewrite Hin. tauto.
  - split; [now apply NoDup_list_remove|].
    intros t'. rewrite cancel_timer_expire. unfold list_remove.
    destruct (Nat.eqb_spec t' t) as [->|Hne].
    + split; [intros H; now apply remove_In in H | tauto].
    + rewrite <- Hin. split.
      * intros H. now apply in_remove in H.
      * intros H. now apply in_in_remove.
Qed.

Lemma cancel_unlinks li t :
  timer_inv li ->
  ~ In t (timer_list (libinput_timer_cancel li t)) /\
  timer_expire (libinput_timer_cancel li t) t = 0.
Proof.
  intros Hinv. pose proof (cancel_inv li t Hinv) as [_ Hin'].
  assert (Hz : timer_expire (libinput_timer_cancel li t) t = 0).
  { rewrite cancel_timer_expire. now rewrite Nat.eqb_refl. }
  split; [|assumption]. rewrite Hin'. tauto.
Qed.

Lemma run_op_inv li op li' :
  timer_inv li -> run_op li op = Some li' -> timer_inv li'.
Proof.
  destruct op as [t e f|t]; simpl; intros Hinv H.
  - eapply set_flags_inv; eassumption.
  - injection H as <-. now apply cancel_inv.
Qed.

Lemma run_ops_inv ops : forall li li',
  timer_inv li -> run_ops li ops = Some li' -> timer_inv li'.
Proof.
  induction ops as [|op ops IH]; simpl; intros li li' Hinv H.
  - now injection H as <-.
  - destruct (run_op li op) as [li1|] eqn:Hop; [|discriminate].
    eapply IH; [|eassumption]. eapply run_op_inv; eassumption.
Qed.

(** The handler, one scan at a time. *)
Lemma handler_unfold {ctx} (timer_func : timer_func_t ctx) fuel li c now :
  libinput_timer_handler timer_func (S fuel) li c now =
  match first_expired (timer_expire li) now (timer_list li) with
  | None => Returned (li, c, [])
  | Some timer =>
      let li1 := libinput_timer_cancel li timer in
      match timer_func timer now c with
      | None => Aborted
      | Some (c', ops) =>
          match run_ops li1 ops with
          | None => Aborted
          | Some li2 =>
              match libinput_timer_handler timer_func fuel li2 c' now with
              | Returned (li3, c3, calls) =>
                  Returned (li3, c3,
                            {| call_timer := timer;
                               call_now := now;
                               call_due_expire := timer_expire li timer;
                               call_expire := timer_expire li1 timer;
                               call_linked :=
                                 existsb (Nat.eqb timer) (timer_list li1) |}
                            :: calls)
              | Aborted => Aborted
              | OutOfFuel => OutOfFuel
              end
          end
      end
  end.
Proof. reflexivity. Qed.

(** Inversion of a scan that fired a timer and returned. *)
Lemma handler_fired {ctx} (timer_func : timer_func_t ctx) fuel li c now t r :
  first_expired (timer_expire li) now (timer_list li) = Some t ->
  libinput_timer_handler timer_func (S fuel) li c now = Returned r ->
  exists c' ops li2 li3 c3 calls,
    timer_func t now c = Some (c', ops) /\
    run_ops (libinput_timer_cancel li t) ops = Some li2 /\
    libinput_timer_handler timer_func fuel li2 c' now = Returned (li3, c3, calls) /\
    r = (li3, c3,
         {| call_timer := t;
            call_now := now;
            call_due_expire := timer_expire li t;
            call_expire := timer_expire (libinput_timer_cancel li t) t;
            call_linked :=
              existsb (Nat.eqb t) (timer_list (libinput_timer_cancel li t)) |}
         :: calls).
Proof.
  intros Hf. rewrite handler_unfold, Hf. cbv zeta.
  destruct (timer_func t now c) as [[c' ops]|] eqn:Hcb; [|discriminate].
  destruct (run_ops (libinput_timer_cancel li t) ops) as [li2|] eqn:Hops;
    [|discriminate].
  destruct (libinput_timer_handler timer_func fuel li2 c' now)
    as [[[li3 c3] calls]| |] eqn:Hrec; try discriminate.
  intros H. injection H as <-.
  exists c', ops, li2, li3, c3, calls. repeat split; assumption.
Qed.

Lemma handler_inv {ctx} (timer_func : timer_func_t ctx) fuel :
  forall li c now li' c' calls,
    timer_inv li ->
    libinput_timer_handler timer_func fuel li c now = Returned (li', c', calls) ->
    timer_inv li'.
Proof.
  induction fuel as [|fuel IH]; intros li c now li' c' calls Hinv H.
  - discriminate.
  - destruct (first_expired (timer_expire li) now (timer_list li)) as [t|] eqn:Hf.
    + destruct (handler_fired _ _ _ _ _ _ _ Hf H)
        as (c1 & ops & li2 & li3 & c3 & calls' & _ & Hops & Hrec & Heq).
      injection Heq as -> -> ->.
      eapply IH; [|eassumption].
      eapply run_ops_inv; [|eassumption]. now apply cancel_inv.
    + rewrite handler_unfold, Hf in H. now injection H as <- <- <-.
Qed.

Lemma flush_inv {ctx} (timer_func : timer_func_t ctx) fuel li c now li' c' calls :
  timer_inv li ->
  libinput_timer_flush timer_func fuel li c now = Returned (li', c', calls) ->
  timer_inv li'.
Proof.
  intros Hinv. unfold libinput_timer_flush.
  destruct (usec_is_zero (next_expiry li) || (usec_cmp (next_expiry li) now >? 0)).
  - intros H. now injection H as <- <- <-.
  - now apply handler_inv.
Qed.

Lemma dispatch_inv {ctx} (timer_func : timer_func_t ctx) fuel li c clock li' c' calls :
  timer_inv li ->
  libinput_timer_dispatch timer_func fuel li c clock = Returned (li', c', calls) ->
  timer_inv li'.
Proof.
  intros Hinv. unfold libinput_timer_dispatch.
  destruct (usec_is_zero clock).
  - intros H. now injection H as <- <- <-.
  - now apply handler_inv.
Qed.

(** C3: a timer is linked into the active list iff its expiry is non-zero,
    and this holds again after every set, set-with-flags, cancel, dispatch
    and flush.  Setting an expiry (which must be non-zero) on an inactive
    timer links it once; on an active timer it only replaces the expiry and
    leaves the list as it is; cancelling unlinks the timer and zeroes its
    expiry. *)
Theorem timer_membership_invariant {ctx : Type} (timer_func : timer_func_t ctx)
  (li : libinput) :
  timer_inv li ->
  (forall t e f, e <> 0 ->
     exists li', libinput_timer_set_flags li t e f = Some li' /\
       timer_inv li' /\ timer_expire li' t = e /\
       count_occ Nat.eq_dec (timer_list li') t = 1%nat /\
       (timer_expire li t = 0 -> timer_list li' = t :: timer_list li) /\
       (timer_expire li t <> 0 -> timer_list li' = timer_list li)) /\
  (forall t e, e <> 0 ->
     exists li', libinput_timer_set li t e = Some li' /\
       timer_inv li' /\ timer_expire li' t = e /\
       count_occ Nat.eq_dec (timer_list li') t = 1%nat /\
       (timer_expire li t = 0 -> timer_list li' = t :: timer_list li) /\
       (timer_expire li t <> 0 -> timer_list li' = timer_list li)) /\
  (forall t,
     timer_inv (libinput_timer_cancel li t) /\
     ~ In t (timer_list (libinput_timer_cancel li t)) /\
     timer_expire (libinput_timer_cancel li t) t = 0) /\
  (forall fuel c now li' c' calls,
     (libinput_timer_handler timer_func fuel li c now = Returned (li', c', calls) \/
      libinput_timer_dispatch timer_func fuel li c now = Returned (li', c', calls) \/
      libinput_timer_flush timer_func fuel li c now = Returned (li', c', calls)) ->
     timer_inv li').
Proof.
  intros Hinv.
  assert (Hflags : forall t e f, e <> 0 ->
            exists li', libinput_timer_set_flags li t e f = Some li' /\
              timer_inv li' /\ timer_expire li' t = e /\
              count_occ Nat.eq_dec (timer_list li') t = 1%nat /\
              (timer_expire li t = 0 -> timer_list li' = t :: timer_list li) /\
              (timer_expire li t <> 0 -> timer_list li' = timer_list li)).
  { intros t e f He.
    destruct (set_flags_runs li t e f He) as [li' Hset].
    pose proof (set_flags_inv _ _ _ _ _ Hinv Hset) as Hinv'.
    destruct (set_flags_Some _ _ _ _ _ Hset) as (_ & Hl & Hx).
    exists li'. split; [assumption|]. split; [assumption|].
    split; [rewrite Hx; apply set_expire_same|].
    split.
    + destruct Hinv' as [Hnd Hin]. apply NoDup_count_occ'; [assumption|].
      apply Hin. rewrite Hx, set_expire_same. assumption.
    + split; intros Hz; rewrite Hl.
      * rewrite Hz. reflexivity.
      * destruct (Z.eqb_spec (timer_expire li t) 0); [contradiction | reflexivity]. }
  split; [|split; [|split]].
  - exact Hflags.
  - intros t e He. unfold libinput_timer_set. now apply Hflags.
  - intros t. split; [now apply cancel_inv | now apply cancel_unlinks].
  - intros fuel c now li' c' calls [H | [H | H]].
    + eapply handler_inv; eassumption.
    + eapply dispatch_inv; eassumption.
    + eapply flush_inv; eassumption.
Qed.

Lemma init_timer_inv : timer_inv libinput_timer_subsys_init.
Proof.
  split; simpl.
  - constructor.
  - intros t. split; [intros [] | intros H; now elim H].
Qed.

Lemma timer_membership_invariant_witness :
  timer_inv libinput_timer_subsys_init /\
  exists li',
    libinput_timer_set libinput_timer_subsys_init 1%nat 100 = Some li' /\
    timer_inv li' /\ timer_expire li' 1%nat = 100 /\
    timer_list li' = [1%nat].
Proof.
  split; [exact init_timer_inv|].
  destruct (timer_membership_invariant (ctx := unit) (fun _ _ c => Some (c, []))
              libinput_timer_subsys_init init_timer_inv) as (_ & Hset & _).
  destruct (Hset 1%nat 100) as (li' & Hs & Hi & He & _ & Hl & _); [lia|].
  exists li'. split; [exact Hs|]. split; [exact Hi|]. split; [exact He|].
  apply Hl. reflexivity.
Defined.

(** ** The timerfd follows the smallest expiry *)

Lemma arm_scan (expire : timer_id -> usec_t) (l : list timer_id) : forall acc,
  fold_left
    (fun earliest timer =>
       if usec_cmp (expire timer) earliest <? 0 then expire timer else earliest)
    l acc =
  match min_expire expire l with
  | None => acc
  | Some m => Z.min acc m
  end.
Proof.
  induction l as [|t l IH]; intros acc; simpl; [reflexivity|].
  rewrite IH, usec_cmp_ltb.
  destruct (min_expire expire l) as [m|];
    destruct (Z.ltb_spec (expire t) acc); lia.
Qed.

Lemma min_expire_None expire l : min_expire expire l = None <-> l = [].
Proof.
  destruct l as [|t l]; simpl; [tauto|].
  destruct (min_expire expire l); split; discriminate.
Qed.

Lemma min_expire_In expire l m :
  min_expire expire l = Some m -> exists t, In t l /\ expire t = m.
Proof.
  revert m. induction l as [|t l IH]; simpl; intros m H; [discriminate|].
  destruct (min_expire expire l) as [m'|].
  - injection H as <-. destruct (Z.min_spec (expire t) m') as [[_ ->]|[_ ->]].
    + exists t. tauto.
    + destruct (IH m' eq_refl) as (t' & Hin & He). exists t'. tauto.
  - injection H as <-. exists t. tauto.
Qed.

Lemma min_expire_le expire l m t :
  min_expire expire l = Some m -> In t l -> m <= expire t.
Proof.
  revert m. induction l as [|x l IH]; simpl; intros m H Hin; [contradiction|].
  destruct (min_expire expire l) as [m'|] eqn:Hm.
  - injection H as <-. destruct Hin as [->|Hin]; [lia|].
    specialize (IH m' eq_refl Hin). lia.
  - injection H as <-. destruct Hin as [->|Hin]; [lia|].
    apply min_expire_None in Hm. subst. contradiction.
Qed.

Lemma one_sec_us : usec_as_uint64_t (usec_from_millis 1000) = 1000000.
Proof. reflexivity. Qed.

Lemma timespec_of_usec_roundtrip (m : usec_t) :
  is_u64 m -> usec_from_timespec (usec_to_timespec m) = m.
Proof.
  intros Hm. unfold usec_from_timespec, usec_to_timespec. cbv zeta.
  rewrite one_sec_us. unfold usec_as_uint64_t. simpl tv_sec. simpl tv_nsec.
  rewrite Z.quot_mul by lia. unfold usec_from_uint64_t.
  pose proof (Z.div_mod m 1000000).
  rewrite to_u64_small; unfold is_u64, UINT64_MOD in *; lia.
Qed.

Lemma timespec_of_usec_nonzero (m : usec_t) :
  0 < m -> timespec_eqb (usec_to_timespec m) timespec_zero = false.
Proof.
  intros Hm. unfold timespec_eqb, usec_to_timespec. cbv zeta.
  rewrite one_sec_us. unfold usec_as_uint64_t. simpl.
  pose proof (Z.div_mod m 1000000). pose proof (Z.mod_pos_bound m 1000000).
  assert (0 <= m / 1000000) by (apply Z.div_pos; lia).
  destruct (Z.eqb_spec (m / 1000000) 0); simpl; [|reflexivity].
  destruct (Z.eqb_spec (m mod 1000000 * 1000) 0); [lia | reflexivity].
Qed.

(** What [libinput_timer_arm_timer_fd] leaves behind. *)
Lemma arm_armed_to_min li :
  expiries_valid li ->
  timerfd_deadline (libinput_timer_arm_timer_fd li)
    = min_expire (timer_expire li) (timer_list li) /\
  next_expiry (libinput_timer_arm_timer_fd li)
    = match min_expire (timer_expire li) (timer_list li) with
      | Some m => m
      | None => UINT64_MAX
      end.
Proof.
  intros Hv. unfold libinput_timer_arm_timer_fd, timerfd_deadline. cbv zeta.
  simpl timer_fd. simpl next_expiry. rewrite arm_scan.
  change (usec_from_uint64_t UINT64_MAX) with UINT64_MAX.
  destruct (min_expire (timer_expire li) (timer_list li)) as [m|] eqn:Hm.
  - destruct (min_expire_In _ _ _ Hm) as (t & Hin & He).
    specialize (Hv t Hin). rewrite He in Hv.
    replace (Z.min UINT64_MAX m) with m by lia.
    unfold usec_ne, usec_as_uint64_t.
    destruct (Z.eqb_spec m UINT64_MAX); [lia|]. simpl.
    rewrite timespec_of_usec_nonzero by lia.
    rewrite timespec_of_usec_roundtrip; [tauto|].
    unfold is_u64, UINT64_MOD, UINT64_MAX in *. lia.
  - split; reflexivity.
Qed.

Lemma arm_timerfd_inv li :
  expiries_valid li -> timerfd_inv (libinput_timer_arm_timer_fd li).
Proof.
  intros Hv. destruct (arm_armed_to_min li Hv) as [Hd Hn].
  split; [exact Hv|]. split; [exact Hd|].
  rewrite arm_timer_list, arm_timer_expire, Hn.
  destruct (min_expire (timer_expire li) (timer_list li)); tauto.
Qed.

Lemma set_flags_timerfd_inv li t e f li' :
  timerfd_inv li -> is_u64 e -> e <> UINT64_MAX ->
  libinput_timer_set_flags li t e f = Some li' -> timerfd_inv li'.
Proof.
  intros [Hv _] He Hmax. unfold libinput_timer_set_flags, usec_ne, usec_as_uint64_t.
  destruct (Z.eqb_spec e 0) as [|Hz]; simpl; [discriminate|].
  intros H. injection H as <-. apply arm_timerfd_inv.
  intros t' Hin. simpl in *. 
  destruct (Nat.eq_dec t' t) as [->|Hne].
  - rewrite set_expire_same. unfold is_u64, UINT64_MOD, UINT64_MAX in *. lia.
  - rewrite set_expire_other by assumption. apply Hv.
    rewrite usec_is_zero_eqb in Hin. unfold list_insert in Hin.
    destruct (timer_expire li t =? 0); [|assumption].
    destruct Hin as [Heq|Hin]; [congruence | assumption].
Qed.

Lemma cancel_timerfd_inv li t :
  timerfd_inv li -> timerfd_inv (libinput_timer_cancel li t).
Proof.
  intros Hinv. unfold libinput_timer_cancel.
  destruct (usec_is_zero (timer_expire li t)); [assumption|].
  destruct Hinv as [Hv _]. apply arm_timerfd_inv.
  intros t' Hin. simpl in *. unfold list_remove in Hin.
  apply in_remove in Hin. destruct Hin as [Hin Hne].
  rewrite set_expire_other by assumption. now apply Hv.
Qed.

Lemma run_ops_timerfd_inv ops : forall li li',
  timerfd_inv li -> Forall op_expiry_valid ops ->
  run_ops li ops = Some li' -> timerfd_inv li'.
Proof.
  induction ops as [|op ops IH]; simpl; intros li li' Hinv Hops H.
  - now injection H as <-.
  - inversion Hops as [|? ? Hop Hrest]; subst.
    destruct (run_op li op) as [li1|] eqn:Hrun; [|discriminate].
    apply (IH li1); try assumption.
    destruct op as [t e f|t]; simpl in *.
    + destruct Hop. eapply set_flags_timerfd_inv; eassumption.
    + injection Hrun as <-. now apply cancel_timerfd_inv.
Qed.

Lemma init_timerfd_inv : timerfd_inv libinput_timer_subsys_init.
Proof.
  split.
  - intros t [].
  - split; [reflexivity | simpl; tauto].
Qed.

Lemma run_ops_runs ops : forall li,
  Forall (fun op => match op with TimerSet _ e _ => e <> 0 | TimerCancel _ => True end) ops ->
  exists li', run_ops li ops = Some li'.
Proof.
  induction ops as [|op ops IH]; simpl; intros li H; [eauto|].
  inversion H as [|? ? Hop Hrest]; subst.
  destruct op as [t e f|t]; simpl.
  - destruct (set_flags_runs li t e f Hop) as [li1 ->]. now apply IH.
  - now apply IH.
Qed.

(** C2 (as amended): after every sequence of set and cancel operations whose
    expiries are below [UINT64_MAX], on a state where this held before (the
    freshly initialised subsystem is one), the timerfd is programmed with
    exactly the smallest expiry of the linked timers, it is disarmed iff no
    timer is linked, and the cached next expiry is that minimum, or
    [UINT64_MAX] (zero before the first arming) when no timer is linked. *)
Theorem timerfd_armed_to_minimum (ops : list timer_op) (li li' : libinput) :
  timerfd_inv li ->
  Forall op_expiry_valid ops ->
  run_ops li ops = Some li' ->
  timerfd_deadline li' = min_expire (timer_expire li') (timer_list li') /\
  (timerfd_deadline li' = None <-> timer_list li' = []) /\
  match min_expire (timer_expire li') (timer_list li') with
  | Some m => next_expiry li' = m
  | None => next_expiry li' = UINT64_MAX \/ next_expiry li' = 0
  end.
Proof.
  intros Hinv Hops Hrun.
  destruct (run_ops_timerfd_inv ops li li' Hinv Hops Hrun) as [_ [Hd Hn]].
  split; [exact Hd|]. split; [|exact Hn].
  rewrite Hd. apply min_expire_None.
Qed.

Lemma timerfd_armed_to_minimum_witness :
  let ops := [TimerSet 1%nat 300 0; TimerSet 2%nat 200 0; TimerSet 3%nat 250 0;
              TimerCancel 2%nat] in
  let li' := option_or libinput_timer_subsys_init
               (run_ops libinput_timer_subsys_init ops) in
  timerfd_inv libinput_timer_subsys_init /\
  Forall op_expiry_valid ops /\
  run_ops libinput_timer_subsys_init ops = Some li' /\
  timerfd_deadline li' = Some 250 /\
  next_expiry li' = 250.
Proof.
  intros ops li'.
  assert (Hops : Forall op_expiry_valid ops).
  { repeat constructor; unfold is_u64, UINT64_MOD, UINT64_MAX; simpl; lia. }
  assert (Hrun : run_ops libinput_timer_subsys_init ops = Some li')
    by (vm_compute; reflexivity).
  destruct (timerfd_armed_to_minimum ops _ li' init_timerfd_inv Hops Hrun)
    as (Hd & _ & Hn).
  split; [exact init_timerfd_inv|]. split; [exact Hops|]. split; [exact Hrun|].
  split; [rewrite Hd; vm_compute; reflexivity | exact Hn].
Defined.

(** C2 as stated fails at the largest expiry: a timer set to [UINT64_MAX] is
    linked, yet the search for the earliest expiry ends on its initial value
    and the timerfd is disarmed. *)
Lemma timerfd_armed_to_minimum_counterexample :
  ~ (forall ops li',
       Forall op_expiry_u64 ops ->
       run_ops libinput_timer_subsys_init ops = Some li' ->
       timerfd_deadline li' = min_expire (timer_expire li') (timer_list li') /\
       (timerfd_deadline li' = None <-> timer_list li' = [])).
Proof.
  intros H.
  pose (ops := [TimerSet 1%nat UINT64_MAX 0]).
  pose (li' := option_or libinput_timer_subsys_init
                 (run_ops libinput_timer_subsys_init ops)).
  assert (Hops : Forall op_expiry_u64 ops).
  { repeat constructor; unfold UINT64_MAX, is_u64, UINT64_MOD; simpl; lia. }
  destruct (H ops li' Hops eq_refl) as [_ [Hnone _]].
  specialize (Hnone eq_refl). discriminate Hnone.
Qed.

(** ** Dispatch *)

Lemma first_expired_Some expire now l t :
  first_expired expire now l = Some t ->
  In t l /\ expire t <> 0 /\ expire t <= now.
Proof.
  induction l as [|x l IH]; simpl; [discriminate|].
  rewrite usec_is_zero_eqb, usec_cmp_leb.
  destruct (Z.eqb_spec (expire x) 0) as [Hz|Hz].
  - intros H. destruct (IH H) as (? & ? & ?). tauto.
  - destruct (Z.leb_spec (expire x) now) as [Hle|Hgt].
    + intros H. injection H as <-. tauto.
    + intros H. destruct (IH H) as (? & ? & ?). tauto.
Qed.

Lemma first_expired_None expire now l :
  first_expired expire now l = None ->
  forall t, In t l -> expire t = 0 \/ now < expire t.
Proof.
  induction l as [|x l IH]; simpl; [intros _ t []|].
  rewrite usec_is_zero_eqb, usec_cmp_leb.
  destruct (Z.eqb_spec (expire x) 0) as [Hz|Hz].
  - intros H t [<-|Hin]; [tauto | now apply IH].
  - destruct (Z.leb_spec (expire x) now) as [Hle|Hgt]; [discriminate|].
    intros H t [<-|Hin]; [tauto | now apply IH].
Qed.

Lemma first_expired_head expire now t l :
  expire t <> 0 -> expire t <= now -> first_expired expire now (t :: l) = Some t.
Proof.
  intros Hz Hle. simpl. rewrite usec_is_zero_eqb, usec_cmp_leb.
  destruct (Z.eqb_spec (expire t) 0); [contradiction|].
  destruct (Z.leb_spec (expire t) now); [reflexivity | lia].
Qed.

Lemma is_due_true li now t :
  is_due li now t = true <->
  In t (timer_list li) /\ timer_expire li t <> 0 /\ timer_expire li t <= now.
Proof.
  unfold is_due. rewrite !andb_true_iff, negb_true_iff, existsb_eqb_In.
  rewrite Z.eqb_neq, Z.leb_le. tauto.
Qed.



Lemma first_expired_due li now t :
  first_expired (timer_expire li) now (timer_list li) = Some t ->
  is_due li now t = true.
Proof. intros H. apply is_due_true. now apply first_expired_Some. Qed.

Lemma first_expired_none_due li now :
  first_expired (timer_expire li) now (timer_list li) = None ->
  forall t, is_due li now t = false.
Proof.
  intros H t. apply not_true_is_false. rewrite is_due_true.
  intros (Hin & Hz & Hle).
  destruct (first_expired_None _ _ _ H t Hin); lia.
Qed.

(** A timer an operation does not name keeps its expiry and its place. *)
Lemma run_op_other li op li' t :
  op_target op <> t -> run_op li op = Some li' ->
  timer_expire li' t = timer_expire li t /\
  (In t (timer_list li') <-> In t (timer_list li)).
Proof.
  destruct op as [t' e f|t']; simpl; intros Hne H.
  - apply set_flags_Some in H. destruct H as (_ & Hl & Hx).
    rewrite Hl, Hx. split; [apply set_expire_other; congruence|].
    destruct (timer_expire li t' =? 0); [|tauto].
    simpl. split; [intros [Heq|]; [contradiction | assumption] | tauto].
  - injection H as <-. rewrite cancel_timer_expire, cancel_timer_list.
    destruct (Nat.eqb_spec t t'); [congruence|]. split; [reflexivity|].
    destruct (timer_expire li t' =? 0); [tauto|]. unfold list_remove. split.
    + intros Hin. now apply in_remove in Hin.
    + intros Hin. apply in_in_remove; [congruence | assumption].
Qed.






Section Dispatch.

Context {ctx : Type} (timer_func : timer_func_t ctx) (now : usec_t).


Lemma handler_none_due fuel : forall li c li' c' calls,
  libinput_timer_handler timer_func fuel li c now = Returned (li', c', calls) ->
  forall t, is_due li' now t = false.
Proof.
  induction fuel as [|fuel IH]; intros li c li' c' calls H; [discriminate|].
  destruct (first_expired (timer_expire li) now (timer_list li)) as [t|] eqn:Hf.
  - destruct (handler_fired _ _ _ _ _ _ _ Hf H)
      as (c1 & ops & li2 & li3 & c3 & rest & _ & _ & Hrec & Heq).
    injection Heq as -> -> ->. eapply IH; eassumption.
  - rewrite handler_unfold, Hf in H. injection H as <- <- <-.
    now apply first_expired_none_due.
Qed.





Lemma run_ops_only_cancels ops : forall li,
  Forall (fun op => op_is_set op = false) ops ->
  exists li', run_ops li ops = Some li' /\
    (length (timer_list li') <= length (timer_list li))%nat.
Proof.
  induction ops as [|op ops IH]; simpl; intros li H; [eauto|].
  inversion H as [|? ? Hop Hrest]; subst.
  destruct op as [t e f|t]; simpl in *; [discriminate|].
  destruct (IH (libinput_timer_cancel li t) Hrest) as (li' & Hrun & Hlen).
  exists li'. split; [assumption|].
  rewrite cancel_timer_list in Hlen.
  destruct (timer_expire li t =? 0); [assumption|].
  unfold list_remove in Hlen.
  pose proof (remove_length_le Nat.eq_dec (timer_list li) t).
  unfold timer_id in *. lia.
Qed.

(** When callbacks set no timer, every scan that fires shortens the list:
    the handler returns after at most one scan per linked timer, and one
    more that finds nothing. *)
Lemma handler_returns (Hq : sets_no_timer timer_func) n : forall li c,
  (length (timer_list li) <= n)%nat ->
  exists r, libinput_timer_handler timer_func (S n) li c now = Returned r.
Proof.
  induction n as [|n IH]; intros li c Hlen; rewrite handler_unfold.
  - destruct (timer_list li); [simpl; eauto | simpl in Hlen; lia].
  - destruct (first_expired (timer_expire li) now (timer_list li)) as [t|] eqn:Hf;
      [|eauto].
    destruct (first_expired_Some _ _ _ _ Hf) as (Hin & Hz & _).
    cbv zeta. destruct (Hq t now c) as (c1 & ops & -> & Hops).
    destruct (run_ops_only_cancels ops (libinput_timer_cancel li t) Hops)
      as (li2 & -> & Hle).
    rewrite cancel_timer_list in Hle.
    destruct (Z.eqb_spec (timer_expire li t) 0); [contradiction|].
    unfold list_remove in Hle.
    pose proof (remove_length_lt Nat.eq_dec (timer_list li) t Hin).
    destruct (IH li2 c1) as [[[li3 c3] calls] ->]; [unfold timer_id in *; lia|].
    eauto.
Qed.

End Dispatch.





(** ** Flush *)

Lemma first_expired_nothing expire now l :
  (forall t, In t l -> expire t = 0 \/ now < expire t) ->
  first_expired expire now l = None.
Proof.
  induction l as [|x l IH]; simpl; intros H; [reflexivity|].
  rewrite usec_is_zero_eqb, usec_cmp_leb.
  assert (Hl : first_expired expire now l = None) by (apply IH; intros; apply H; tauto).
  destruct (Z.eqb_spec (expire x) 0); [assumption|].
  destruct (Z.leb_spec (expire x) now); [|assumption].
  destruct (H x); [now left | contradiction | lia].
Qed.

(** With an accurate cache, the early exit of [flush] skips a scan that
    would have found nothing. *)
Lemma flush_guard_sound li now :
  timerfd_inv li ->
  now < next_expiry li \/ next_expiry li = 0 ->
  first_expired (timer_expire li) now (timer_list li) = None.
Proof.
  intros [Hv [_ Hn]] Hg. apply first_expired_nothing. intros t Hin.
  destruct (min_expire (timer_expire li) (timer_list li)) as [m|] eqn:Hm.
  - pose proof (min_expire_le _ _ _ _ Hm Hin).
    destruct (min_expire_In _ _ _ Hm) as (t' & Hin' & He).
    pose proof (Hv t' Hin'). right. lia.
  - apply min_expire_None in Hm. rewrite Hm in Hin. contradiction.
Qed.

(** C4: [flush(now)] invokes no callback and changes nothing when [now] is
    strictly before the cached next expiry or the cache holds the zero that
    stands for "no timer"; otherwise it is the dispatch handler run at
    [now].  It is, case by case, what the specification words; when the
    cache is accurate the skipped dispatch would have done nothing either;
    and with no timer linked, whatever the cache holds, nothing happens. *)
Theorem flush_guarded_dispatch {ctx : Type} (timer_func : timer_func_t ctx)
  (fuel : nat) (li : libinput) (c : ctx) (now : usec_t) :
  (now < next_expiry li \/ next_expiry li = 0 ->
   libinput_timer_flush timer_func fuel li c now = Returned (li, c, [])) /\
  (next_expiry li <> 0 -> next_expiry li <= now ->
   libinput_timer_flush timer_func fuel li c now
     = libinput_timer_handler timer_func fuel li c now) /\
  libinput_timer_flush timer_func fuel li c now
    = flush_spec timer_func fuel li c now /\
  (timerfd_inv li -> now < next_expiry li \/ next_expiry li = 0 ->
   libinput_timer_handler timer_func (S fuel) li c now = Returned (li, c, [])) /\
  (timer_list li = [] ->
   libinput_timer_flush timer_func (S fuel) li c now = Returned (li, c, [])).
Proof.
  split; [|split; [|split; [|split]]].
  - intros Hg. unfold libinput_timer_flush.
    rewrite usec_is_zero_eqb, usec_cmp_gtb.
    destruct Hg as [Hlt|Hz].
    + apply Z.ltb_lt in Hlt. rewrite Hlt, orb_true_r. reflexivity.
    + rewrite Hz. reflexivity.
  - intros Hz Hle. unfold libinput_timer_flush.
    rewrite usec_is_zero_eqb, usec_cmp_gtb.
    destruct (Z.eqb_spec (next_expiry li) 0); [contradiction|].
    destruct (Z.ltb_spec now (next_expiry li)); [lia | reflexivity].
  - unfold libinput_timer_flush, flush_spec.
    rewrite usec_is_zero_eqb, usec_cmp_gtb, orb_comm. reflexivity.
  - intros Hinv Hg.
    rewrite handler_unfold, (flush_guard_sound li now Hinv Hg). reflexivity.
  - intros Hnil. unfold libinput_timer_flush.
    destruct (usec_is_zero (next_expiry li) || (usec_cmp (next_expiry li) now >? 0));
      [reflexivity|].
    rewrite handler_unfold, Hnil. reflexivity.
Qed.

Lemma flush_guarded_dispatch_witness :
  next_expiry sample_timers = 5 /\
  timerfd_inv sample_timers /\
  libinput_timer_flush sample_timer_func 10 sample_timers 0%nat 3
    = Returned (sample_timers, 0%nat, []) /\
  libinput_timer_handler sample_timer_func 10 sample_timers 0%nat 3
    = Returned (sample_timers, 0%nat, []) /\
  libinput_timer_flush sample_timer_func 10 sample_timers 0%nat 10
    = libinput_timer_handler sample_timer_func 10 sample_timers 0%nat 10.
Proof.
  assert (Hinv : timerfd_inv sample_timers).
  { apply (run_ops_timerfd_inv
             [TimerSet 4%nat 20 0; TimerSet 3%nat 6 0; TimerSet 2%nat 7 0;
              TimerSet 1%nat 5 0] libinput_timer_subsys_init);
      [exact init_timerfd_inv | | reflexivity].
    repeat constructor; unfold is_u64, UINT64_MOD, UINT64_MAX; simpl; lia. }
  assert (Hn : next_expiry sample_timers = 5) by reflexivity.
  destruct (flush_guarded_dispatch sample_timer_func 10 sample_timers 0%nat 3)
    as (Hnoop & _).
  destruct (flush_guarded_dispatch sample_timer_func 9 sample_timers 0%nat 3)
    as (_ & _ & _ & Hskip & _).
  destruct (flush_guarded_dispatch sample_timer_func 10 sample_timers 0%nat 10)
    as (_ & Hsame & _).
  split; [exact Hn|]. split; [exact Hinv|].
  split; [apply Hnoop; left; rewrite Hn; lia|].
  split; [apply Hskip; [exact Hinv | left; rewrite Hn; lia]|].
  apply Hsame; rewrite Hn; lia.
Defined.

(** ** Edge detection *)

Example sample_threshold :
  evdev_device_mm_to_units_model (sample_device 1 1000) threshold_mm
    = {| dc_x := 50; dc_y := 50 |}.
Proof. vm_compute. reflexivity. Qed.

Lemma has_flag_lor edge a flag :
  has_flag (Z.lor edge a) flag = has_flag edge flag || has_flag a flag.
Proof.
  unfold has_flag. rewrite Z.land_lor_distr_l.
  destruct (Z.eqb_spec (Z.land edge flag) 0) as [H1|H1];
    destruct (Z.eqb_spec (Z.land a flag) 0) as [H2|H2];
    destruct (Z.eqb_spec (Z.lor (Z.land edge flag) (Z.land a flag)) 0) as [H3|H3];
    try reflexivity; exfalso.
  - apply H3. rewrite H1, H2. reflexivity.
  - apply Z.lor_eq_0_iff in H3. tauto.
  - apply Z.lor_eq_0_iff in H3. tauto.
  - apply Z.lor_eq_0_iff in H3. tauto.
Qed.

Lemma has_flag_none flag : has_flag EDGE_NONE flag = false.
Proof. reflexivity. Qed.

Lemma has_flag_self a : a <> 0 -> has_flag a a = true.
Proof.
  intros H. unfold has_flag. rewrite Z.land_diag.
  destruct (Z.eqb_spec a 0); [contradiction | reflexivity].
Qed.

Lemma has_flag_disjoint a b : Z.land a b = 0 -> has_flag a b = false /\ has_flag b a = false.
Proof.
  intros H. unfold has_flag. rewrite (Z.land_comm b a), H. split; reflexivity.
Qed.

Lemma has_flag_if (b : bool) edge a flag :
  has_flag (if b then Z.lor edge a else edge) flag
    = has_flag edge flag || (b && has_flag a flag).
Proof.
  destruct b; [apply has_flag_lor | simpl; now rewrite orb_false_r].
Qed.

(** Each flag of the detected mask is the outcome of its own comparison. *)
Lemma detect_touch_edge_flags (X : externals) (d : tp_dispatch) (t : tp_touch) :
  tp_edge_ok (edges X) ->
  let threshold := evdev_device_mm_to_units X (device d) threshold_mm in
  let edge := detect_touch_edge X d t in
  has_flag edge (EDGE_LEFT (edges X)) = (dc_x (point t) <? dc_x threshold) /\
  has_flag edge (EDGE_RIGHT (edges X))
    = (dc_x (point t)
       >? to_i32 (maximum (absinfo_x (device d)) - dc_x threshold)) /\
  has_flag edge (EDGE_TOP (edges X)) = (dc_y (point t) <? dc_y threshold) /\
  has_flag edge (EDGE_BOTTOM (edges X))
    = (dc_y (point t)
       >? to_i32 (maximum (absinfo_y (device d)) - dc_y threshold)).
Proof.
  intros (Hl & Hr & Ht & Hb & Hlr & Hlt & Hlb & Hrt & Hrb & Htb).
  cbv zeta. unfold detect_touch_edge. fold threshold_mm. cbv zeta.
  destruct (has_flag_disjoint _ _ Hlr) as [Elr Erl].
  destruct (has_flag_disjoint _ _ Hlt) as [Elt Etl].
  destruct (has_flag_disjoint _ _ Hlb) as [Elb Ebl].
  destruct (has_flag_disjoint _ _ Hrt) as [Ert Etr].
  destruct (has_flag_disjoint _ _ Hrb) as [Erb Ebr].
  destruct (has_flag_disjoint _ _ Htb) as [Etb Ebt].
  rewrite !has_flag_if, !has_flag_none, !has_flag_self by assumption.
  rewrite Elr, Erl, Elt, Etl, Elb, Ebl, Ert, Etr, Erb, Ebr, Etb, Ebt.
  rewrite !andb_false_r, !andb_true_r, !orb_false_r. simpl.
  repeat split; reflexivity.
Qed.

Lemma sample_edges_ok : tp_edge_ok sample_edges.
Proof. unfold tp_edge_ok. simpl. repeat split; try lia; reflexivity. Qed.

(** C7: on a touchpad 100 mm wide whose axes run from 1000 to 2000 at 10
    units per millimetre, a touch at (1040, 1500), 4 mm from the left
    boundary and 96 mm from the right one, is detected with [EDGE_LEFT] and
    [EDGE_RIGHT] together.  The converted margin is the coordinate 1050,
    with the axis minimum in it; the test for the left edge takes it as a
    coordinate, the test for the right edge subtracts it from the maximum
    as if it were a width, and compares the touch with 2000 - 1050. *)
Theorem edge_flags_overlap_on_offset_axis :
  let d := offset_tp TAP_STATE_1FGTAP_DRAGGING 1040 1500 in
  let t := {| t_state := TOUCH_OTHER 0;
              point := {| dc_x := 1040; dc_y := 1500 |} |} in
  let edge := detect_touch_edge sample_externals d t in
  evdev_device_mm_to_units sample_externals (device d) threshold_mm
    = {| dc_x := 1050; dc_y := 1050 |} /\
  to_i32 (maximum (absinfo_x (device d)) - 1050) = 950 /\
  edge = Z.lor (Z.lor (EDGE_LEFT sample_edges) (EDGE_RIGHT sample_edges))
           (EDGE_BOTTOM sample_edges) /\
  has_flag edge (EDGE_LEFT sample_edges)
    && has_flag edge (EDGE_RIGHT sample_edges) = true.
Proof.
  cbv zeta. split; [vm_compute; reflexivity|].
  split; [vm_compute; reflexivity|].
  split; vm_compute; reflexivity.
Qed.

(** ** The edge-motion state machine *)

Lemma edge_motion_state_eqb_spec a b :
  reflect (a = b) (edge_motion_state_eqb a b).
Proof. destruct a, b; constructor; congruence. Qed.

Lemma negligible_without_elapsed_time :
  (EDGE_MOTION_CONFIG_SPEED_MM_S * (double_of_int 0 / 1000000.0) <? 0.001)%float
    = true.
Proof. vm_compute. reflexivity. Qed.

Lemma not_negligible_after_interval :
  (EDGE_MOTION_CONFIG_SPEED_MM_S
   * (double_of_int EDGE_MOTION_CONFIG_MIN_INTERVAL_US / 1000000.0) <? 0.001)%float
    = false.
Proof. vm_compute. reflexivity. Qed.

(** Injection right after the baseline was taken: nothing is sent. *)
Lemma inject_without_elapsed_time X mem tpp time g out :
  inject_accumulated_motion X mem tpp time (set_last_motion_time g time) out
    = Some (set_last_motion_time g time, out).
Proof.
  unfold inject_accumulated_motion. simpl last_motion_time.
  destruct (Z.eqb_spec time 0) as [->|Hz]; [reflexivity|].
  cbv zeta. rewrite Z.sub_diag. change (to_u64 0) with 0.
  rewrite negligible_without_elapsed_time. reflexivity.
Qed.

(** Injection one interval later: one notification, on the bound device. *)
Lemma inject_after_interval X mem p now f out :
  last_motion_time f <> 0 ->
  to_u64 (now - last_motion_time f) = EDGE_MOTION_CONFIG_MIN_INTERVAL_US ->
  inject_accumulated_motion X mem (Some p) now f out
    = Some (set_motion_count (set_last_motion_time f now)
              (to_u64 (continuous_motion_count f + 1)),
            out ++ [injected_event X mem p f now EDGE_MOTION_CONFIG_MIN_INTERVAL_US]).
Proof.
  intros Hz He. unfold inject_accumulated_motion.
  destruct (Z.eqb_spec (last_motion_time f) 0); [contradiction|].
  cbv zeta. rewrite He, not_negligible_after_interval. reflexivity.
Qed.

(** Whatever it does, an injection sends at most one notification, computed
    from the bound device, and leaves state, edge and binding alone. *)
Lemma inject_effect X mem tpp now f out f' out' :
  inject_accumulated_motion X mem tpp now f out = Some (f', out') ->
  current_state f' = current_state f /\ tp f' = tp f /\
  current_edge f' = current_edge f /\
  (out' = out /\ continuous_motion_count f' = continuous_motion_count f \/
   exists p, tpp = Some p /\
     out' = out ++ [injected_event X mem p f now (to_u64 (now - last_motion_time f))]).
Proof.
  unfold inject_accumulated_motion.
  destruct (last_motion_time f =? 0).
  - intros H. injection H as <- <-. simpl. tauto.
  - cbv zeta.
    destruct (EDGE_MOTION_CONFIG_SPEED_MM_S
              * (double_of_int (to_u64 (now - last_motion_time f)) / 1000000.0)
              <? 0.001)%float.
    + intros H. injection H as <- <-. tauto.
    + destruct tpp as [p|]; [|discriminate].
      intros H. injection H as <- <-. simpl.
      repeat split. right. exists p. split; reflexivity.
Qed.

Lemma handle_timeout_other_state X mem now f out :
  current_state f <> STATE_EDGE_MOTION ->
  tp_edge_motion_handle_timeout X mem now (f, out) = Some ((f, out), []).
Proof.
  intros H. unfold tp_edge_motion_handle_timeout.
  destruct (edge_motion_state_eqb_spec (current_state f) STATE_EDGE_MOTION);
    [contradiction | reflexivity].
Qed.

Lemma handle_timeout_edge_motion X mem now f out :
  current_state f = STATE_EDGE_MOTION ->
  tp_edge_motion_handle_timeout X mem now (f, out) =
    match inject_accumulated_motion X mem (tp f) now f out with
    | None => None
    | Some c' =>
        Some (c', [TimerSet fsm_timer
                     (to_u64 (now + EDGE_MOTION_CONFIG_MIN_INTERVAL_US))
                     TIMER_FLAG_NONE])
    end.
Proof.
  intros H. unfold tp_edge_motion_handle_timeout. rewrite H. reflexivity.
Qed.

(** The three ways through [tp_edge_motion_handle_drag_state]. *)
Lemma drag_state_leave X mem tpp time w :
  let w0 := bound_world tpp w in
  let next := next_state_of X (mem tpp) in
  next <> current_state (w_fsm w0) -> next <> STATE_EDGE_MOTION ->
  tp_edge_motion_handle_drag_state X mem tpp time w =
    Some ({| w_fsm := set_motion_count
                        (set_state_edge (w_fsm w0) next
                           (detected_edge_of X (mem tpp))) 0;
             w_li := libinput_timer_cancel (w_li w0) fsm_timer;
             w_motion := w_motion w0 |}, false).
Proof.
  cbv zeta. unfold tp_edge_motion_handle_drag_state. fold (bound_world tpp w).
  cbv zeta. intros Hne Hnot.
  destruct (edge_motion_state_eqb_spec (next_state_of X (mem tpp))
              (current_state (w_fsm (bound_world tpp w)))); [contradiction|].
  simpl negb. cbv iota.
  destruct (next_state_of X (mem tpp)); try contradiction; reflexivity.
Qed.

Lemma drag_state_enter X mem tpp time w :
  let w0 := bound_world tpp w in
  current_state (w_fsm w0) <> STATE_EDGE_MOTION ->
  next_state_of X (mem tpp) = STATE_EDGE_MOTION ->
  tp_edge_motion_handle_drag_state X mem tpp time w =
    match libinput_timer_set (w_li w0) fsm_timer
            (to_u64 (time + EDGE_MOTION_CONFIG_MIN_INTERVAL_US)) with
    | Some li' =>
        Some ({| w_fsm := entering_fsm (edges X) (w_fsm w0)
                            (detected_edge_of X (mem tpp)) time;
                 w_li := li';
                 w_motion := w_motion w0 |}, true)
    | None => None
    end.
Proof.
  cbv zeta. unfold tp_edge_motion_handle_drag_state. fold (bound_world tpp w).
  cbv zeta. intros Hne Hnext. rewrite Hnext.
  destruct (edge_motion_state_eqb_spec STATE_EDGE_MOTION
              (current_state (w_fsm (bound_world tpp w)))); [congruence|].
  simpl negb. cbv iota. simpl current_state. cbv iota. simpl current_edge.
  fold (entering_fsm (edges X) (w_fsm (bound_world tpp w))
          (detected_edge_of X (mem tpp)) time).
  rewrite handle_timeout_edge_motion by reflexivity.
  unfold entering_fsm at 1 2. rewrite inject_without_elapsed_time.
  fold (entering_fsm (edges X) (w_fsm (bound_world tpp w))
          (detected_edge_of X (mem tpp)) time).
  simpl run_ops. unfold libinput_timer_set.
  destruct (libinput_timer_set_flags (w_li (bound_world tpp w)) fsm_timer
              (to_u64 (time + EDGE_MOTION_CONFIG_MIN_INTERVAL_US)) TIMER_FLAG_NONE);
    reflexivity.
Qed.

Lemma drag_state_stay X mem tpp time w :
  let w0 := bound_world tpp w in
  let f := w_fsm w0 in
  let edge := detected_edge_of X (mem tpp) in
  next_state_of X (mem tpp) = current_state f ->
  tp_edge_motion_handle_drag_state X mem tpp time w =
    Some (if edge_motion_state_eqb (current_state f) STATE_EDGE_MOTION
             && negb (edge =? current_edge f)
          then {| w_fsm := set_motion_vector
                             (set_state_edge f (current_state f) edge)
                             (calculate_motion_vector (edges X) edge);
                  w_li := w_li w0;
                  w_motion := w_motion w0 |}
          else w0,
          edge_motion_state_eqb (current_state f) STATE_EDGE_MOTION).
Proof.
  cbv zeta. unfold tp_edge_motion_handle_drag_state. fold (bound_world tpp w).
  cbv zeta. intros Hnext. rewrite Hnext.
  destruct (edge_motion_state_eqb_spec (current_state (w_fsm (bound_world tpp w)))
              (current_state (w_fsm (bound_world tpp w)))); [|congruence].
  simpl negb. cbv iota.
  destruct (edge_motion_state_eqb (current_state (w_fsm (bound_world tpp w)))
              STATE_EDGE_MOTION
            && negb (detected_edge_of X (mem tpp)
                     =? current_edge (w_fsm (bound_world tpp w)))); reflexivity.
Qed.

Lemma bound_world_tp tpp w :
  tp (w_fsm (bound_world tpp w)) =
    Some (match tp (w_fsm w) with Some a => a | None => tpp end).
Proof.
  unfold bound_world, tp_edge_motion_init.
  destruct (tp (w_fsm w)) eqn:H; simpl; [assumption | reflexivity].
Qed.

Lemma bound_world_bound tpp w a :
  tp (w_fsm w) = Some a -> bound_world tpp w = w.
Proof. intros H. unfold bound_world. now rewrite H. Qed.

Lemma bound_world_motion tpp w : w_motion (bound_world tpp w) = w_motion w.
Proof.
  unfold bound_world, tp_edge_motion_init. destruct (tp (w_fsm w)); reflexivity.
Qed.

Lemma bound_world_state tpp w :
  fsm_inv w -> current_state (w_fsm (bound_world tpp w)) = current_state (w_fsm w).
Proof.
  intros (_ & _ & Hidle & _). unfold bound_world, tp_edge_motion_init.
  destruct (tp (w_fsm w)) eqn:H; simpl; [reflexivity|].
  symmetry. now apply Hidle.
Qed.

Lemma bound_world_inv tpp w : fsm_inv w -> fsm_inv (bound_world tpp w).
Proof.
  intros Hinv. unfold bound_world, tp_edge_motion_init.
  destruct (tp (w_fsm w)) eqn:Htp; [assumption|].
  destruct Hinv as (Harm & _ & Hidle & Hnd & Hin).
  assert (Hz : timer_expire (w_li w) fsm_timer = 0).
  { destruct (Z.eq_dec (timer_expire (w_li w) fsm_timer) 0) as [|Hnz]; [assumption|].
    apply Harm in Hnz. rewrite (Hidle Htp) in Hnz. discriminate. }
  assert (Hsame : forall t, set_expire (timer_expire (w_li w)) fsm_timer 0 t
                            = timer_expire (w_li w) t).
  { intros t. unfold set_expire. destruct (Nat.eqb_spec t fsm_timer); congruence. }
  unfold fsm_inv, timer_inv. simpl. rewrite Hsame.
  split; [split; [discriminate | contradiction]|].
  split; [reflexivity|]. split; [discriminate|].
  split; [assumption|]. intros t. rewrite Hsame. apply Hin.
Qed.

(** What one call of [tp_edge_motion_handle_drag_state] leaves behind. *)
Lemma drag_state_effect X mem tpp time w w' b :
  fsm_inv w ->
  tp_edge_motion_handle_drag_state X mem tpp time w = Some (w', b) ->
  fsm_inv w' /\
  b = edge_motion_state_eqb (current_state (w_fsm w')) STATE_EDGE_MOTION /\
  current_state (w_fsm w') = next_state_of X (mem tpp) /\
  tp (w_fsm w') = tp (w_fsm (bound_world tpp w)) /\
  w_motion w' = w_motion w /\
  (current_state (w_fsm w') = STATE_EDGE_MOTION ->
   current_edge (w_fsm w') = detected_edge_of X (mem tpp)).
Proof.
  intros Hinv H.
  pose proof (bound_world_inv tpp w Hinv) as Hinv0.
  pose proof (bound_world_tp tpp w) as Htp0.
  pose proof (bound_world_motion tpp w) as Hm0.
  destruct (edge_motion_state_eqb_spec (next_state_of X (mem tpp))
              (current_state (w_fsm (bound_world tpp w)))) as [Heq|Hne].
  - rewrite (drag_state_stay X mem tpp time w Heq) in H.
    injection H as <- <-.
    destruct (edge_motion_state_eqb (current_state (w_fsm (bound_world tpp w)))
                STATE_EDGE_MOTION
              && negb (detected_edge_of X (mem tpp)
                       =? current_edge (w_fsm (bound_world tpp w)))) eqn:Hc.
    + destruct Hinv0 as (Ha & Hcnt & Hi & Ht).
      split; [unfold fsm_inv; simpl; tauto|].
      split; [reflexivity|]. split; [simpl; congruence|].
      split; [reflexivity|]. split; [assumption|]. reflexivity.
    + split; [assumption|]. split; [reflexivity|]. split; [congruence|].
      split; [reflexivity|]. split; [assumption|].
      intros He. rewrite He in Hc. simpl in Hc.
      apply negb_false_iff, Z.eqb_eq in Hc. congruence.
  - destruct (edge_motion_state_eqb_spec (next_state_of X (mem tpp))
                STATE_EDGE_MOTION) as [He|He].
    + assert (Hs : current_state (w_fsm (bound_world tpp w)) <> STATE_EDGE_MOTION)
        by congruence.
      rewrite (drag_state_enter X mem tpp time w Hs He) in H.
      unfold libinput_timer_set in H.
      destruct (libinput_timer_set_flags (w_li (bound_world tpp w)) fsm_timer
                  (to_u64 (time + EDGE_MOTION_CONFIG_MIN_INTERVAL_US))
                  TIMER_FLAG_NONE) as [li'|] eqn:Hset; [|discriminate].
      injection H as <- <-.
      destruct Hinv0 as (Ha & Hc & Hi & Ht).
      pose proof (set_flags_inv _ _ _ _ _ Ht Hset) as Ht'.
      apply set_flags_Some in Hset. destruct Hset as (Hnz & _ & Hx).
      unfold fsm_inv. simpl. rewrite Hx, set_expire_same.
      repeat split; try tauto; try congruence; apply Ht'.
    + rewrite (drag_state_leave X mem tpp time w Hne He) in H.
      injection H as <- <-.
      destruct Hinv0 as (Ha & Hc & Hi & Ht).
      pose proof (cancel_inv _ fsm_timer Ht) as Ht'.
      unfold fsm_inv. simpl. rewrite cancel_timer_expire, Nat.eqb_refl.
      destruct (edge_motion_state_eqb_spec (next_state_of X (mem tpp))
                  STATE_EDGE_MOTION); [contradiction|].
      repeat split; try tauto; try congruence; apply Ht'.
Qed.

(** The timer firing through the dispatch handler: cancelled, then the
    callback, which re-arms it in [STATE_EDGE_MOTION]. *)
Lemma edge_motion_fire_inv X mem now li f out t f' out' ops li2 :
  fsm_inv {| w_fsm := f; w_li := li; w_motion := out |} ->
  first_expired (timer_expire li) now (timer_list li) = Some t ->
  edge_motion_timer_func X mem t now (f, out) = Some ((f', out'), ops) ->
  run_ops (libinput_timer_cancel li t) ops = Some li2 ->
  fsm_inv {| w_fsm := f'; w_li := li2; w_motion := out' |}.
Proof.
  intros (Ha & Hc & Hi & Ht) Hf Hcb Hops. simpl in *.
  destruct (first_expired_Some _ _ _ _ Hf) as (_ & Hnz & _).
  assert (Ht2 : timer_inv li2).
  { eapply run_ops_inv; [|eassumption]. now apply cancel_inv. }
  unfold edge_motion_timer_func in Hcb.
  destruct (Nat.eqb_spec t fsm_timer) as [->|Hne].
  - assert (He : current_state f = STATE_EDGE_MOTION) by now apply Ha.
    rewrite (handle_timeout_edge_motion _ _ _ _ _ He) in Hcb.
    destruct (inject_accumulated_motion X mem (tp f) now f out)
      as [[f1 out1]|] eqn:Hinj; [|discriminate].
    inversion Hcb; subst f1 out1 ops; clear Hcb.
    destruct (inject_effect _ _ _ _ _ _ _ _ Hinj) as (Hs & Htp & _ & _).
    simpl in Hops.
    destruct (libinput_timer_set_flags (libinput_timer_cancel li fsm_timer)
                fsm_timer (to_u64 (now + EDGE_MOTION_CONFIG_MIN_INTERVAL_US))
                TIMER_FLAG_NONE) as [li3|] eqn:Hset; [|discriminate].
    injection Hops as ->.
    apply set_flags_Some in Hset. destruct Hset as (Hez & _ & Hx).
    unfold fsm_inv. simpl. rewrite Hx, set_expire_same, Hs, Htp.
    split; [tauto|]. split; [congruence|]. split; [assumption | exact Ht2].
  - inversion Hcb; subst f' out' ops; clear Hcb.
    simpl in Hops. injection Hops as <-.
    unfold fsm_inv. simpl. rewrite cancel_timer_expire.
    destruct (Nat.eqb_spec fsm_timer t); [congruence|].
    split; [assumption|]. split; [assumption|]. split; [assumption | exact Ht2].
Qed.

Lemma edge_motion_dispatch_inv X mem now fuel : forall li f out li' f' out' calls,
  fsm_inv {| w_fsm := f; w_li := li; w_motion := out |} ->
  libinput_timer_handler (edge_motion_timer_func X mem) fuel li (f, out) now
    = Returned (li', (f', out'), calls) ->
  fsm_inv {| w_fsm := f'; w_li := li'; w_motion := out' |}.
Proof.
  induction fuel as [|fuel IH]; intros li f out li' f' out' calls Hinv H;
    [discriminate|].
  destruct (first_expired (timer_expire li) now (timer_list li)) as [t|] eqn:Hf.
  - destruct (handler_fired _ _ _ _ _ _ _ Hf H)
      as ([f1 out1] & ops & li2 & li3 & [f3 out3] & rest & Hcb & Hops & Hrec & Heq).
    injection Heq as -> -> -> ->.
    eapply IH; [|eassumption].
    eapply edge_motion_fire_inv; eassumption.
  - rewrite handler_unfold, Hf in H. now injection H as <- <- <- <-.
Qed.

(** [tp_edge_motion_cleanup] only returns when the timer is not linked,
    that is outside of [STATE_EDGE_MOTION]. *)
Lemma cleanup_effect w w' :
  fsm_inv w -> tp_edge_motion_cleanup w = Some w' ->
  current_state (w_fsm w) <> STATE_EDGE_MOTION /\ fsm_inv w'.
Proof.
  intros (Ha & Hc & Hi & Ht) H. unfold tp_edge_motion_cleanup in H.
  assert (Hz : timer_expire (w_li w) fsm_timer = 0).
  { destruct (tp (w_fsm w)) eqn:Htp.
    - unfold libinput_timer_destroy in H.
      destruct (in_dec Nat.eq_dec fsm_timer (timer_list (w_li w))) as [Hin|Hin];
        [discriminate|].
      destruct (Z.eq_dec (timer_expire (w_li w) fsm_timer) 0) as [|Hnz];
        [assumption|]. exfalso. apply Hin. now apply Ht.
    - destruct (Z.eq_dec (timer_expire (w_li w) fsm_timer) 0) as [|Hnz];
        [assumption|]. apply Ha in Hnz. rewrite (Hi eq_refl) in Hnz. discriminate. }
  assert (Hsame : forall t, set_expire (timer_expire (w_li w)) fsm_timer 0 t
                            = timer_expire (w_li w) t).
  { intros t. unfold set_expire. destruct (Nat.eqb_spec t fsm_timer); congruence. }
  assert (Hli : exists li, w' = {| w_fsm := fsm_zero;
                                   w_li := memset_fsm_timer li;
                                   w_motion := w_motion w |} /\ li = w_li w).
  { destruct (tp (w_fsm w)).
    - unfold libinput_timer_destroy in H.
      destruct (in_dec Nat.eq_dec fsm_timer (timer_list (w_li w)));
        [discriminate|]. injection H as <-. eauto.
    - injection H as <-. eauto. }
  destruct Hli as (li & -> & ->).
  split; [intros He; apply Ha in He; contradiction|].
  unfold fsm_inv, timer_inv. simpl. rewrite Hsame.
  split; [split; [discriminate | contradiction]|].
  split; [reflexivity|]. split; [reflexivity|].
  destruct Ht as [Hnd Hin]. split; [assumption|].
  intros t. rewrite Hsame. apply Hin.
Qed.

Lemma world_init_inv : fsm_inv world_init.
Proof.
  unfold fsm_inv, world_init. simpl.
  split; [split; [discriminate | intros H; now elim H]|].
  split; [reflexivity|]. split; [reflexivity | exact init_timer_inv].
Qed.

(** C5: the embedded timer is armed iff the machine is in
    [STATE_EDGE_MOTION].  This holds in the initial state and again after
    every evaluation of the drag state, every dispatch of the timer
    subsystem and every cleanup that returns.  An evaluation that leaves
    [STATE_EDGE_MOTION] cancels the timer and zeroes the continuous-motion
    counter; one that enters it calls the timeout handler once, on the
    spot, which arms the timer for [time] plus the minimum interval. *)
Theorem edge_motion_timer_armed_iff_state (X : externals)
  (mem : tp_ptr -> tp_dispatch) :
  fsm_inv world_init /\
  (forall tpp time w w' b,
     fsm_inv w ->
     tp_edge_motion_handle_drag_state X mem tpp time w = Some (w', b) ->
     fsm_inv w' /\
     (current_state (w_fsm w) = STATE_EDGE_MOTION ->
      current_state (w_fsm w') <> STATE_EDGE_MOTION ->
      w_li w' = libinput_timer_cancel (w_li w) fsm_timer /\
      timer_expire (w_li w') fsm_timer = 0 /\
      ~ In fsm_timer (timer_list (w_li w')) /\
      continuous_motion_count (w_fsm w') = 0) /\
     (current_state (w_fsm w) <> STATE_EDGE_MOTION ->
      current_state (w_fsm w') = STATE_EDGE_MOTION ->
      let set_op :=
        TimerSet fsm_timer (to_u64 (time + EDGE_MOTION_CONFIG_MIN_INTERVAL_US))
          TIMER_FLAG_NONE in
      tp_edge_motion_handle_timeout X mem time
        (entering_fsm (edges X) (w_fsm (bound_world tpp w))
           (detected_edge_of X (mem tpp)) time, w_motion w)
        = Some ((w_fsm w', w_motion w'), [set_op]) /\
      run_ops (w_li (bound_world tpp w)) [set_op] = Some (w_li w') /\
      timer_expire (w_li w') fsm_timer
        = to_u64 (time + EDGE_MOTION_CONFIG_MIN_INTERVAL_US) /\
      In fsm_timer (timer_list (w_li w')))) /\
  (forall fuel now w li' f' out' calls,
     fsm_inv w ->
     libinput_timer_handler (edge_motion_timer_func X mem) fuel
       (w_li w) (w_fsm w, w_motion w) now = Returned (li', (f', out'), calls) ->
     fsm_inv {| w_fsm := f'; w_li := li'; w_motion := out' |}) /\
  (forall w w',
     fsm_inv w -> tp_edge_motion_cleanup w = Some w' ->
     current_state (w_fsm w) <> STATE_EDGE_MOTION /\ fsm_inv w').
Proof.
  split; [exact world_init_inv|]. split; [|split].
  - intros tpp time w w' b Hinv H.
    destruct (drag_state_effect X mem tpp time w w' b Hinv H)
      as (Hinv' & _ & Hnext & _ & Hm & _).
    pose proof (bound_world_state tpp w Hinv) as Hs0.
    split; [assumption|]. split.
    + intros He Hne.
      assert (Hb : bound_world tpp w = w).
      { destruct Hinv as (_ & _ & Hi & _).
        destruct (tp (w_fsm w)) as [a|] eqn:Htp;
          [now apply (bound_world_bound tpp w a)|].
        rewrite (Hi eq_refl) in He. discriminate. }
      rewrite drag_state_leave in H; rewrite ?Hb, ?He; try congruence.
      rewrite Hb in H. injection H as <- <-. simpl.
      destruct Hinv as (_ & _ & _ & Ht).
      destruct (cancel_unlinks _ fsm_timer Ht) as [Hnot Hz]. tauto.
    + intros Hne He. cbv zeta.
      rewrite drag_state_enter in H; rewrite ?Hs0; try congruence.
      unfold libinput_timer_set in H.
      destruct (libinput_timer_set_flags (w_li (bound_world tpp w)) fsm_timer
                  (to_u64 (time + EDGE_MOTION_CONFIG_MIN_INTERVAL_US))
                  TIMER_FLAG_NONE) as [li'|] eqn:Hset; [|discriminate].
      injection H as <- <-. simpl w_fsm. simpl w_li. simpl w_motion.
      rewrite handle_timeout_edge_motion by reflexivity.
      unfold entering_fsm at 1 2. rewrite inject_without_elapsed_time.
      simpl run_ops. rewrite Hset, bound_world_motion.
      split; [reflexivity|]. split; [reflexivity|].
      destruct Hinv' as (_ & _ & _ & Ht'). simpl in Ht'.
      apply set_flags_Some in Hset. destruct Hset as (Hnz & _ & Hx).
      assert (Hexp : timer_expire li' fsm_timer
                     = to_u64 (time + EDGE_MOTION_CONFIG_MIN_INTERVAL_US))
        by (rewrite Hx; apply set_expire_same).
      split; [exact Hexp|]. apply Ht'. rewrite Hexp. assumption.
  - intros fuel now [f li out] li' f' out' calls Hinv H. simpl in H.
    eapply edge_motion_dispatch_inv; eassumption.
  - intros w w' Hinv H. now apply cleanup_effect.
Qed.

Lemma edge_motion_timer_armed_iff_state_witness :
  tp_edge_motion_handle_drag_state sample_externals sample_mem_edge
    1%nat 1000000 world_init = Some (sample_world_edge, true) /\
  fsm_inv sample_world_edge /\
  current_state (w_fsm sample_world_edge) = STATE_EDGE_MOTION /\
  timer_expire (w_li sample_world_edge) fsm_timer = 1008000 /\
  tp_edge_motion_handle_drag_state sample_externals sample_mem_idle
    1%nat 1004000 sample_world_edge = Some (sample_world_idle, false) /\
  fsm_inv sample_world_idle /\
  current_state (w_fsm sample_world_idle) = STATE_IDLE /\
  timer_expire (w_li sample_world_idle) fsm_timer = 0 /\
  continuous_motion_count (w_fsm sample_world_idle) = 0.
Proof.
  assert (H1 : tp_edge_motion_handle_drag_state sample_externals sample_mem_edge
                 1%nat 1000000 world_init = Some (sample_world_edge, true))
    by (vm_compute; reflexivity).
  assert (H2 : tp_edge_motion_handle_drag_state sample_externals sample_mem_idle
                 1%nat 1004000 sample_world_edge = Some (sample_world_idle, false))
    by (vm_compute; reflexivity).
  destruct (edge_motion_timer_armed_iff_state sample_externals sample_mem_edge)
    as (Hinit & Hstep1 & _).
  destruct (edge_motion_timer_armed_iff_state sample_externals sample_mem_idle)
    as (_ & Hstep2 & _).
  destruct (Hstep1 _ _ _ _ _ Hinit H1) as (Hinv1 & _ & Henter).
  destruct (Hstep2 _ _ _ _ _ Hinv1 H2) as (Hinv2 & Hleave & _).
  assert (He : current_state (w_fsm sample_world_edge) = STATE_EDGE_MOTION)
    by (vm_compute; reflexivity).
  assert (Hi : current_state (w_fsm sample_world_idle) = STATE_IDLE)
    by (vm_compute; reflexivity).
  destruct (Henter ltac:(discriminate) He) as (_ & _ & Hexp & _).
  destruct (Hleave He ltac:(rewrite Hi; discriminate)) as (_ & Hz & _ & Hc).
  split; [exact H1|]. split; [exact Hinv1|]. split; [exact He|].
  split; [exact Hexp|]. split; [exact H2|]. split; [exact Hinv2|].
  split; [exact Hi|]. split; [exact Hz | exact Hc].
Defined.

(** ** Binding and the device an evaluation reads *)

(** What an evaluation computes, whatever the state it starts from: the new
    state and edge come from the device it is called with; the binding is
    the one in place after the lazy initialisation; nothing is notified. *)
Lemma drag_state_result X mem tpp time w w' b :
  tp_edge_motion_handle_drag_state X mem tpp time w = Some (w', b) ->
  b = edge_motion_state_eqb (current_state (w_fsm w')) STATE_EDGE_MOTION /\
  current_state (w_fsm w') = next_state_of X (mem tpp) /\
  tp (w_fsm w') = tp (w_fsm (bound_world tpp w)) /\
  w_motion w' = w_motion w /\
  (current_state (w_fsm w') = STATE_EDGE_MOTION ->
   current_edge (w_fsm w') = detected_edge_of X (mem tpp)).
Proof.
  intros H. pose proof (bound_world_motion tpp w) as Hm0.
  destruct (edge_motion_state_eqb_spec (next_state_of X (mem tpp))
              (current_state (w_fsm (bound_world tpp w)))) as [Heq|Hne].
  - rewrite (drag_state_stay X mem tpp time w Heq) in H.
    injection H as <- <-.
    destruct (edge_motion_state_eqb (current_state (w_fsm (bound_world tpp w)))
                STATE_EDGE_MOTION
              && negb (detected_edge_of X (mem tpp)
                       =? current_edge (w_fsm (bound_world tpp w)))) eqn:Hc.
    + split; [reflexivity|]. split; [simpl; congruence|].
      split; [reflexivity|]. split; [assumption|]. reflexivity.
    + split; [reflexivity|]. split; [congruence|].
      split; [reflexivity|]. split; [assumption|].
      intros He. rewrite He in Hc. simpl in Hc.
      apply negb_false_iff, Z.eqb_eq in Hc. congruence.
  - destruct (edge_motion_state_eqb_spec (next_state_of X (mem tpp))
                STATE_EDGE_MOTION) as [He|He].
    + assert (Hs : current_state (w_fsm (bound_world tpp w)) <> STATE_EDGE_MOTION)
        by congruence.
      rewrite (drag_state_enter X mem tpp time w Hs He) in H.
      destruct (libinput_timer_set (w_li (bound_world tpp w)) fsm_timer
                  (to_u64 (time + EDGE_MOTION_CONFIG_MIN_INTERVAL_US)))
        as [li'|]; [|discriminate].
      injection H as <- <-. simpl.
      split; [reflexivity|]. split; [congruence|].
      split; [reflexivity|]. split; [assumption|]. reflexivity.
    + rewrite (drag_state_leave X mem tpp time w Hne He) in H.
      injection H as <- <-. simpl.
      destruct (edge_motion_state_eqb_spec (next_state_of X (mem tpp))
                  STATE_EDGE_MOTION); [contradiction|].
      split; [reflexivity|]. split; [reflexivity|].
      split; [reflexivity|]. split; [assumption|]. contradiction.
Qed.

(** An evaluation only fails on the assertion of [libinput_timer_set]. *)
Lemma drag_state_runs X mem tpp time w :
  to_u64 (time + EDGE_MOTION_CONFIG_MIN_INTERVAL_US) <> 0 ->
  exists w' b, tp_edge_motion_handle_drag_state X mem tpp time w = Some (w', b).
Proof.
  intros Hnz.
  destruct (edge_motion_state_eqb_spec (next_state_of X (mem tpp))
              (current_state (w_fsm (bound_world tpp w)))) as [Heq|Hne].
  - rewrite (drag_state_stay X mem tpp time w Heq). eauto.
  - destruct (edge_motion_state_eqb_spec (next_state_of X (mem tpp))
                STATE_EDGE_MOTION) as [He|He].
    + assert (Hs : current_state (w_fsm (bound_world tpp w)) <> STATE_EDGE_MOTION)
        by congruence.
      rewrite (drag_state_enter X mem tpp time w Hs He).
      unfold libinput_timer_set.
      destruct (set_flags_runs (w_li (bound_world tpp w)) fsm_timer _
                  TIMER_FLAG_NONE Hnz) as [li' ->]. eauto.
    + rewrite (drag_state_leave X mem tpp time w Hne He). eauto.
Qed.

(** The evaluation reads no device but the one it is called with. *)
Lemma drag_state_reads_argument X mem mem' tpp time w :
  mem' tpp = mem tpp ->
  tp_edge_motion_handle_drag_state X mem' tpp time w
    = tp_edge_motion_handle_drag_state X mem tpp time w.
Proof.
  intros Hsame.
  destruct (edge_motion_state_eqb_spec (next_state_of X (mem tpp))
              (current_state (w_fsm (bound_world tpp w)))) as [Heq|Hne].
  - rewrite (drag_state_stay X mem tpp time w Heq).
    rewrite (drag_state_stay X mem' tpp time w) by (rewrite Hsame; exact Heq).
    rewrite Hsame. reflexivity.
  - destruct (edge_motion_state_eqb_spec (next_state_of X (mem tpp))
                STATE_EDGE_MOTION) as [He|He].
    + assert (Hs : current_state (w_fsm (bound_world tpp w)) <> STATE_EDGE_MOTION)
        by congruence.
      rewrite (drag_state_enter X mem tpp time w Hs He).
      rewrite (drag_state_enter X mem' tpp time w Hs)
        by (rewrite Hsame; exact He).
      rewrite Hsame. reflexivity.
    + rewrite (drag_state_leave X mem tpp time w Hne He).
      rewrite (drag_state_leave X mem' tpp time w)
        by (rewrite Hsame; assumption).
      rewrite Hsame. reflexivity.
Qed.

(** The timer callback notifies on the bound device. *)
Lemma handle_timeout_effect X mem now f out f' out' ops :
  tp_edge_motion_handle_timeout X mem now (f, out) = Some ((f', out'), ops) ->
  tp f' = tp f /\ current_state f' = current_state f /\
  (out' = out \/
   exists p, tp f = Some p /\
     out' = out ++ [injected_event X mem p f now
                      (to_u64 (now - last_motion_time f))]).
Proof.
  intros H.
  destruct (edge_motion_state_eqb_spec (current_state f) STATE_EDGE_MOTION)
    as [He|He].
  - rewrite (handle_timeout_edge_motion _ _ _ _ _ He) in H.
    destruct (inject_accumulated_motion X mem (tp f) now f out)
      as [[f1 out1]|] eqn:Hinj; [|discriminate].
    inversion H; subst f1 out1 ops; clear H.
    destruct (inject_effect _ _ _ _ _ _ _ _ Hinj) as (Hs & Htp & _ & Hout).
    split; [assumption|]. split; [assumption|].
    destruct Hout as [[-> _]|(p & Hp & ->)]; [now left|].
    right. exists p. tauto.
  - rewrite (handle_timeout_other_state _ _ _ _ _ He) in H.
    inversion H; subst f' out' ops. tauto.
Qed.

(** C9 (as amended): binding the machine to a second device while it is
    bound is silently ignored: [tp_edge_motion_init] returns at its guard
    with nothing changed, the evaluation for the second device keeps the
    binding and does not abort on account of it (it runs to its end whenever
    the timer expiry it may set is non-zero). *)
Theorem rebinding_is_ignored (X : externals) (mem : tp_ptr -> tp_dispatch)
  (A B : tp_ptr) (time : Z) (w : world) :
  tp (w_fsm w) = Some A ->
  tp_edge_motion_init B w = w /\
  (forall w' b,
     tp_edge_motion_handle_drag_state X mem B time w = Some (w', b) ->
     tp (w_fsm w') = Some A) /\
  (to_u64 (time + EDGE_MOTION_CONFIG_MIN_INTERVAL_US) <> 0 ->
   exists w' b,
     tp_edge_motion_handle_drag_state X mem B time w = Some (w', b)).
Proof.
  intros Htp. split; [|split].
  - unfold tp_edge_motion_init. now rewrite Htp.
  - intros w' b H. destruct (drag_state_result _ _ _ _ _ _ _ H) as (_ & _ & Ht & _).
    rewrite Ht, (bound_world_bound B w A Htp). exact Htp.
  - now apply drag_state_runs.
Qed.

Lemma sample_world_edge_bound : tp (w_fsm sample_world_edge) = Some 1%nat.
Proof. vm_compute. reflexivity. Qed.

Lemma rebinding_is_ignored_witness :
  tp (w_fsm sample_world_edge) = Some 1%nat /\
  tp_edge_motion_init 2%nat sample_world_edge = sample_world_edge /\
  exists w' b,
    tp_edge_motion_handle_drag_state sample_externals sample_mem_centre 2%nat
      1004000 sample_world_edge = Some (w', b) /\
    tp (w_fsm w') = Some 1%nat.
Proof.
  destruct (rebinding_is_ignored sample_externals sample_mem_centre 1%nat 2%nat
              1004000 sample_world_edge sample_world_edge_bound)
    as (Hinit & Hkeep & Hrun).
  split; [exact sample_world_edge_bound|]. split; [exact Hinit|].
  destruct Hrun as (w' & b & Hr); [vm_compute; discriminate|].
  exists w', b. split; [exact Hr | exact (Hkeep w' b Hr)].
Defined.

(** C9 as stated fails: the evaluation for device 2 on a machine bound to
    device 1 returns. *)
Lemma double_binding_counterexample :
  ~ (forall (X : externals) (mem : tp_ptr -> tp_dispatch) (A B : tp_ptr)
       (time : Z) (w : world),
       tp (w_fsm w) = Some A -> B <> A ->
       tp_edge_motion_handle_drag_state X mem B time w = None).
Proof.
  intros H.
  specialize (H sample_externals sample_mem_centre 1%nat 2%nat 1004000
                sample_world_edge sample_world_edge_bound ltac:(discriminate)).
  vm_compute in H. discriminate H.
Qed.

(** C10: on a machine bound to device [A], an evaluation for another device
    [B] leaves the binding alone and raises no error of its own; the state it
    moves to, the edge it records and its result are those of [B]'s tap
    state, touches and geometry, and of nothing else in memory; what the
    timer callback injects afterwards is scaled by [A]'s coefficients,
    filtered by [A]'s filter and notified on [A]. *)
Theorem evaluation_reads_argument_injection_bound_device (X : externals)
  (mem : tp_ptr -> tp_dispatch) (A B : tp_ptr) (time : Z) (w : world) :
  tp (w_fsm w) = Some A -> B <> A ->
  (to_u64 (time + EDGE_MOTION_CONFIG_MIN_INTERVAL_US) <> 0 ->
   exists w' b,
     tp_edge_motion_handle_drag_state X mem B time w = Some (w', b)) /\
  (forall mem', mem' B = mem B ->
     tp_edge_motion_handle_drag_state X mem' B time w
       = tp_edge_motion_handle_drag_state X mem B time w) /\
  (forall w' b,
     tp_edge_motion_handle_drag_state X mem B time w = Some (w', b) ->
     tp (w_fsm w') = Some A /\
     current_state (w_fsm w') = next_state_of X (mem B) /\
     (current_state (w_fsm w') = STATE_EDGE_MOTION ->
      current_edge (w_fsm w') = detected_edge_of X (mem B)) /\
     b = edge_motion_state_eqb (next_state_of X (mem B)) STATE_EDGE_MOTION /\
     w_motion w' = w_motion w /\
     forall now f'' out'' ops,
       tp_edge_motion_handle_timeout X mem now (w_fsm w', w_motion w')
         = Some ((f'', out''), ops) ->
       tp f'' = Some A /\
       (out'' = w_motion w' \/
        out'' = w_motion w'
                ++ [injected_event X mem A (w_fsm w') now
                      (to_u64 (now - last_motion_time (w_fsm w')))])).
Proof.
  intros Htp Hne. split; [now apply drag_state_runs|].
  split; [intros mem' Hsame; now apply drag_state_reads_argument|].
  intros w' b H.
  destruct (drag_state_result _ _ _ _ _ _ _ H) as (Hb & Hs & Ht & Hm & He).
  rewrite (bound_world_bound B w A Htp), Htp in Ht.
  split; [assumption|]. split; [assumption|]. split; [assumption|].
  split; [rewrite <- Hs; assumption|]. split; [assumption|].
  intros now f'' out'' ops Hcb.
  destruct (handle_timeout_effect _ _ _ _ _ _ _ _ Hcb) as (Ht' & _ & Hout).
  split; [congruence|].
  destruct Hout as [->|(p & Hp & ->)]; [now left|].
  right. rewrite Ht in Hp. injection Hp as <-. reflexivity.
Qed.

(** Device 2, which no finger has left, is evaluated on the machine bound to
    device 1 by [sample_world_edge]. *)
Lemma evaluation_reads_argument_injection_bound_device_witness :
  let mem := fun p : tp_ptr =>
               if Nat.eqb p 2 then sample_mem_edge p else sample_mem_idle p in
  tp (w_fsm sample_world_edge) = Some 1%nat /\
  exists w',
    tp_edge_motion_handle_drag_state sample_externals mem 2%nat 1004000
      sample_world_edge = Some (w', true) /\
    tp (w_fsm w') = Some 1%nat /\
    current_state (w_fsm w') = STATE_EDGE_MOTION /\
    forall now f'' out'' ops,
      tp_edge_motion_handle_timeout sample_externals mem now
        (w_fsm w', w_motion w') = Some ((f'', out''), ops) ->
      Forall (fun ev => ev_device ev = 1%nat) out''.
Proof.
  intros mem.
  destruct (evaluation_reads_argument_injection_bound_device sample_externals mem
              1%nat 2%nat 1004000 sample_world_edge sample_world_edge_bound
              ltac:(discriminate)) as (Hrun & _ & Hres).
  split; [exact sample_world_edge_bound|].
  destruct Hrun as (w' & b & Hr); [vm_compute; discriminate|].
  destruct (Hres w' b Hr) as (Htp & Hs & _ & Hb & Hm & Hcb).
  assert (Hnext : next_state_of sample_externals (mem 2%nat) = STATE_EDGE_MOTION)
    by (vm_compute; reflexivity).
  rewrite Hnext in Hb, Hs. simpl in Hb. subst b.
  exists w'. split; [exact Hr|]. split; [exact Htp|]. split; [exact Hs|].
  intros now f'' out'' ops Hto.
  destruct (Hcb now f'' out'' ops Hto) as (_ & [-> | ->]).
  - rewrite Hm. vm_compute. constructor.
  - rewrite Hm. apply Forall_app. split; [vm_compute; constructor|].
    constructor; [reflexivity | constructor].
Defined.

(** ** The first two injections *)

Lemma interval_elapsed (time : Z) :
  to_u64 (to_u64 (time + EDGE_MOTION_CONFIG_MIN_INTERVAL_US) - time)
    = EDGE_MOTION_CONFIG_MIN_INTERVAL_US.
Proof.
  unfold to_u64. rewrite Zminus_mod_idemp_l.
  replace (time + EDGE_MOTION_CONFIG_MIN_INTERVAL_US - time)
    with EDGE_MOTION_CONFIG_MIN_INTERVAL_US by lia.
  reflexivity.
Qed.

(** C6: an evaluation at a valid (non-zero) [time] that enters
    [STATE_EDGE_MOTION] runs the injection path once, which leaves the
    baseline at [time] and notifies nothing; the timer is armed for [time]
    plus the minimum interval (8000 us), and the invocation of the timer
    callback at that expiry sends exactly one notification. *)
Theorem first_injection_is_baseline_only (X : externals)
  (mem : tp_ptr -> tp_dispatch) (tpp : tp_ptr) (time : Z) (w : world) :
  fsm_inv w ->
  time <> 0 ->
  to_u64 (time + EDGE_MOTION_CONFIG_MIN_INTERVAL_US) <> 0 ->
  current_state (w_fsm w) <> STATE_EDGE_MOTION ->
  next_state_of X (mem tpp) = STATE_EDGE_MOTION ->
  let now := to_u64 (time + EDGE_MOTION_CONFIG_MIN_INTERVAL_US) in
  exists w1 p,
    tp_edge_motion_handle_drag_state X mem tpp time w = Some (w1, true) /\
    current_state (w_fsm w1) = STATE_EDGE_MOTION /\
    tp (w_fsm w1) = Some p /\
    w_motion w1 = w_motion w /\
    last_motion_time (w_fsm w1) = time /\
    continuous_motion_count (w_fsm w1) = 0 /\
    timer_expire (w_li w1) fsm_timer = now /\
    tp_edge_motion_handle_timeout X mem now (w_fsm w1, w_motion w1) =
      Some ((set_motion_count (set_last_motion_time (w_fsm w1) now) 1,
             w_motion w
             ++ [injected_event X mem p (w_fsm w1) now
                   EDGE_MOTION_CONFIG_MIN_INTERVAL_US]),
            [TimerSet fsm_timer
               (to_u64 (now + EDGE_MOTION_CONFIG_MIN_INTERVAL_US))
               TIMER_FLAG_NONE]).
Proof.
  intros Hinv Htime Hnz Hstate Hnext now.
  pose proof (bound_world_inv tpp w Hinv) as (_ & Hcnt & _ & _).
  pose proof (bound_world_state tpp w Hinv) as Hs0.
  pose proof (bound_world_tp tpp w) as Htp0.
  assert (Hs : current_state (w_fsm (bound_world tpp w)) <> STATE_EDGE_MOTION)
    by congruence.
  rewrite (drag_state_enter X mem tpp time w Hs Hnext).
  unfold libinput_timer_set.
  destruct (set_flags_runs (w_li (bound_world tpp w)) fsm_timer now
              TIMER_FLAG_NONE Hnz) as [li' Hset].
  fold now. rewrite Hset.
  apply set_flags_Some in Hset. destruct Hset as (_ & _ & Hx).
  eexists _, _. split; [reflexivity|]. simpl w_fsm. simpl w_li. simpl w_motion.
  split; [reflexivity|]. split; [exact Htp0|].
  split; [apply bound_world_motion|]. split; [reflexivity|].
  split; [exact (Hcnt Hs)|]. split; [rewrite Hx; apply set_expire_same|].
  rewrite handle_timeout_edge_motion by reflexivity.
  change (tp (entering_fsm (edges X) (w_fsm (bound_world tpp w))
                (detected_edge_of X (mem tpp)) time))
    with (tp (w_fsm (bound_world tpp w))).
  rewrite Htp0, inject_after_interval.
  - change (continuous_motion_count
              (entering_fsm (edges X) (w_fsm (bound_world tpp w))
                 (detected_edge_of X (mem tpp)) time))
      with (continuous_motion_count (w_fsm (bound_world tpp w))).
    rewrite (Hcnt Hs), bound_world_motion. reflexivity.
  - exact Htime.
  - apply interval_elapsed.
Qed.

(** From the initial state, at 1 s, with the finger at the left edge: no
    notification; then the dispatch of the timer subsystem at 1.008 s calls
    the callback once and one notification is sent. *)
Lemma first_injection_is_baseline_only_witness :
  fsm_inv world_init /\
  exists w1 p,
    tp_edge_motion_handle_drag_state sample_externals sample_mem_edge 1%nat
      1000000 world_init = Some (w1, true) /\
    w_motion w1 = [] /\
    timer_expire (w_li w1) fsm_timer = 1008000 /\
    exists f2,
      tp_edge_motion_handle_timeout sample_externals sample_mem_edge 1008000
        (w_fsm w1, w_motion w1)
      = Some ((f2, [injected_event sample_externals sample_mem_edge p (w_fsm w1)
                      1008000 8000]),
              [TimerSet fsm_timer 1016000 TIMER_FLAG_NONE]).
Proof.
  split; [exact world_init_inv|].
  assert (Ht : 1000000 <> 0) by discriminate.
  assert (Hnz : to_u64 (1000000 + EDGE_MOTION_CONFIG_MIN_INTERVAL_US) <> 0)
    by (vm_compute; discriminate).
  assert (Hs : current_state (w_fsm world_init) <> STATE_EDGE_MOTION)
    by discriminate.
  assert (Hn : next_state_of sample_externals (sample_mem_edge 1%nat)
               = STATE_EDGE_MOTION) by (vm_compute; reflexivity).
  destruct (first_injection_is_baseline_only sample_externals sample_mem_edge
              1%nat 1000000 world_init world_init_inv Ht Hnz Hs Hn)
    as (w1 & p & Hr & _ & _ & Hm & _ & _ & Hexp & Hto).
  exists w1, p. split; [exact Hr|]. split; [exact Hm|]. split; [exact Hexp|].
  eexists. exact Hto.
Defined.

Example dispatch_after_interval_notifies_once :
  match libinput_timer_handler
          (edge_motion_timer_func sample_externals sample_mem_edge) 5
          (w_li sample_world_edge)
          (w_fsm sample_world_edge, w_motion sample_world_edge) 1008000 with
  | Returned (li, (f, out), calls) =>
      map call_timer calls = [fsm_timer] /\ length out = 1%nat /\
      map ev_device out = [1%nat] /\ map ev_time out = [1008000] /\
      continuous_motion_count f = 1 /\ timer_expire li fsm_timer = 1016000
  | _ => False
  end.
Proof. vm_compute. repeat split; reflexivity. Qed.

(** With the reserved timestamp zero, which stands for "unset", the
    injection path cannot tell the baseline from its absence and takes it
    again at the next expiry. *)
Example zero_time_baseline_taken_again :
  inject_accumulated_motion sample_externals sample_mem_edge (Some 1%nat) 8000
    (entering_fsm sample_edges fsm_zero 1 0) []
  = Some (set_last_motion_time (entering_fsm sample_edges fsm_zero 1 0) 8000, []).
Proof. vm_compute. reflexivity. Qed.

(** * Further properties of the code *)

(** ** util-time.h *)

Lemma timespec_fields_normalised (us : usec_t) :
  is_u64 us ->
  0 <= tv_sec (usec_to_timespec us) /\
  0 <= tv_nsec (usec_to_timespec us) < 1000000000.
Proof.
  intros [H0 H1]. unfold usec_to_timespec. cbv zeta. rewrite one_sec_us.
  unfold usec_as_uint64_t. simpl.
  pose proof (Z.mod_pos_bound us 1000000).
  split; [apply Z.div_pos; lia | lia].
Qed.

(** X1: a timestamp converted to a [struct timespec] and back is unchanged,
    and the [timespec] is normalised: non-negative seconds and nanoseconds
    below one second. *)
Theorem timespec_roundtrip (us : usec_t) :
  is_u64 us ->
  usec_from_timespec (usec_to_timespec us) = us /\
  0 <= tv_sec (usec_to_timespec us) /\
  0 <= tv_nsec (usec_to_timespec us) < 1000000000.
Proof.
  intros H. split; [now apply timespec_of_usec_roundtrip|].
  now apply timespec_fields_normalised.
Qed.

Lemma timespec_roundtrip_witness :
  is_u64 1234567890 /\
  usec_to_timespec 1234567890 = {| tv_sec := 1234; tv_nsec := 567890000 |} /\
  usec_from_timespec (usec_to_timespec 1234567890) = 1234567890.
Proof.
  assert (H : is_u64 1234567890) by (unfold is_u64, UINT64_MOD; lia).
  destruct (timespec_roundtrip 1234567890 H) as [Hr _].
  split; [exact H|]. split; [reflexivity | exact Hr].
Defined.

(** X2: the same through a [struct timeval], whose microseconds stay below
    one second. *)
Theorem timeval_roundtrip (us : usec_t) :
  is_u64 us ->
  usec_from_timeval (usec_to_timeval us) = us /\
  0 <= Timeval.tv_sec (usec_to_timeval us) /\
  0 <= Timeval.tv_usec (usec_to_timeval us) < 1000000.
Proof.
  intros [H0 H1]. unfold usec_from_timeval, usec_to_timeval. cbv zeta.
  rewrite one_sec_us. unfold usec_as_uint64_t, usec_from_uint64_t. simpl.
  pose proof (Z.div_mod us 1000000). pose proof (Z.mod_pos_bound us 1000000).
  split; [|split; [apply Z.div_pos; lia | lia]].
  rewrite to_u64_small; unfold UINT64_MOD in *; lia.
Qed.

Lemma timeval_roundtrip_witness :
  is_u64 1234567890 /\
  usec_to_timeval 1234567890
    = {| Timeval.tv_sec := 1234; Timeval.tv_usec := 567890 |} /\
  usec_from_timeval (usec_to_timeval 1234567890) = 1234567890.
Proof.
  assert (H : is_u64 1234567890) by (unfold is_u64, UINT64_MOD; lia).
  destruct (timeval_roundtrip 1234567890 H) as [Hr _].
  split; [exact H|]. split; [reflexivity | exact Hr].
Defined.

(** X3: subtraction and addition of timestamps wrap around together:
    adding back what was subtracted returns the minuend, also when the
    difference wrapped below zero; [usec_delta] is the same subtraction. *)
Theorem usec_sub_add_inverse (a b : usec_t) :
  is_u64 a -> is_u64 b ->
  usec_add (usec_sub a b) b = a /\
  usec_sub (usec_add a b) b = a /\
  usec_delta a b = usec_sub a b.
Proof.
  intros Ha Hb.
  unfold usec_add, usec_sub, usec_delta, usec_from_uint64_t, usec_as_uint64_t,
    to_u64.
  split; [|split; [|reflexivity]].
  - rewrite Zplus_mod_idemp_l. replace (a - b + b) with a by lia.
    now apply Z.mod_small.
  - rewrite Zminus_mod_idemp_l. replace (a + b - b) with a by lia.
    now apply Z.mod_small.
Qed.

Lemma usec_sub_add_inverse_witness :
  is_u64 5 /\ is_u64 7 /\
  usec_sub 5 7 = 18446744073709551614 /\
  usec_add (usec_sub 5 7) 7 = 5.
Proof.
  assert (Ha : is_u64 5) by (unfold is_u64, UINT64_MOD; lia).
  assert (Hb : is_u64 7) by (unfold is_u64, UINT64_MOD; lia).
  destruct (usec_sub_add_inverse 5 7 Ha Hb) as [Hr _].
  split; [exact Ha|]. split; [exact Hb|]. split; [reflexivity | exact Hr].
Defined.

(** X4: [usec_add_millis] is [usec_add] of [usec_from_millis], for every
    argument; below 4294968 ms, where the 32-bit product does not wrap, it
    adds [1000 * millis] microseconds. *)
Theorem usec_add_millis_composes (us : usec_t) (millis : Z) :
  is_u64 us -> 0 <= millis < UINT32_MOD ->
  usec_add_millis us millis = usec_add us (usec_from_millis millis) /\
  (millis < 4294968 -> usec_add_millis us millis = to_u64 (us + 1000 * millis)).
Proof.
  intros Hus Hm.
  assert (Hp : 0 <= to_u32 (millis * 1000) < UINT32_MOD)
    by (unfold to_u32; apply Z.mod_pos_bound; unfold UINT32_MOD; lia).
  unfold usec_add_millis, usec_add, usec_from_millis, usec_from_uint64_t,
    usec_as_uint64_t.
  split.
  - rewrite (to_u64_small (to_u32 (millis * 1000))) by (now apply u32_in_u64).
    reflexivity.
  - intros Hsmall. rewrite to_u32_small by (unfold UINT32_MOD; lia).
    f_equal. lia.
Qed.

Lemma usec_add_millis_composes_witness :
  is_u64 1000000 /\ 0 <= 20 < UINT32_MOD /\
  usec_add_millis 1000000 20 = 1020000 /\
  usec_add 1000000 (usec_from_millis 20) = 1020000.
Proof.
  assert (Ha : is_u64 1000000) by (unfold is_u64, UINT64_MOD; lia).
  assert (Hb : 0 <= 20 < UINT32_MOD) by (unfold UINT32_MOD; lia).
  destruct (usec_add_millis_composes 1000000 20 Ha Hb) as [Hc _].
  split; [exact Ha|]. split; [exact Hb|]. split; [reflexivity|].
  rewrite <- Hc. reflexivity.
Defined.

Lemma quotient_bounds (us d : Z) :
  0 < d -> d * (us / d) <= us < d * (us / d) + d.
Proof.
  intros Hd. pose proof (Z.div_mod us d). pose proof (Z.mod_pos_bound us d). lia.
Qed.

(** X5: [to_human_time] never runs off its table (the assertion is not
    reached for any 64-bit value) and returns the count of whole units in
    the first unit whose count is below the limit of the table: microseconds
    below 5000, milliseconds below 5000, seconds below 120, minutes below
    120, hours below 48, days beyond. *)
Theorem to_human_time_units (us : usec_t) :
  is_u64 us ->
  HumanTime.to_human_time us = HumanTime.human_time_spec us /\
  HumanTime.to_human_time us <> None.
Proof.
  intros [H0 H1]. unfold UINT64_MOD in H1.
  assert (Hspec : HumanTime.human_time_spec us <> None).
  { unfold HumanTime.human_time_spec, HumanTime.human.
    repeat match goal with |- context [if ?b then _ else _] => destruct b end;
      discriminate. }
  assert (Heq : HumanTime.to_human_time us = HumanTime.human_time_spec us);
    [|split; [exact Heq | rewrite Heq; exact Hspec]].
  unfold HumanTime.to_human_time, HumanTime.human_time_spec, HumanTime.human,
    HumanTime.conversion, usec_as_uint64_t.
  cbn [HumanTime.to_human_time_loop HumanTime.change_from_previous
       HumanTime.limit HumanTime.c_unit].
  rewrite Z.div_1_r. rewrite !Z.div_div by lia.
  change (1000 * 1000) with 1000000. change (1000000 * 60) with 60000000.
  change (60000000 * 60) with 3600000000.
  change (3600000000 * 24) with 86400000000.
  pose proof (quotient_bounds us 1000 ltac:(lia)).
  pose proof (quotient_bounds us 1000000 ltac:(lia)).
  pose proof (quotient_bounds us 60000000 ltac:(lia)).
  pose proof (quotient_bounds us 3600000000 ltac:(lia)).
  pose proof (quotient_bounds us 86400000000 ltac:(lia)).
  unfold UINT64_MAX.
  destruct (Z.ltb_spec us 5000);
    [rewrite to_u32_small by (unfold UINT32_MOD; lia); reflexivity|].
  destruct (Z.ltb_spec (us / 1000) 5000); destruct (Z.ltb_spec us 5000000);
    try lia; [rewrite to_u32_small by (unfold UINT32_MOD; lia); reflexivity|].
  destruct (Z.ltb_spec (us / 1000000) 120); destruct (Z.ltb_spec us 120000000);
    try lia; [rewrite to_u32_small by (unfold UINT32_MOD; lia); reflexivity|].
  destruct (Z.ltb_spec (us / 60000000) 120); destruct (Z.ltb_spec us 7200000000);
    try lia; [rewrite to_u32_small by (unfold UINT32_MOD; lia); reflexivity|].
  destruct (Z.ltb_spec (us / 3600000000) 48);
    destruct (Z.ltb_spec us 172800000000);
    try lia; [rewrite to_u32_small by (unfold UINT32_MOD; lia); reflexivity|].
  destruct (Z.ltb_spec (us / 86400000000) (2 ^ 64 - 1)); [|lia].
  rewrite to_u32_small by (unfold UINT32_MOD; lia). reflexivity.
Qed.

Lemma to_human_time_units_witness :
  is_u64 7200000000 /\
  option_map HumanTime.value (HumanTime.to_human_time 7200000000) = Some 2 /\
  HumanTime.to_human_time 7200000000 = HumanTime.human_time_spec 7200000000 /\
  option_map HumanTime.value (HumanTime.to_human_time 7199999999) = Some 119.
Proof.
  assert (H : is_u64 7200000000) by (unfold is_u64, UINT64_MOD; lia).
  destruct (to_human_time_units 7200000000 H) as [Heq _].
  split; [exact H|]. split; [vm_compute; reflexivity|].
  split; [exact Heq | vm_compute; reflexivity].
Defined.

(** ** timer.c *)

(** X6: cancelling is idempotent, and cancelling an inactive timer changes
    nothing at all, the timerfd included. *)
Theorem cancel_idempotent (li : libinput) (t : timer_id) :
  libinput_timer_cancel (libinput_timer_cancel li t) t
    = libinput_timer_cancel li t /\
  (timer_expire li t = 0 -> libinput_timer_cancel li t = li).
Proof.
  split.
  - unfold libinput_timer_cancel at 1. rewrite usec_is_zero_eqb.
    rewrite cancel_timer_expire, Nat.eqb_refl. reflexivity.
  - intros Hz. unfold libinput_timer_cancel. rewrite usec_is_zero_eqb, Hz.
    reflexivity.
Qed.

(** X7: an operation on one timer leaves every other timer as it was: its
    expiry, and whether it is linked. *)
Theorem timers_are_independent (li : libinput) (t t' : timer_id) :
  t' <> t ->
  (forall e f li',
     libinput_timer_set_flags li t e f = Some li' ->
     timer_expire li' t' = timer_expire li t' /\
     (In t' (timer_list li') <-> In t' (timer_list li))) /\
  timer_expire (libinput_timer_cancel li t) t' = timer_expire li t' /\
  (In t' (timer_list (libinput_timer_cancel li t)) <-> In t' (timer_list li)).
Proof.
  intros Hne. split.
  - intros e f li' H.
    apply (run_op_other li (TimerSet t e f) li' t'); [simpl; congruence | exact H].
  - apply (run_op_other li (TimerCancel t) _ t'); [simpl; congruence | reflexivity].
Qed.

Lemma timers_are_independent_witness :
  (2 <> 1)%nat /\
  timer_expire sample_timers 2%nat = 7 /\
  timer_expire (libinput_timer_cancel sample_timers 1%nat) 2%nat = 7 /\
  In 2%nat (timer_list (libinput_timer_cancel sample_timers 1%nat)).
Proof.
  assert (Hne : (2 <> 1)%nat) by discriminate.
  destruct (timers_are_independent sample_timers 1%nat 2%nat Hne)
    as (_ & He & Hin).
  split; [exact Hne|]. split; [vm_compute; reflexivity|].
  split; [rewrite He; vm_compute; reflexivity|].
  apply Hin. vm_compute. tauto.
Defined.

(** X8: with the list invariant in place, [libinput_timer_destroy] passes
    its assertion exactly for an inactive timer; after a cancel it always
    does. *)
Theorem destroy_wants_inactive_timer (li : libinput) (t : timer_id) :
  timer_inv li ->
  (libinput_timer_destroy li t = Some li <-> timer_expire li t = 0) /\
  (libinput_timer_destroy li t = None <-> timer_expire li t <> 0) /\
  libinput_timer_destroy (libinput_timer_cancel li t) t
    = Some (libinput_timer_cancel li t).
Proof.
  intros Hinv.
  assert (Hgen : forall l, timer_inv l ->
            (libinput_timer_destroy l t = Some l <-> timer_expire l t = 0) /\
            (libinput_timer_destroy l t = None <-> timer_expire l t <> 0)).
  { intros l [_ Hin]. unfold libinput_timer_destroy.
    destruct (in_dec Nat.eq_dec t (timer_list l)) as [Hi|Hi].
    - apply Hin in Hi. split; split; intros H; try discriminate; tauto.
    - assert (Hz : timer_expire l t = 0).
      { destruct (Z.eq_dec (timer_expire l t) 0); [assumption|].
        exfalso. apply Hi, Hin. assumption. }
      split; split; intros H; try discriminate; try tauto; congruence. }
  destruct (Hgen li Hinv) as [H1 H2]. split; [exact H1|]. split; [exact H2|].
  apply (Hgen _ (cancel_inv li t Hinv)).
  rewrite cancel_timer_expire. now rewrite Nat.eqb_refl.
Qed.

Lemma destroy_wants_inactive_timer_witness :
  timer_inv sample_timers /\
  libinput_timer_destroy sample_timers 1%nat = None /\
  libinput_timer_destroy (libinput_timer_cancel sample_timers 1%nat) 1%nat
    = Some (libinput_timer_cancel sample_timers 1%nat).
Proof.
  assert (Hinv : timer_inv sample_timers).
  { apply (run_ops_inv
             [TimerSet 4%nat 20 0; TimerSet 3%nat 6 0; TimerSet 2%nat 7 0;
              TimerSet 1%nat 5 0] libinput_timer_subsys_init);
      [exact init_timer_inv | vm_compute; reflexivity]. }
  destruct (destroy_wants_inactive_timer sample_timers 1%nat Hinv)
    as (_ & Hnone & Hafter).
  split; [exact Hinv|]. split; [apply Hnone; vm_compute; discriminate|].
  exact Hafter.
Defined.

Lemma cancel_all_list (ts : list timer_id) : forall li x,
  In x (timer_list (fold_left libinput_timer_cancel ts li)) ->
  In x (timer_list li) /\ (timer_expire li x <> 0 -> ~ In x ts).
Proof.
  induction ts as [|t ts IH]; simpl; intros li x H; [tauto|].
  destruct (IH _ _ H) as [Hin Hnot].
  rewrite cancel_timer_list in Hin. rewrite cancel_timer_expire in Hnot.
  destruct (Nat.eqb_spec x t) as [->|Hne].
  - destruct (Z.eqb_spec (timer_expire li t) 0) as [Hz|Hz].
    + split; [assumption|]. intros Hc. contradiction.
    + exfalso. unfold list_remove in Hin. now apply remove_In in Hin.
  - assert (Hin' : In x (timer_list li)).
    { destruct (timer_expire li t =? 0); [assumption|].
      unfold list_remove in Hin. now apply in_remove in Hin. }
    split; [assumption|]. intros Hnz [Heq|Hts]; [congruence|].
    now apply Hnot.
Qed.

(** X9: [libinput_timer_subsys_destroy] passes its assertion exactly when no
    timer is active, and it does once every linked timer has been
    cancelled. *)
Theorem subsys_destroy_wants_no_timer (li : libinput) :
  timer_inv li ->
  (libinput_timer_subsys_destroy li = Some tt <->
   forall t, timer_expire li t = 0) /\
  libinput_timer_subsys_destroy
    (fold_left libinput_timer_cancel (timer_list li) li) = Some tt.
Proof.
  intros [Hnd Hin]. split.
  - unfold libinput_timer_subsys_destroy. split.
    + destruct (timer_list li) as [|x l] eqn:Hl; [|discriminate].
      intros _ t. destruct (Z.eq_dec (timer_expire li t) 0); [assumption|].
      exfalso. apply (proj2 (Hin t)) in n. exact n.
    + intros Hz. destruct (timer_list li) as [|x l] eqn:Hl; [reflexivity|].
      exfalso. apply (proj1 (Hin x)); [now left | apply Hz].
  - unfold libinput_timer_subsys_destroy.
    destruct (timer_list (fold_left libinput_timer_cancel (timer_list li) li))
      as [|x l] eqn:Hl; [reflexivity|].
    exfalso.
    destruct (cancel_all_list (timer_list li) li x) as [Hx Hnot];
      [rewrite Hl; now left|].
    apply Hnot; [now apply Hin | exact Hx].
Qed.

Lemma subsys_destroy_wants_no_timer_witness :
  timer_inv sample_timers /\
  libinput_timer_subsys_destroy sample_timers = None /\
  libinput_timer_subsys_destroy
    (fold_left libinput_timer_cancel [1; 2; 3; 4]%nat sample_timers) = Some tt.
Proof.
  assert (Hinv : timer_inv sample_timers).
  { apply (run_ops_inv
             [TimerSet 4%nat 20 0; TimerSet 3%nat 6 0; TimerSet 2%nat 7 0;
              TimerSet 1%nat 5 0] libinput_timer_subsys_init);
      [exact init_timer_inv | vm_compute; reflexivity]. }
  destruct (subsys_destroy_wants_no_timer sample_timers Hinv) as [_ Hall].
  split; [exact Hinv|]. split; [vm_compute; reflexivity | exact Hall].
Defined.

Lemma min_expire_ext (e1 e2 : timer_id -> usec_t) (l : list timer_id) :
  (forall t, In t l -> e1 t = e2 t) -> min_expire e1 l = min_expire e2 l.
Proof.
  induction l as [|x l IH]; simpl; intros H; [reflexivity|].
  rewrite IH by (intros t Ht; apply H; now right).
  rewrite (H x) by now left. reflexivity.
Qed.

(** The timerfd setting and the cache only depend on the list and on the
    expiries of its members. *)
Lemma arm_ext (a b : libinput) :
  timer_list a = timer_list b ->
  (forall t, In t (timer_list a) -> timer_expire a t = timer_expire b t) ->
  timer_fd (libinput_timer_arm_timer_fd a) = timer_fd (libinput_timer_arm_timer_fd b) /\
  next_expiry (libinput_timer_arm_timer_fd a)
    = next_expiry (libinput_timer_arm_timer_fd b).
Proof.
  intros Hl He. unfold libinput_timer_arm_timer_fd. cbv zeta. simpl.
  rewrite !arm_scan, <- Hl, (min_expire_ext _ _ _ He). split; reflexivity.
Qed.

Lemma set_flags_eq li t e f :
  e <> 0 ->
  libinput_timer_set_flags li t e f =
    Some (libinput_timer_arm_timer_fd
            {| timer_list := if timer_expire li t =? 0
                             then t :: timer_list li else timer_list li;
               timer_expire := set_expire (timer_expire li) t e;
               timer_fd := timer_fd li;
               next_expiry := next_expiry li |}).
Proof.
  intros He. unfold libinput_timer_set_flags, usec_ne, usec_as_uint64_t.
  destruct (Z.eqb_spec e 0); [contradiction|]. simpl negb. cbv iota.
  rewrite usec_is_zero_eqb. unfold list_insert.
  destruct (timer_expire li t =? 0); reflexivity.
Qed.

Lemma cancel_eq li t :
  timer_expire li t <> 0 ->
  libinput_timer_cancel li t =
    libinput_timer_arm_timer_fd
      {| timer_list := list_remove (timer_list li) t;
         timer_expire := set_expire (timer_expire li) t 0;
         timer_fd := timer_fd li;
         next_expiry := next_expiry li |}.
Proof.
  intros Hz. unfold libinput_timer_cancel. rewrite usec_is_zero_eqb.
  destruct (Z.eqb_spec (timer_expire li t) 0); [contradiction | reflexivity].
Qed.

(** X10: setting an inactive timer and cancelling it again leaves the
    subsystem where it was: the same list, the same expiries, the timerfd
    programmed with the same deadline. *)
Theorem set_then_cancel_restores (li li1 : libinput) (t : timer_id)
  (e : usec_t) (f : Z) :
  timer_inv li -> timerfd_inv li -> timer_expire li t = 0 ->
  libinput_timer_set_flags li t e f = Some li1 ->
  timer_list (libinput_timer_cancel li1 t) = timer_list li /\
  (forall x, timer_expire (libinput_timer_cancel li1 t) x = timer_expire li x) /\
  timerfd_deadline (libinput_timer_cancel li1 t) = timerfd_deadline li /\
  (timer_list li <> [] ->
   next_expiry (libinput_timer_cancel li1 t) = next_expiry li).
Proof.
  intros [Hnd Hin] [Hv [Hd Hn]] Hz Hset.
  destruct (set_flags_Some _ _ _ _ _ Hset) as (He & Hl & Hx).
  rewrite Hz in Hl. simpl in Hl.
  assert (Hnot : ~ In t (timer_list li)) by (rewrite Hin; tauto).
  assert (He1 : timer_expire li1 t <> 0) by (rewrite Hx, set_expire_same; exact He).
  assert (Hlist : list_remove (timer_list li1) t = timer_list li).
  { rewrite Hl. unfold list_remove. simpl.
    destruct (Nat.eq_dec t t); [|congruence]. now apply notin_remove. }
  assert (Hexp : forall x, set_expire (timer_expire li1) t 0 x = timer_expire li x).
  { intros x. rewrite Hx. unfold set_expire.
    destruct (Nat.eqb_spec x t); [subst; now rewrite Hz | reflexivity]. }
  rewrite (cancel_eq li1 t He1).
  set (pre := {| timer_list := list_remove (timer_list li1) t;
                 timer_expire := set_expire (timer_expire li1) t 0;
                 timer_fd := timer_fd li1;
                 next_expiry := next_expiry li1 |}).
  assert (Hvp : expiries_valid pre).
  { intros x Hx'. simpl in *. rewrite Hexp. apply Hv. now rewrite <- Hlist. }
  destruct (arm_armed_to_min pre Hvp) as [Hdp Hnp].
  assert (Hmin : min_expire (timer_expire pre) (timer_list pre)
                 = min_expire (timer_expire li) (timer_list li)).
  { simpl. rewrite Hlist. apply min_expire_ext. intros x _. apply Hexp. }
  rewrite arm_timer_list, arm_timer_expire. simpl timer_list. simpl timer_expire.
  split; [exact Hlist|]. split; [exact Hexp|].
  split; [rewrite Hdp, Hmin, Hd; reflexivity|].
  intros Hne. rewrite Hnp, Hmin.
  destruct (min_expire (timer_expire li) (timer_list li)) as [m|] eqn:Hm;
    [now rewrite Hn|].
  apply min_expire_None in Hm. contradiction.
Qed.

Lemma sample_timers_timerfd_inv : timerfd_inv sample_timers.
Proof.
  apply (run_ops_timerfd_inv
           [TimerSet 4%nat 20 0; TimerSet 3%nat 6 0; TimerSet 2%nat 7 0;
            TimerSet 1%nat 5 0] libinput_timer_subsys_init);
    [exact init_timerfd_inv | | vm_compute; reflexivity].
  repeat constructor; unfold is_u64, UINT64_MOD, UINT64_MAX; simpl; lia.
Qed.

Lemma sample_timers_inv : timer_inv sample_timers.
Proof.
  apply (run_ops_inv
           [TimerSet 4%nat 20 0; TimerSet 3%nat 6 0; TimerSet 2%nat 7 0;
            TimerSet 1%nat 5 0] libinput_timer_subsys_init);
    [exact init_timer_inv | vm_compute; reflexivity].
Qed.

Lemma set_then_cancel_restores_witness :
  let li1 := option_or sample_timers
               (libinput_timer_set_flags sample_timers 9%nat 2 0) in
  timer_inv sample_timers /\ timerfd_inv sample_timers /\
  timer_expire sample_timers 9%nat = 0 /\
  libinput_timer_set_flags sample_timers 9%nat 2 0 = Some li1 /\
  timerfd_deadline li1 = Some 2 /\
  timerfd_deadline (libinput_timer_cancel li1 9%nat) = Some 5 /\
  timer_list (libinput_timer_cancel li1 9%nat) = [1; 2; 3; 4]%nat.
Proof.
  intros li1.
  assert (Hz : timer_expire sample_timers 9%nat = 0) by (vm_compute; reflexivity).
  assert (Hset : libinput_timer_set_flags sample_timers 9%nat 2 0 = Some li1)
    by (vm_compute; reflexivity).
  destruct (set_then_cancel_restores sample_timers li1 9%nat 2 0
              sample_timers_inv sample_timers_timerfd_inv Hz Hset)
    as (Hl & _ & Hd & _).
  split; [exact sample_timers_inv|]. split; [exact sample_timers_timerfd_inv|].
  split; [exact Hz|]. split; [exact Hset|]. split; [vm_compute; reflexivity|].
  split; [rewrite Hd; vm_compute; reflexivity|].
  rewrite Hl. vm_compute. reflexivity.
Defined.

(** X11: setting a timer again replaces the earlier expiry: two sets in a
    row leave the list, the expiries, the timerfd and the cache as the
    second set alone would. *)
Theorem set_overrides_previous_set (li li1 li2 li2' : libinput) (t : timer_id)
  (e1 e2 : usec_t) (f1 f2 : Z) :
  libinput_timer_set_flags li t e1 f1 = Some li1 ->
  libinput_timer_set_flags li1 t e2 f2 = Some li2 ->
  libinput_timer_set_flags li t e2 f2 = Some li2' ->
  timer_list li2 = timer_list li2' /\
  (forall x, timer_expire li2 x = timer_expire li2' x) /\
  timer_fd li2 = timer_fd li2' /\
  next_expiry li2 = next_expiry li2'.
Proof.
  intros H1 H2 H2'.
  destruct (set_flags_Some _ _ _ _ _ H1) as (He1 & Hl1 & Hx1).
  destruct (set_flags_Some _ _ _ _ _ H2) as (He2 & _ & _).
  rewrite (set_flags_eq li1 t e2 f2 He2) in H2.
  rewrite (set_flags_eq li t e2 f2 He2) in H2'.
  injection H2 as <-. injection H2' as <-.
  assert (Hl : (if timer_expire li1 t =? 0 then t :: timer_list li1
                else timer_list li1)
               = (if timer_expire li t =? 0 then t :: timer_list li
                  else timer_list li)).
  { rewrite Hx1, set_expire_same.
    destruct (Z.eqb_spec e1 0); [contradiction | exact Hl1]. }
  assert (Hx : forall x, set_expire (timer_expire li1) t e2 x
                         = set_expire (timer_expire li) t e2 x).
  { intros x. rewrite Hx1. unfold set_expire. destruct (Nat.eqb x t); reflexivity. }
  rewrite !arm_timer_list, !arm_timer_expire. simpl timer_list. simpl timer_expire.
  split; [exact Hl|]. split; [exact Hx|].
  apply arm_ext; simpl; [exact Hl | intros x _; apply Hx].
Qed.

Lemma set_overrides_previous_set_witness :
  let li1 := option_or sample_timers
               (libinput_timer_set_flags sample_timers 3%nat 2 0) in
  let li2 := option_or sample_timers (libinput_timer_set_flags li1 3%nat 30 0) in
  let li2' := option_or sample_timers
                (libinput_timer_set_flags sample_timers 3%nat 30 0) in
  libinput_timer_set_flags sample_timers 3%nat 2 0 = Some li1 /\
  libinput_timer_set_flags li1 3%nat 30 0 = Some li2 /\
  libinput_timer_set_flags sample_timers 3%nat 30 0 = Some li2' /\
  next_expiry li1 = 2 /\ next_expiry li2 = 5 /\ next_expiry li2' = 5 /\
  timer_list li2 = [1; 2; 3; 4]%nat.
Proof.
  intros li1 li2 li2'.
  assert (H1 : libinput_timer_set_flags sample_timers 3%nat 2 0 = Some li1)
    by (vm_compute; reflexivity).
  assert (H2 : libinput_timer_set_flags li1 3%nat 30 0 = Some li2)
    by (vm_compute; reflexivity).
  assert (H3 : libinput_timer_set_flags sample_timers 3%nat 30 0 = Some li2')
    by (vm_compute; reflexivity).
  destruct (set_overrides_previous_set _ _ _ _ _ _ _ _ _ H1 H2 H3)
    as (Hl & _ & _ & Hn).
  split; [exact H1|]. split; [exact H2|]. split; [exact H3|].
  split; [vm_compute; reflexivity|].
  split; [rewrite Hn; vm_compute; reflexivity|].
  split; [vm_compute; reflexivity|].
  rewrite Hl. vm_compute. reflexivity.
Defined.

Lemma nothing_due_nothing_found li now :
  (forall t, is_due li now t = false) ->
  first_expired (timer_expire li) now (timer_list li) = None.
Proof.
  intros H.
  destruct (first_expired (timer_expire li) now (timer_list li)) as [t|] eqn:Hf;
    [|reflexivity].
  apply first_expired_due in Hf. rewrite H in Hf. discriminate.
Qed.

Lemma not_due_earlier li now now' t :
  now' <= now -> is_due li now t = false -> is_due li now' t = false.
Proof.
  intros Hle H. apply not_true_is_false. intros Hd.
  apply is_due_true in Hd. destruct Hd as (Hin & Hz & Hle').
  assert (Ht : is_due li now t = true) by (apply is_due_true; repeat split; auto; lia).
  congruence.
Qed.

(** X12: once a dispatch at [now] has returned, another dispatch or flush at
    [now], or at any earlier time, invokes no callback and changes
    nothing. *)
Theorem dispatch_is_idempotent {ctx : Type} (timer_func : timer_func_t ctx)
  (fuel : nat) (li li' : libinput) (c c' : ctx) (now : usec_t)
  (calls : list callback_call) :
  libinput_timer_handler timer_func fuel li c now = Returned (li', c', calls) ->
  forall now' fuel', now' <= now ->
    libinput_timer_handler timer_func (S fuel') li' c' now'
      = Returned (li', c', []) /\
    libinput_timer_flush timer_func (S fuel') li' c' now'
      = Returned (li', c', []).
Proof.
  intros H now' fuel' Hle.
  assert (Hnone : first_expired (timer_expire li') now' (timer_list li') = None).
  { apply nothing_due_nothing_found. intros t.
    apply (not_due_earlier li' now now' t Hle).
    eapply handler_none_due; eassumption. }
  assert (Hh : libinput_timer_handler timer_func (S fuel') li' c' now'
               = Returned (li', c', []))
    by (rewrite handler_unfold, Hnone; reflexivity).
  split; [exact Hh|]. unfold libinput_timer_flush.
  destruct (usec_is_zero (next_expiry li') || (usec_cmp (next_expiry li') now' >? 0));
    [reflexivity | exact Hh].
Qed.

Lemma dispatch_is_idempotent_witness :
  let r := returned_or (sample_timers, 0%nat, [])
             (libinput_timer_handler sample_timer_func 10 sample_timers 0%nat 10) in
  libinput_timer_handler sample_timer_func 10 sample_timers 0%nat 10
    = Returned (fst (fst r), snd (fst r), snd r) /\
  length (snd r) = 3%nat /\
  libinput_timer_handler sample_timer_func 1 (fst (fst r)) (snd (fst r)) 10
    = Returned (fst (fst r), snd (fst r), []).
Proof.
  intros r.
  assert (Hrun : libinput_timer_handler sample_timer_func 10 sample_timers 0%nat 10
                 = Returned (fst (fst r), snd (fst r), snd r))
    by (vm_compute; reflexivity).
  destruct (dispatch_is_idempotent sample_timer_func _ _ _ _ _ _ _ Hrun 10 0%nat
              ltac:(lia)) as [Hh _].
  split; [exact Hrun|]. split; [vm_compute; reflexivity | exact Hh].
Defined.

Lemma first_expired_split expire now l t :
  first_expired expire now l = Some t ->
  exists l1 l2, l = l1 ++ t :: l2 /\
    filter (due_at expire now) l1 = [] /\ due_at expire now t = true.
Proof.
  induction l as [|x l IH]; simpl; [discriminate|].
  rewrite usec_is_zero_eqb, usec_cmp_leb.
  destruct (Z.eqb_spec (expire x) 0) as [Hz|Hz].
  - intros H. destruct (IH H) as (l1 & l2 & -> & Hl1 & Hd).
    exists (x :: l1), l2. simpl. unfold due_at at 1. rewrite Hz. simpl.
    repeat split; assumption.
  - destruct (Z.leb_spec (expire x) now) as [Hle|Hgt].
    + intros H. injection H as <-. exists [], l. simpl.
      unfold due_at. destruct (Z.eqb_spec (expire x) 0); [contradiction|].
      destruct (Z.leb_spec (expire x) now); [tauto | lia].
    + intros H. destruct (IH H) as (l1 & l2 & -> & Hl1 & Hd).
      exists (x :: l1), l2. simpl. unfold due_at at 1.
      destruct (Z.leb_spec (expire x) now); [lia|].
      rewrite andb_false_r. repeat split; assumption.
Qed.

Lemma remove_middle (l1 l2 : list timer_id) (t : timer_id) :
  NoDup (l1 ++ t :: l2) -> list_remove (l1 ++ t :: l2) t = l1 ++ l2.
Proof.
  intros Hnd. pose proof (NoDup_remove_2 _ _ _ Hnd) as Hnot.
  unfold list_remove. rewrite remove_app, remove_cons.
  rewrite !notin_remove; [reflexivity | |];
    intros Hin; apply Hnot, in_or_app; tauto.
Qed.

Lemma passive_sets_no_timer {ctx : Type} (timer_func : timer_func_t ctx) :
  passive timer_func -> sets_no_timer timer_func.
Proof.
  intros Hp t now c. destruct (Hp t now c) as [c' Hc].
  exists c', []. split; [exact Hc | constructor].
Qed.

Lemma handler_passive_order {ctx : Type} (timer_func : timer_func_t ctx)
  (now : usec_t) (Hp : passive timer_func) (fuel : nat) :
  forall li c li' c' calls,
    NoDup (timer_list li) ->
    libinput_timer_handler timer_func fuel li c now = Returned (li', c', calls) ->
    map call_timer calls
      = filter (due_at (timer_expire li) now) (timer_list li) /\
    timer_list li'
      = filter (fun t => negb (due_at (timer_expire li) now t)) (timer_list li).
Proof.
  induction fuel as [|fuel IH]; intros li c li' c' calls Hnd H; [discriminate|].
  destruct (first_expired (timer_expire li) now (timer_list li)) as [t|] eqn:Hf.
  - destruct (handler_fired _ _ _ _ _ _ _ Hf H)
      as (c1 & ops & li2 & li3 & c3 & rest & Hcb & Hops & Hrec & Heq).
    injection Heq as -> -> ->.
    destruct (Hp t now c) as [c1' Hc1]. rewrite Hc1 in Hcb.
    injection Hcb as <- <-. simpl in Hops. injection Hops as <-.
    destruct (first_expired_split _ _ _ _ Hf) as (l1 & l2 & Hl & Hl1 & Hdue).
    assert (Hz : timer_expire li t <> 0).
    { unfold due_at in Hdue. destruct (Z.eqb_spec (timer_expire li t) 0);
        [discriminate | assumption]. }
    assert (Hlist : timer_list (libinput_timer_cancel li t) = l1 ++ l2).
    { rewrite cancel_timer_list.
      destruct (Z.eqb_spec (timer_expire li t) 0); [contradiction|].
      rewrite Hl. apply remove_middle. now rewrite <- Hl. }
    rewrite Hl in Hnd. pose proof (NoDup_remove_2 _ _ _ Hnd) as Hnot.
    assert (Hsame : forall x, In x (l1 ++ l2) ->
              due_at (timer_expire (libinput_timer_cancel li t)) now x
              = due_at (timer_expire li) now x).
    { intros x Hx. unfold due_at. rewrite cancel_timer_expire.
      destruct (Nat.eqb_spec x t); [subst; contradiction | reflexivity]. }
    destruct (IH _ _ _ _ _ ltac:(rewrite Hlist; eapply NoDup_remove_1; eassumption) Hrec)
      as [Hcalls Hleft].
    rewrite Hlist in Hcalls, Hleft.
    rewrite (filter_ext_in _ _ _ Hsame) in Hcalls.
    rewrite (filter_ext_in
               (fun x => negb (due_at (timer_expire (libinput_timer_cancel li t)) now x))
               (fun x => negb (due_at (timer_expire li) now x))) in Hleft
      by (intros x Hx; now rewrite Hsame).
    rewrite Hl, !filter_app in *. simpl. rewrite Hdue, Hl1 in *. simpl.
    split; [now rewrite Hcalls | exact Hleft].
  - rewrite handler_unfold, Hf in H. injection H as <- <- <-.
    assert (Hall : forall x, In x (timer_list li) ->
              due_at (timer_expire li) now x = false).
    { intros x Hx. unfold due_at.
      destruct (first_expired_None _ _ _ Hf x Hx) as [Hz|Hgt].
      - rewrite Hz. reflexivity.
      - destruct (Z.leb_spec (timer_expire li x) now); [lia|].
        apply andb_false_r. }
    split.
    + simpl. symmetry.
      rewrite (filter_ext_in _ (fun _ => false) _ Hall).
      clear. induction (timer_list li); [reflexivity | assumption].
    + rewrite (filter_ext_in _ (fun _ => true) (timer_list li))
        by (intros x Hx; now rewrite Hall).
      clear. induction (timer_list li) as [|a l IH]; [reflexivity|].
      simpl. now rewrite <- IH.
Qed.

(** X13: when callbacks leave the timer subsystem alone, a dispatch returns
    within one scan per linked timer plus one; it has fired exactly the due
    timers, in list order (the most recently linked first), and leaves the
    others linked in their order. *)
Theorem dispatch_fires_in_list_order {ctx : Type} (timer_func : timer_func_t ctx)
  (li : libinput) (c : ctx) (now : usec_t) :
  passive timer_func -> NoDup (timer_list li) ->
  exists li' c' calls,
    libinput_timer_handler timer_func (S (length (timer_list li))) li c now
      = Returned (li', c', calls) /\
    map call_timer calls
      = filter (due_at (timer_expire li) now) (timer_list li) /\
    timer_list li'
      = filter (fun t => negb (due_at (timer_expire li) now t)) (timer_list li).
Proof.
  intros Hp Hnd.
  destruct (handler_returns timer_func now (passive_sets_no_timer _ Hp)
              (length (timer_list li)) li c (le_n _)) as [[[li' c'] calls] Hr].
  exists li', c', calls. split; [exact Hr|].
  eapply handler_passive_order; eassumption.
Qed.

Lemma idle_timer_func_passive : passive idle_timer_func.
Proof. intros t now c. exists c. reflexivity. Qed.

Lemma dispatch_fires_in_list_order_witness :
  passive idle_timer_func /\ NoDup (timer_list sample_timers) /\
  exists li' calls,
    libinput_timer_handler idle_timer_func 5 sample_timers tt 6
      = Returned (li', tt, calls) /\
    map call_timer calls = [1; 3]%nat /\ timer_list li' = [2; 4]%nat.
Proof.
  destruct (dispatch_fires_in_list_order idle_timer_func sample_timers tt 6
              idle_timer_func_passive (proj1 sample_timers_inv))
    as (li' & [] & calls & Hr & Hc & Hl).
  split; [exact idle_timer_func_passive|].
  split; [exact (proj1 sample_timers_inv)|].
  exists li', calls. split; [exact Hr|].
  split; [rewrite Hc | rewrite Hl]; vm_compute; reflexivity.
Defined.

Lemma handler_timerfd_inv {ctx : Type} (timer_func : timer_func_t ctx)
  (now : usec_t) (Hv : sets_valid_expiries timer_func) (fuel : nat) :
  forall li c li' c' calls,
    timerfd_inv li ->
    libinput_timer_handler timer_func fuel li c now = Returned (li', c', calls) ->
    timerfd_inv li'.
Proof.
  induction fuel as [|fuel IH]; intros li c li' c' calls Hinv H; [discriminate|].
  destruct (first_expired (timer_expire li) now (timer_list li)) as [t|] eqn:Hf.
  - destruct (handler_fired _ _ _ _ _ _ _ Hf H)
      as (c1 & ops & li2 & li3 & c3 & rest & Hcb & Hops & Hrec & Heq).
    injection Heq as -> -> ->.
    eapply IH; [|eassumption].
    eapply run_ops_timerfd_inv; [| |eassumption].
    + now apply cancel_timerfd_inv.
    + eapply Hv; eassumption.
  - rewrite handler_unfold, Hf in H. now injection H as <- <- <-.
Qed.

(** X14: when the timerfd follows the minimum before a dispatch and the
    callbacks only set expiries below [UINT64_MAX], it follows the minimum
    after the dispatch too, and is then disarmed (no timer linked) or armed
    strictly after [now]: a dispatch never leaves a deadline behind that has
    already passed. *)
Theorem dispatch_rearms_in_the_future {ctx : Type} (timer_func : timer_func_t ctx)
  (fuel : nat) (li li' : libinput) (c c' : ctx) (now : usec_t)
  (calls : list callback_call) :
  sets_valid_expiries timer_func -> timerfd_inv li ->
  libinput_timer_handler timer_func fuel li c now = Returned (li', c', calls) ->
  timerfd_inv li' /\
  match timerfd_deadline li' with
  | Some deadline => now < deadline /\ next_expiry li' = deadline
  | None => timer_list li' = []
  end.
Proof.
  intros Hv Hinv H.
  pose proof (handler_timerfd_inv timer_func now Hv fuel _ _ _ _ _ Hinv H) as Hinv'.
  split; [exact Hinv'|].
  destruct Hinv' as [Hval [Hd Hn]]. rewrite Hd.
  destruct (min_expire (timer_expire li') (timer_list li')) as [m|] eqn:Hm.
  - split; [|exact Hn].
    destruct (min_expire_In _ _ _ Hm) as (t & Hin & He).
    pose proof (Hval t Hin) as Hrange.
    pose proof (handler_none_due timer_func now fuel _ _ _ _ _ H t) as Hnd.
    destruct (Z.lt_ge_cases now m) as [|Hge]; [assumption|].
    assert (Hdue : is_due li' now t = true)
      by (apply is_due_true; repeat split; [assumption | lia | lia]).
    congruence.
  - now apply min_expire_None in Hm.
Qed.

Lemma cancelling_timer_func_valid : sets_valid_expiries cancelling_timer_func.
Proof.
  intros t now c c' ops H. unfold cancelling_timer_func in H.
  destruct t as [|[|[|t]]]; injection H as <- <-; repeat constructor.
Qed.

Lemma three_timers_timerfd_inv : timerfd_inv three_timers.
Proof.
  apply (run_ops_timerfd_inv
           [TimerSet 3%nat 50 0; TimerSet 1%nat 5 0; TimerSet 2%nat 5 0]
           libinput_timer_subsys_init);
    [exact init_timerfd_inv | | vm_compute; reflexivity].
  repeat constructor; unfold is_u64, UINT64_MOD, UINT64_MAX; simpl; lia.
Qed.

Lemma dispatch_rearms_in_the_future_witness :
  let r := returned_or (three_timers, tt, [])
             (libinput_timer_handler cancelling_timer_func 5 three_timers tt 10) in
  sets_valid_expiries cancelling_timer_func /\ timerfd_inv three_timers /\
  libinput_timer_handler cancelling_timer_func 5 three_timers tt 10
    = Returned (fst (fst r), snd (fst r), snd r) /\
  timerfd_deadline three_timers = Some 5 /\
  timerfd_deadline (fst (fst r)) = Some 50 /\
  timerfd_inv (fst (fst r)).
Proof.
  intros r.
  assert (Hrun : libinput_timer_handler cancelling_timer_func 5 three_timers tt 10
                 = Returned (fst (fst r), snd (fst r), snd r))
    by (vm_compute; reflexivity).
  destruct (dispatch_rearms_in_the_future cancelling_timer_func _ _ _ _ _ _ _
              cancelling_timer_func_valid three_timers_timerfd_inv Hrun)
    as [Hinv _].
  split; [exact cancelling_timer_func_valid|].
  split; [exact three_timers_timerfd_inv|]. split; [exact Hrun|].
  split; [vm_compute; reflexivity|]. split; [vm_compute; reflexivity | exact Hinv].
Defined.

(** ** evdev-mt-touchpad-edge-motion.c *)

(** X15: the direction [calculate_motion_vector] computes, for every mask
    and whatever bits the flags are: it points left iff LEFT is set and
    right iff RIGHT is set without LEFT, up iff TOP is set and down iff
    BOTTOM is set without TOP; it is the zero vector (nothing is divided)
    when no flag is set, and otherwise has length 1 to within one unit in
    the last place, with components of equal magnitude on a diagonal. *)
Theorem motion_vector_direction (E : tp_edge) (edge : Z) :
  let v := calculate_motion_vector E edge in
  let left := has_flag edge (EDGE_LEFT E) in
  let right := has_flag edge (EDGE_RIGHT E) in
  let top := has_flag edge (EDGE_TOP E) in
  let bottom := has_flag edge (EDGE_BOTTOM E) in
  (fst v <? 0)%float = left /\
  (0 <? fst v)%float = negb left && right /\
  (snd v <? 0)%float = top /\
  (0 <? snd v)%float = negb top && bottom /\
  (left || right || top || bottom = false -> v = (0%float, 0%float)) /\
  (left || right || top || bottom = true ->
   (abs (fst v * fst v + snd v * snd v - 1) <=? 0x1p-52)%float = true) /\
  ((left || right) && (top || bottom) = true ->
   abs (fst v) = abs (snd v)).
Proof.
  cbv zeta. unfold calculate_motion_vector.
  destruct (has_flag edge (EDGE_LEFT E)), (has_flag edge (EDGE_RIGHT E)),
    (has_flag edge (EDGE_TOP E)), (has_flag edge (EDGE_BOTTOM E));
    vm_compute; repeat split; intros; try reflexivity; discriminate.
Qed.

Lemma first_touch_skips_hovering X d pre : forall t rest,
  Forall (fun u => touch_in_contact u = false) pre ->
  touch_in_contact t = true ->
  first_touch_edge X d (pre ++ t :: rest) = detect_touch_edge X d t.
Proof.
  induction pre as [|u pre IH]; intros t rest Hpre Ht; simpl.
  - now rewrite Ht.
  - inversion Hpre as [|? ? Hu Hrest]; subst. rewrite Hu. now apply IH.
Qed.

Lemma first_touch_none_in_contact X d ts :
  Forall (fun u => touch_in_contact u = false) ts ->
  first_touch_edge X d ts = EDGE_NONE.
Proof.
  induction 1 as [|u ts Hu Hts IH]; simpl; [reflexivity|].
  now rewrite Hu.
Qed.

(** X16: edge detection looks at one touch only, the first in the array
    that is neither [TOUCH_NONE] nor [TOUCH_HOVERING]; with no touch in
    contact a drag never reaches [STATE_EDGE_MOTION]. *)
Theorem edge_detection_uses_first_contact (X : externals) (d : tp_dispatch) :
  (forall pre t rest,
     touches d = pre ++ t :: rest ->
     Forall (fun u => touch_in_contact u = false) pre ->
     touch_in_contact t = true ->
     drag_active_of (tap_state d) = true ->
     detected_edge_of X d = detect_touch_edge X d t) /\
  (Forall (fun u => touch_in_contact u = false) (touches d) ->
   detected_edge_of X d = EDGE_NONE /\
   next_state_of X d <> STATE_EDGE_MOTION).
Proof.
  split.
  - intros pre t rest Hl Hpre Ht Hdrag. unfold detected_edge_of.
    rewrite Hdrag, Hl. now apply first_touch_skips_hovering.
  - intros Hall.
    assert (Hd : detected_edge_of X d = EDGE_NONE).
    { unfold detected_edge_of. destruct (drag_active_of (tap_state d));
        [now apply first_touch_none_in_contact | reflexivity]. }
    split; [exact Hd|]. unfold next_state_of. rewrite Hd. simpl.
    destruct (drag_active_of (tap_state d)); discriminate.
Qed.

Lemma edge_detection_uses_first_contact_witness :
  detected_edge_of sample_externals (sample_mem_edge 1%nat) = 1 /\
  detect_touch_edge sample_externals (sample_mem_edge 1%nat)
    {| t_state := TOUCH_HOVERING; point := {| dc_x := 500; dc_y := 500 |} |} = 0.
Proof.
  destruct (edge_detection_uses_first_contact sample_externals
              (sample_mem_edge 1%nat)) as [Hfirst _].
  split; [|vm_compute; reflexivity].
  assert (Hpre : Forall (fun u => touch_in_contact u = false)
                   [{| t_state := TOUCH_HOVERING;
                       point := {| dc_x := 500; dc_y := 500 |} |}])
    by (repeat constructor).
  rewrite (Hfirst [{| t_state := TOUCH_HOVERING;
                      point := {| dc_x := 500; dc_y := 500 |} |}]
             {| t_state := TOUCH_OTHER 0;
                point := {| dc_x := 10; dc_y := 500 |} |} []
             eq_refl Hpre eq_refl eq_refl).
  vm_compute. reflexivity.
Defined.

Lemma vector_left (E : tp_edge) :
  tp_edge_ok E ->
  calculate_motion_vector E (EDGE_LEFT E) = ((-1)%float, 0%float).
Proof.
  intros (Hl & Hr & Ht & Hb & Hlr & Hlt & Hlb & _).
  unfold calculate_motion_vector.
  rewrite (has_flag_self _ Hl).
  rewrite (proj1 (has_flag_disjoint _ _ Hlt)), (proj1 (has_flag_disjoint _ _ Hlb)).
  vm_compute. reflexivity.
Qed.

Lemma vector_left_top (E : tp_edge) :
  tp_edge_ok E ->
  calculate_motion_vector E (Z.lor (EDGE_LEFT E) (EDGE_TOP E))
    = ((-1 / sqrt 2)%float, (-1 / sqrt 2)%float).
Proof.
  intros (Hl & Hr & Ht & Hb & Hlr & Hlt & Hlb & _).
  unfold calculate_motion_vector.
  rewrite !has_flag_lor, (has_flag_self _ Hl), (has_flag_self _ Ht).
  rewrite orb_true_r. simpl orb. cbv iota.
  vm_compute. reflexivity.
Qed.

Lemma detect_left_side X d t :
  let threshold := evdev_device_mm_to_units X (device d) threshold_mm in
  dc_x (point t) < dc_x threshold ->
  dc_x (point t) <= to_i32 (maximum (absinfo_x (device d)) - dc_x threshold) ->
  dc_y (point t) <= to_i32 (maximum (absinfo_y (device d)) - dc_y threshold) ->
  detect_touch_edge X d t =
    if dc_y (point t) <? dc_y threshold
    then Z.lor (EDGE_LEFT (edges X)) (EDGE_TOP (edges X))
    else EDGE_LEFT (edges X).
Proof.
  cbv zeta. intros Hx Hxr Hyb. unfold detect_touch_edge. fold threshold_mm.
  cbv zeta. rewrite !Z.gtb_ltb.
  destruct (Z.ltb_spec (dc_x (point t))
              (dc_x (evdev_device_mm_to_units X (device d) threshold_mm)));
    [|lia].
  destruct (Z.ltb_spec
              (to_i32
                 (maximum (absinfo_x (device d))
                  - dc_x (evdev_device_mm_to_units X (device d) threshold_mm)))
              (dc_x (point t))); [lia|].
  destruct (Z.ltb_spec
              (to_i32
                 (maximum (absinfo_y (device d))
                  - dc_y (evdev_device_mm_to_units X (device d) threshold_mm)))
              (dc_y (point t))); [lia|].
  unfold EDGE_NONE. rewrite Z.lor_0_l.
  destruct (dc_y (point t)
            <? dc_y (evdev_device_mm_to_units X (device d) threshold_mm));
    reflexivity.
Qed.

(** X17: a drag whose first touch in contact passes the test of
    [detect_touch_edge] for the left edge ([x] below the converted margin)
    and neither its test for the right edge nor the one for the bottom edge
    ([x] and [y] not above the 32-bit difference of the axis maximum and the
    converted margin) takes an idle or dragging machine into
    [STATE_EDGE_MOTION]; the direction recorded is (-1, 0), or, when the
    touch passes the test for the top edge as well, the diagonal with both
    components -1/sqrt 2. *)
Theorem left_edge_drag_moves_left (X : externals) (mem : tp_ptr -> tp_dispatch)
  (tpp : tp_ptr) (time : Z) (w : world) (pre rest : list tp_touch) (t : tp_touch) :
  let d := mem tpp in
  let threshold := evdev_device_mm_to_units X (device d) threshold_mm in
  tp_edge_ok (edges X) -> fsm_inv w ->
  current_state (w_fsm w) <> STATE_EDGE_MOTION ->
  to_u64 (time + EDGE_MOTION_CONFIG_MIN_INTERVAL_US) <> 0 ->
  drag_active_of (tap_state d) = true ->
  touches d = pre ++ t :: rest ->
  Forall (fun u => touch_in_contact u = false) pre ->
  touch_in_contact t = true ->
  dc_x (point t) < dc_x threshold ->
  dc_x (point t) <= to_i32 (maximum (absinfo_x (device d)) - dc_x threshold) ->
  dc_y (point t) <= to_i32 (maximum (absinfo_y (device d)) - dc_y threshold) ->
  exists w',
    tp_edge_motion_handle_drag_state X mem tpp time w = Some (w', true) /\
    current_state (w_fsm w') = STATE_EDGE_MOTION /\
    if dc_y (point t) <? dc_y threshold
    then current_edge (w_fsm w') = Z.lor (EDGE_LEFT (edges X)) (EDGE_TOP (edges X)) /\
         motion_dx (w_fsm w') = (-1 / sqrt 2)%float /\
         motion_dy (w_fsm w') = (-1 / sqrt 2)%float
    else current_edge (w_fsm w') = EDGE_LEFT (edges X) /\
         motion_dx (w_fsm w') = (-1)%float /\
         motion_dy (w_fsm w') = 0%float.
Proof.
  cbv zeta. intros Hok Hinv Hstate Hnz Hdrag Hl Hpre Ht Hx Hxr Hyb.
  assert (Hdet : detected_edge_of X (mem tpp) =
                 if dc_y (point t)
                    <? dc_y (evdev_device_mm_to_units X (device (mem tpp)) threshold_mm)
                 then Z.lor (EDGE_LEFT (edges X)) (EDGE_TOP (edges X))
                 else EDGE_LEFT (edges X)).
  { unfold detected_edge_of. rewrite Hdrag, Hl.
    rewrite (first_touch_skips_hovering X (mem tpp) pre t rest Hpre Ht).
    now apply detect_left_side. }
  assert (Hnone : detected_edge_of X (mem tpp) <> EDGE_NONE).
  { rewrite Hdet. destruct Hok as (Hle & _). unfold EDGE_NONE.
    destruct (dc_y (point t) <? _); [|assumption].
    intros H0. apply Z.lor_eq_0_iff in H0. tauto. }
  assert (Hnext : next_state_of X (mem tpp) = STATE_EDGE_MOTION).
  { unfold next_state_of. rewrite Hdrag.
    destruct (Z.eqb_spec (detected_edge_of X (mem tpp)) EDGE_NONE);
      [contradiction | reflexivity]. }
  assert (Hs : current_state (w_fsm (bound_world tpp w)) <> STATE_EDGE_MOTION)
    by (rewrite (bound_world_state tpp w Hinv); exact Hstate).
  rewrite (drag_state_enter X mem tpp time w Hs Hnext).
  unfold libinput_timer_set.
  destruct (set_flags_runs (w_li (bound_world tpp w)) fsm_timer _
              TIMER_FLAG_NONE Hnz) as [li' ->].
  eexists. split; [reflexivity|]. split; [reflexivity|].
  simpl. rewrite Hdet.
  destruct (dc_y (point t) <? _).
  - rewrite (vector_left_top _ Hok). repeat split.
  - rewrite (vector_left _ Hok). repeat split.
Qed.

Lemma left_edge_drag_moves_left_witness :
  exists w',
    tp_edge_motion_handle_drag_state sample_externals sample_mem_edge 1%nat
      1000000 world_init = Some (w', true) /\
    current_edge (w_fsm w') = 1 /\
    motion_dx (w_fsm w') = (-1)%float /\ motion_dy (w_fsm w') = 0%float.
Proof.
  assert (Hpre : Forall (fun u => touch_in_contact u = false)
                   [{| t_state := TOUCH_HOVERING;
                       point := {| dc_x := 500; dc_y := 500 |} |}])
    by (repeat constructor).
  assert (Hnz : to_u64 (1000000 + EDGE_MOTION_CONFIG_MIN_INTERVAL_US) <> 0)
    by (vm_compute; discriminate).
  assert (Hs : current_state (w_fsm world_init) <> STATE_EDGE_MOTION)
    by discriminate.
  assert (Hx : 10 < dc_x (evdev_device_mm_to_units sample_externals
                            (device (sample_mem_edge 1%nat)) threshold_mm))
    by (vm_compute; reflexivity).
  assert (Hxr : 10 <= to_i32
                        (maximum (absinfo_x (device (sample_mem_edge 1%nat)))
                         - dc_x (evdev_device_mm_to_units sample_externals
                                   (device (sample_mem_edge 1%nat)) threshold_mm)))
    by (vm_compute; discriminate).
  assert (Hyb : 500 <= to_i32
                         (maximum (absinfo_y (device (sample_mem_edge 1%nat)))
                          - dc_y (evdev_device_mm_to_units sample_externals
                                    (device (sample_mem_edge 1%nat)) threshold_mm)))
    by (vm_compute; discriminate).
  destruct (left_edge_drag_moves_left sample_externals sample_mem_edge 1%nat
              1000000 world_init
              [{| t_state := TOUCH_HOVERING;
                  point := {| dc_x := 500; dc_y := 500 |} |}]
              []
              {| t_state := TOUCH_OTHER 0;
                 point := {| dc_x := 10; dc_y := 500 |} |}
              sample_edges_ok world_init_inv Hs Hnz eq_refl eq_refl Hpre eq_refl
              Hx Hxr Hyb) as (w' & Hr & _ & Hv).
  exists w'. split; [exact Hr|]. exact Hv.
Defined.

(** X18: an evaluation that finds no drag, or a drag away from every edge,
    never aborts, whatever the time; it returns false and leaves the machine
    idle (no drag) or in [STATE_DRAG_ACTIVE], with the timer inactive and
    the continuous-motion counter at zero, and notifies nothing. *)
Theorem away_from_edge_timer_is_off (X : externals) (mem : tp_ptr -> tp_dispatch)
  (tpp : tp_ptr) (time : Z) (w : world) :
  fsm_inv w ->
  next_state_of X (mem tpp) <> STATE_EDGE_MOTION ->
  (drag_active_of (tap_state (mem tpp)) = false ->
   next_state_of X (mem tpp) = STATE_IDLE) /\
  exists w',
    tp_edge_motion_handle_drag_state X mem tpp time w = Some (w', false) /\
    current_state (w_fsm w') = next_state_of X (mem tpp) /\
    timer_expire (w_li w') fsm_timer = 0 /\
    ~ In fsm_timer (timer_list (w_li w')) /\
    continuous_motion_count (w_fsm w') = 0 /\
    w_motion w' = w_motion w.
Proof.
  intros Hinv Hnext. split.
  - intros Hd. unfold next_state_of. now rewrite Hd.
  - assert (Hrun : exists w' b,
               tp_edge_motion_handle_drag_state X mem tpp time w = Some (w', b)).
    { destruct (edge_motion_state_eqb_spec (next_state_of X (mem tpp))
                  (current_state (w_fsm (bound_world tpp w)))) as [Heq|Hne].
      - rewrite (drag_state_stay X mem tpp time w Heq). eauto.
      - rewrite (drag_state_leave X mem tpp time w Hne Hnext). eauto. }
    destruct Hrun as (w' & b & Hr).
    destruct (drag_state_effect X mem tpp time w w' b Hinv Hr)
      as (Hinv' & Hb & Hs & _ & Hm & _).
    assert (Hne : current_state (w_fsm w') <> STATE_EDGE_MOTION) by congruence.
    destruct Hinv' as (Ha & Hc & _ & Ht).
    assert (Hz : timer_expire (w_li w') fsm_timer = 0).
    { destruct (Z.eq_dec (timer_expire (w_li w') fsm_timer) 0); [assumption|].
      exfalso. apply Hne, Ha. assumption. }
    assert (Hbf : b = false).
    { rewrite Hb.
      destruct (edge_motion_state_eqb_spec (current_state (w_fsm w'))
                  STATE_EDGE_MOTION); [contradiction | reflexivity]. }
    rewrite Hbf in Hr. exists w'. split; [exact Hr|]. split; [exact Hs|].
    split; [exact Hz|]. split; [|split; [now apply Hc | exact Hm]].
    intros Hin. apply Ht in Hin. contradiction.
Qed.

Lemma away_from_edge_timer_is_off_witness :
  fsm_inv sample_world_edge /\
  next_state_of sample_externals (sample_mem_centre 1%nat) = STATE_DRAG_ACTIVE /\
  exists w',
    tp_edge_motion_handle_drag_state sample_externals sample_mem_centre 1%nat 0
      sample_world_edge = Some (w', false) /\
    current_state (w_fsm w') = STATE_DRAG_ACTIVE /\
    timer_expire (w_li w') fsm_timer = 0.
Proof.
  assert (Hinv : fsm_inv sample_world_edge).
  { destruct (drag_state_effect sample_externals sample_mem_edge 1%nat 1000000
                world_init sample_world_edge true world_init_inv) as [H _];
      [vm_compute; reflexivity | exact H]. }
  assert (Hn : next_state_of sample_externals (sample_mem_centre 1%nat)
               = STATE_DRAG_ACTIVE) by (vm_compute; reflexivity).
  destruct (away_from_edge_timer_is_off sample_externals sample_mem_centre 1%nat 0
              sample_world_edge Hinv ltac:(rewrite Hn; discriminate))
    as (_ & w' & Hr & Hs & Hz & _).
  split; [exact Hinv|]. split; [exact Hn|].
  exists w'. split; [exact Hr|]. split; [rewrite Hs; exact Hn | exact Hz].
Defined.

(** X19: an evaluation repeated on unchanged input, at whatever time,
    changes nothing and returns the same result: the machine only moves when
    the drag state or the detected edge does. *)
Theorem evaluation_is_idempotent (X : externals) (mem : tp_ptr -> tp_dispatch)
  (tpp : tp_ptr) (time time' : Z) (w w' : world) (b : bool) :
  tp_edge_motion_handle_drag_state X mem tpp time w = Some (w', b) ->
  tp_edge_motion_handle_drag_state X mem tpp time' w' = Some (w', b).
Proof.
  intros H.
  destruct (drag_state_result _ _ _ _ _ _ _ H) as (Hb & Hs & Ht & _ & He).
  rewrite bound_world_tp in Ht.
  assert (Hbw : bound_world tpp w' = w').
  { eapply bound_world_bound. exact Ht. }
  assert (Heq : next_state_of X (mem tpp)
                = current_state (w_fsm (bound_world tpp w')))
    by (rewrite Hbw; congruence).
  rewrite (drag_state_stay X mem tpp time' w' Heq), Hbw. subst b.
  destruct (edge_motion_state_eqb_spec (current_state (w_fsm w'))
              STATE_EDGE_MOTION) as [Hedge|Hedge]; [|reflexivity].
  rewrite (He Hedge), Z.eqb_refl. reflexivity.
Qed.

Lemma evaluation_is_idempotent_witness :
  tp_edge_motion_handle_drag_state sample_externals sample_mem_edge 1%nat
    1000000 world_init = Some (sample_world_edge, true) /\
  tp_edge_motion_handle_drag_state sample_externals sample_mem_edge 1%nat
    1000500 sample_world_edge = Some (sample_world_edge, true).
Proof.
  assert (H : tp_edge_motion_handle_drag_state sample_externals sample_mem_edge
                1%nat 1000000 world_init = Some (sample_world_edge, true))
    by (vm_compute; reflexivity).
  split; [exact H|].
  exact (evaluation_is_idempotent _ _ _ _ 1000500 _ _ _ H).
Defined.

(** X20: while the machine stays in [STATE_EDGE_MOTION], a change of the
    detected edge replaces the recorded edge and direction and nothing else:
    the timer subsystem, the last-injection time, the counter and the
    notifications are as before. *)
Theorem edge_change_keeps_timer (X : externals) (mem : tp_ptr -> tp_dispatch)
  (tpp A : tp_ptr) (time : Z) (w : world) :
  tp (w_fsm w) = Some A ->
  current_state (w_fsm w) = STATE_EDGE_MOTION ->
  next_state_of X (mem tpp) = STATE_EDGE_MOTION ->
  exists w',
    tp_edge_motion_handle_drag_state X mem tpp time w = Some (w', true) /\
    w_li w' = w_li w /\ w_motion w' = w_motion w /\
    last_motion_time (w_fsm w') = last_motion_time (w_fsm w) /\
    continuous_motion_count (w_fsm w') = continuous_motion_count (w_fsm w) /\
    current_edge (w_fsm w') = detected_edge_of X (mem tpp) /\
    (detected_edge_of X (mem tpp) <> current_edge (w_fsm w) ->
     (motion_dx (w_fsm w'), motion_dy (w_fsm w'))
       = calculate_motion_vector (edges X) (detected_edge_of X (mem tpp))).
Proof.
  intros Htp Hs Hnext.
  pose proof (bound_world_bound tpp w A Htp) as Hb.
  assert (Heq : next_state_of X (mem tpp)
                = current_state (w_fsm (bound_world tpp w)))
    by (rewrite Hb; congruence).
  rewrite (drag_state_stay X mem tpp time w Heq), Hb, Hs. simpl.
  destruct (Z.eqb_spec (detected_edge_of X (mem tpp)) (current_edge (w_fsm w)))
    as [Hd|Hd]; simpl; eexists; (split; [reflexivity|]); simpl.
  - split; [reflexivity|]. split; [reflexivity|]. split; [reflexivity|].
    split; [reflexivity|]. split; [congruence|]. intros Hc. contradiction.
  - split; [reflexivity|]. split; [reflexivity|]. split; [reflexivity|].
    split; [reflexivity|]. split; [reflexivity|]. intros _.
    destruct (calculate_motion_vector (edges X) (detected_edge_of X (mem tpp)));
      reflexivity.
Qed.

Lemma edge_change_keeps_timer_witness :
  let mem := fun p : tp_ptr => sample_tp p 1000 TAP_STATE_1FGTAP_DRAGGING 10 10 in
  tp (w_fsm sample_world_edge) = Some 1%nat /\
  current_state (w_fsm sample_world_edge) = STATE_EDGE_MOTION /\
  exists w',
    tp_edge_motion_handle_drag_state sample_externals mem 1%nat 1004000
      sample_world_edge = Some (w', true) /\
    current_edge (w_fsm w') = 5 /\
    timer_expire (w_li w') fsm_timer = 1008000 /\
    last_motion_time (w_fsm w') = 1000000.
Proof.
  intros mem.
  assert (Hs : current_state (w_fsm sample_world_edge) = STATE_EDGE_MOTION)
    by (vm_compute; reflexivity).
  assert (Hn : next_state_of sample_externals (mem 1%nat) = STATE_EDGE_MOTION)
    by (vm_compute; reflexivity).
  destruct (edge_change_keeps_timer sample_externals mem 1%nat 1%nat 1004000
              sample_world_edge sample_world_edge_bound Hs Hn)
    as (w' & Hr & Hli & _ & Hlast & _ & Hedge & _).
  split; [exact sample_world_edge_bound|]. split; [exact Hs|].
  exists w'. split; [exact Hr|].
  split; [rewrite Hedge; vm_compute; reflexivity|].
  split; [rewrite Hli; vm_compute; reflexivity|].
  rewrite Hlast. vm_compute. reflexivity.
Defined.

Lemma inject_counts X mem tpp now f out f' out' :
  inject_accumulated_motion X mem tpp now f out = Some (f', out') ->
  (out' = out /\ continuous_motion_count f' = continuous_motion_count f) \/
  (exists ev, out' = out ++ [ev] /\ ev_time ev = now /\
     continuous_motion_count f' = to_u64 (continuous_motion_count f + 1) /\
     last_motion_time f' = now).
Proof.
  unfold inject_accumulated_motion.
  destruct (last_motion_time f =? 0).
  - intros H. injection H as <- <-. left. split; reflexivity.
  - cbv zeta.
    destruct (EDGE_MOTION_CONFIG_SPEED_MM_S
              * (double_of_int (to_u64 (now - last_motion_time f)) / 1000000.0)
              <? 0.001)%float.
    + intros H. injection H as <- <-. left. split; reflexivity.
    + destruct tpp as [p|]; [|discriminate].
      intros H. injection H as <- <-. right. eexists. repeat split.
Qed.

(** X21: every invocation of the timer callback sends at most one
    notification, stamped with the callback's time, and the
    continuous-motion counter goes up by exactly the number of notifications
    sent. *)
Theorem counter_counts_notifications (X : externals) (mem : tp_ptr -> tp_dispatch)
  (now : Z) (f f' : edge_motion_fsm) (out out' : list motion_event)
  (ops : list timer_op) :
  tp_edge_motion_handle_timeout X mem now (f, out) = Some ((f', out'), ops) ->
  (out' = out /\ continuous_motion_count f' = continuous_motion_count f) \/
  (exists ev, out' = out ++ [ev] /\ ev_time ev = now /\
     continuous_motion_count f' = to_u64 (continuous_motion_count f + 1) /\
     last_motion_time f' = now).
Proof.
  intros H.
  destruct (edge_motion_state_eqb_spec (current_state f) STATE_EDGE_MOTION)
    as [He|He].
  - rewrite (handle_timeout_edge_motion _ _ _ _ _ He) in H.
    destruct (inject_accumulated_motion X mem (tp f) now f out)
      as [[f1 out1]|] eqn:Hinj; [|discriminate].
    inversion H; subst f1 out1 ops; clear H.
    eapply inject_counts; eassumption.
  - rewrite (handle_timeout_other_state _ _ _ _ _ He) in H.
    inversion H; subst f' out' ops. left. split; reflexivity.
Qed.

Lemma counter_counts_notifications_witness :
  exists f' ev ops,
    tp_edge_motion_handle_timeout sample_externals sample_mem_edge 1008000
      (w_fsm sample_world_edge, w_motion sample_world_edge)
      = Some ((f', [ev]), ops) /\
    continuous_motion_count f' = 1 /\ ev_time ev = 1008000.
Proof.
  pose (r := tp_edge_motion_handle_timeout sample_externals sample_mem_edge
               1008000 (w_fsm sample_world_edge, w_motion sample_world_edge)).
  pose (res := option_or ((fsm_zero, []), []) r).
  assert (Hr : tp_edge_motion_handle_timeout sample_externals sample_mem_edge
                 1008000 (w_fsm sample_world_edge, w_motion sample_world_edge)
               = Some ((fst (fst res), snd (fst res)), snd res))
    by (vm_compute; reflexivity).
  destruct (counter_counts_notifications _ _ _ _ _ _ _ _ Hr)
    as [[Hsame _] | (ev & Hout & Htime & Hcount & _)].
  - exfalso. vm_compute in Hsame. discriminate Hsame.
  - exists (fst (fst res)), ev, (snd res).
    split; [|split; [rewrite Hcount; vm_compute; reflexivity | exact Htime]].
    rewrite Hr. rewrite Hout. vm_compute. reflexivity.
Defined.

Lemma holds_on_range_spec (P : Z -> bool) (depth : nat) : forall lo,
  holds_on_range P depth lo = true ->
  forall e, lo <= e < lo + 2 ^ Z.of_nat depth -> P e = true.
Proof.
  induction depth as [|d IH]; intros lo H e He.
  - simpl in *. replace e with lo by lia. exact H.
  - simpl holds_on_range in H. apply andb_true_iff in H. destruct H as [H1 H2].
    rewrite Nat2Z.inj_succ, Z.pow_succ_r in He by lia.
    destruct (Z.lt_ge_cases e (lo + 2 ^ Z.of_nat d)).
    + apply (IH lo H1). lia.
    + apply (IH _ H2). lia.
Qed.

Lemma negligible_below_15us (e : Z) :
  0 <= e < 15 -> negligible_distance e = true.
Proof.
  intros He.
  assert (H : holds_on_range
                (fun x => negligible_distance x || (15 <=? x)) 4 0 = true)
    by (vm_compute; reflexivity).
  pose proof (holds_on_range_spec _ 4 0 H e ltac:(simpl; lia)) as Hp.
  simpl in Hp. destruct (Z.leb_spec 15 e); [lia|].
  now rewrite orb_false_r in Hp.
Qed.

Lemma not_negligible_from_15us (e : Z) :
  15 <= e <= 16000 -> negligible_distance e = false.
Proof.
  intros He. apply negb_true_iff.
  assert (H : holds_on_range (fun x => negb (negligible_distance x)) 14 15 = true)
    by (vm_compute; reflexivity).
  apply (holds_on_range_spec _ 14 15 H e).
  change (2 ^ Z.of_nat 14) with 16384. lia.
Qed.

(** X22: an injection less than 15 us after the last one sends nothing and
    keeps the last-injection time, so that the time not accounted for
    accumulates; from 15 us on (checked up to 16 ms) one notification is
    sent, for the whole time elapsed since the last one, and the counter and
    the last-injection time advance. *)
Theorem short_intervals_accumulate (X : externals) (mem : tp_ptr -> tp_dispatch)
  (tpp : option tp_ptr) (now : Z) (f : edge_motion_fsm) (out : list motion_event) :
  last_motion_time f <> 0 ->
  let elapsed := to_u64 (now - last_motion_time f) in
  (elapsed < 15 ->
   inject_accumulated_motion X mem tpp now f out = Some (f, out)) /\
  (15 <= elapsed <= 16000 -> forall p, tpp = Some p ->
   inject_accumulated_motion X mem tpp now f out
     = Some (set_motion_count (set_last_motion_time f now)
               (to_u64 (continuous_motion_count f + 1)),
             out ++ [injected_event X mem p f now elapsed])).
Proof.
  intros Hz elapsed.
  assert (H0 : 0 <= elapsed)
    by (unfold elapsed, to_u64; apply Z.mod_pos_bound; unfold UINT64_MOD; lia).
  unfold inject_accumulated_motion.
  destruct (Z.eqb_spec (last_motion_time f) 0); [contradiction|].
  cbv zeta. fold elapsed. fold (negligible_distance elapsed). split.
  - intros Hlt. now rewrite negligible_below_15us by lia.
  - intros Hr p ->. now rewrite not_negligible_from_15us by lia.
Qed.

Lemma short_intervals_accumulate_witness :
  let f := w_fsm sample_world_edge in
  last_motion_time f = 1000000 /\
  inject_accumulated_motion sample_externals sample_mem_edge (Some 1%nat)
    1000010 f [] = Some (f, []) /\
  exists f',
    inject_accumulated_motion sample_externals sample_mem_edge (Some 1%nat)
      1000020 f []
    = Some (f', [injected_event sample_externals sample_mem_edge 1%nat f
                   1000020 20]).
Proof.
  intros f.
  assert (Hl : last_motion_time f = 1000000) by (vm_compute; reflexivity).
  assert (Hz : last_motion_time f <> 0) by (rewrite Hl; discriminate).
  destruct (short_intervals_accumulate sample_externals sample_mem_edge
              (Some 1%nat) 1000010 f [] Hz) as [Hshort _].
  destruct (short_intervals_accumulate sample_externals sample_mem_edge
              (Some 1%nat) 1000020 f [] Hz) as [_ Hlong].
  split; [exact Hl|].
  split; [apply Hshort; rewrite Hl; vm_compute; reflexivity|].
  eexists. rewrite (Hlong ltac:(rewrite Hl; vm_compute; split; discriminate)
                      1%nat eq_refl).
  rewrite Hl. reflexivity.
Defined.

(** X23: [tp_edge_motion_cleanup] passes the assertion of
    [libinput_timer_destroy] exactly outside of [STATE_EDGE_MOTION]; it
    leaves the machine idle and unbound, with the timer list and the
    notifications as they were, and the next evaluation binds the machine to
    the device it is called for. *)
Theorem cleanup_unbinds (w : world) :
  fsm_inv w ->
  (tp_edge_motion_cleanup w <> None <->
   current_state (w_fsm w) <> STATE_EDGE_MOTION) /\
  forall w', tp_edge_motion_cleanup w = Some w' ->
    tp (w_fsm w') = None /\ current_state (w_fsm w') = STATE_IDLE /\
    timer_list (w_li w') = timer_list (w_li w) /\ w_motion w' = w_motion w /\
    forall X mem B time w'' b,
      tp_edge_motion_handle_drag_state X mem B time w' = Some (w'', b) ->
      tp (w_fsm w'') = Some B.
Proof.
  intros Hinv. split.
  - split.
    + intros Hsome.
      destruct (tp_edge_motion_cleanup w) as [w'|] eqn:Hc; [|contradiction].
      apply (cleanup_effect w w' Hinv Hc).
    + intros Hne. destruct Hinv as (Ha & _ & _ & Ht).
      assert (Hz : timer_expire (w_li w) fsm_timer = 0).
      { destruct (Z.eq_dec (timer_expire (w_li w) fsm_timer) 0); [assumption|].
        exfalso. apply Hne, Ha. assumption. }
      assert (Hnot : ~ In fsm_timer (timer_list (w_li w)))
        by (intros Hin; apply Ht in Hin; contradiction).
      unfold tp_edge_motion_cleanup, libinput_timer_destroy.
      destruct (tp (w_fsm w)); [|discriminate].
      destruct (in_dec Nat.eq_dec fsm_timer (timer_list (w_li w)));
        [contradiction | discriminate].
  - intros w' Hc.
    assert (Hw : w' = {| w_fsm := fsm_zero;
                         w_li := memset_fsm_timer (w_li w);
                         w_motion := w_motion w |}).
    { unfold tp_edge_motion_cleanup, libinput_timer_destroy in Hc.
      destruct (tp (w_fsm w)).
      - destruct (in_dec Nat.eq_dec fsm_timer (timer_list (w_li w)));
          [discriminate|]. now injection Hc as <-.
      - now injection Hc as <-. }
    subst w'. simpl.
    split; [reflexivity|]. split; [reflexivity|]. split; [reflexivity|].
    split; [reflexivity|].
    intros X mem B time w'' b H.
    destruct (drag_state_result _ _ _ _ _ _ _ H) as (_ & _ & Ht & _).
    rewrite Ht, bound_world_tp. reflexivity.
Qed.

Lemma cleanup_unbinds_witness :
  fsm_inv sample_world_idle /\
  tp (w_fsm sample_world_idle) = Some 1%nat /\
  exists w' w'',
    tp_edge_motion_cleanup sample_world_idle = Some w' /\
    tp (w_fsm w') = None /\
    tp_edge_motion_handle_drag_state sample_externals sample_mem_centre 2%nat
      2000000 w' = Some (w'', false) /\
    tp (w_fsm w'') = Some 2%nat.
Proof.
  assert (Hinv1 : fsm_inv sample_world_edge).
  { destruct (drag_state_effect sample_externals sample_mem_edge 1%nat 1000000
                world_init sample_world_edge true world_init_inv) as [H _];
      [vm_compute; reflexivity | exact H]. }
  assert (Hinv : fsm_inv sample_world_idle).
  { destruct (drag_state_effect sample_externals sample_mem_idle 1%nat 1004000
                sample_world_edge sample_world_idle false Hinv1) as [H _];
      [vm_compute; reflexivity | exact H]. }
  destruct (cleanup_unbinds sample_world_idle Hinv) as [Hiff Hafter].
  destruct (tp_edge_motion_cleanup sample_world_idle) as [w'|] eqn:Hc.
  - destruct (Hafter w' eq_refl) as (Htp & _ & _ & _ & Hbind).
    destruct (drag_state_runs sample_externals sample_mem_centre 2%nat 2000000 w')
      as (w'' & b & Hr); [vm_compute; discriminate|].
    assert (Hb : b = false).
    { destruct (drag_state_result _ _ _ _ _ _ _ Hr) as (Hb & Hs & _).
      rewrite Hb, Hs. vm_compute. reflexivity. }
    subst b.
    split; [exact Hinv|]. split; [vm_compute; reflexivity|].
    exists w', w''. split; [reflexivity|]. split; [exact Htp|].
    split; [exact Hr | exact (Hbind _ _ _ _ _ _ Hr)].
  - exfalso. apply (proj2 Hiff); [vm_compute; discriminate | reflexivity].
Defined.

(** One dispatch at the expiry of the edge-motion timer, the only timer of
    the context, one interval after the last injection. *)
Lemma edge_motion_dispatch_step X mem now li f out p :
  timer_list li = [fsm_timer] ->
  timer_expire li fsm_timer = now ->
  EDGE_MOTION_CONFIG_MIN_INTERVAL_US < now ->
  now + EDGE_MOTION_CONFIG_MIN_INTERVAL_US < UINT64_MOD ->
  current_state f = STATE_EDGE_MOTION -> tp f = Some p ->
  last_motion_time f = now - EDGE_MOTION_CONFIG_MIN_INTERVAL_US ->
  exists li' call,
    libinput_timer_handler (edge_motion_timer_func X mem) 2 li (f, out) now
      = Returned
          (li',
           (set_motion_count (set_last_motion_time f now)
              (to_u64 (continuous_motion_count f + 1)),
            out ++ [injected_event X mem p f now
                      EDGE_MOTION_CONFIG_MIN_INTERVAL_US]),
           [call]) /\
    timer_list li' = [fsm_timer] /\
    timer_expire li' fsm_timer = now + EDGE_MOTION_CONFIG_MIN_INTERVAL_US.
Proof.
  unfold EDGE_MOTION_CONFIG_MIN_INTERVAL_US at 1 2.
  intros Hl He Hpos Hwrap Hs Htp Hlast.
  assert (Hnz : timer_expire li fsm_timer <> 0) by lia.
  assert (Hf : first_expired (timer_expire li) now (timer_list li) = Some fsm_timer)
    by (rewrite Hl; apply first_expired_head; lia).
  assert (Hnext : to_u64 (now + EDGE_MOTION_CONFIG_MIN_INTERVAL_US)
                  = now + EDGE_MOTION_CONFIG_MIN_INTERVAL_US)
    by (apply to_u64_small; unfold EDGE_MOTION_CONFIG_MIN_INTERVAL_US; lia).
  assert (Hcb : edge_motion_timer_func X mem fsm_timer now (f, out)
                = Some ((set_motion_count (set_last_motion_time f now)
                           (to_u64 (continuous_motion_count f + 1)),
                         out ++ [injected_event X mem p f now
                                   EDGE_MOTION_CONFIG_MIN_INTERVAL_US]),
                        [TimerSet fsm_timer
                           (now + EDGE_MOTION_CONFIG_MIN_INTERVAL_US)
                           TIMER_FLAG_NONE])).
  { unfold edge_motion_timer_func. rewrite Nat.eqb_refl.
    rewrite (handle_timeout_edge_motion _ _ _ _ _ Hs), Htp.
    rewrite inject_after_interval, Hnext; [reflexivity | |].
    - rewrite Hlast. unfold EDGE_MOTION_CONFIG_MIN_INTERVAL_US. lia.
    - rewrite Hlast.
      replace (now - (now - EDGE_MOTION_CONFIG_MIN_INTERVAL_US))
        with EDGE_MOTION_CONFIG_MIN_INTERVAL_US by lia.
      reflexivity. }
  destruct (set_flags_runs (libinput_timer_cancel li fsm_timer) fsm_timer
              (now + EDGE_MOTION_CONFIG_MIN_INTERVAL_US) TIMER_FLAG_NONE)
    as [li2 Hset]; [unfold EDGE_MOTION_CONFIG_MIN_INTERVAL_US; lia|].
  destruct (set_flags_Some _ _ _ _ _ Hset) as (_ & Hl2 & Hx2).
  rewrite cancel_timer_expire, Nat.eqb_refl in Hl2. simpl in Hl2.
  rewrite cancel_timer_list, Hl in Hl2.
  destruct (Z.eqb_spec (timer_expire li fsm_timer) 0); [contradiction|].
  unfold list_remove in Hl2. simpl in Hl2.
  assert (He2 : timer_expire li2 fsm_timer
                = now + EDGE_MOTION_CONFIG_MIN_INTERVAL_US)
    by (rewrite Hx2; apply set_expire_same).
  assert (Hf2 : first_expired (timer_expire li2) now (timer_list li2) = None).
  { apply first_expired_nothing. intros t Hin. rewrite Hl2 in Hin.
    destruct Hin as [<-|[]]. right. rewrite He2.
    unfold EDGE_MOTION_CONFIG_MIN_INTERVAL_US. lia. }
  eexists li2, _. split; [|split; [exact Hl2 | exact He2]].
  rewrite handler_unfold, Hf. cbv zeta. rewrite Hcb.
  simpl run_ops. rewrite Hset.
  rewrite handler_unfold, Hf2. reflexivity.
Qed.

(** X24: while the machine stays in [STATE_EDGE_MOTION] with its timer the
    only one of the context, [k] dispatches at the successive expiries send
    exactly [k] motion notifications, one every
    [EDGE_MOTION_CONFIG_MIN_INTERVAL_US], all for the device of the bound
    touchpad; the counter grows by [k] and the timer is armed for the next
    interval. *)
Theorem edge_motion_runs_periodically X mem p (k : nat) : forall now li f out,
  timer_list li = [fsm_timer] ->
  timer_expire li fsm_timer = now ->
  EDGE_MOTION_CONFIG_MIN_INTERVAL_US < now ->
  now + EDGE_MOTION_CONFIG_MIN_INTERVAL_US * Z.of_nat k < UINT64_MOD ->
  current_state f = STATE_EDGE_MOTION -> tp f = Some p ->
  last_motion_time f = now - EDGE_MOTION_CONFIG_MIN_INTERVAL_US ->
  0 <= continuous_motion_count f ->
  continuous_motion_count f + Z.of_nat k < UINT64_MOD ->
  exists li' f' evs,
    edge_motion_dispatches X mem k now li (f, out)
      = Returned (li', (f', out ++ evs)) /\
    map ev_time evs
      = map (fun i => now + EDGE_MOTION_CONFIG_MIN_INTERVAL_US * Z.of_nat i)
          (seq 0 k) /\
    Forall (fun ev => ev_device ev = base (device (mem p))) evs /\
    continuous_motion_count f' = continuous_motion_count f + Z.of_nat k /\
    current_state f' = STATE_EDGE_MOTION /\
    timer_expire li' fsm_timer
      = now + EDGE_MOTION_CONFIG_MIN_INTERVAL_US * Z.of_nat k.
Proof.
  induction k as [|k IH]; intros now li f out Hl He Hpos Hwrap Hs Htp Hlast Hc0 Hc.
  - exists li, f, []. simpl. rewrite app_nil_r.
    repeat split; try constructor; try assumption; lia.
  - destruct (edge_motion_dispatch_step X mem now li f out p Hl He Hpos)
      as (li1 & call & Hstep & Hl1 & He1); try assumption;
      [unfold EDGE_MOTION_CONFIG_MIN_INTERVAL_US in *; lia|].
    assert (Hcount : to_u64 (continuous_motion_count f + 1)
                     = continuous_motion_count f + 1)
      by (apply to_u64_small; lia).
    destruct (IH (now + EDGE_MOTION_CONFIG_MIN_INTERVAL_US) li1
                (set_motion_count (set_last_motion_time f now)
                   (to_u64 (continuous_motion_count f + 1)))
                (out ++ [injected_event X mem p f now
                           EDGE_MOTION_CONFIG_MIN_INTERVAL_US]))
      as (li' & f' & evs & Hrun & Htimes & Hdev & Hcnt & Hst & Hexp);
      try assumption;
      try (unfold EDGE_MOTION_CONFIG_MIN_INTERVAL_US in *; lia);
      try (unfold set_motion_count, set_last_motion_time;
           cbn [continuous_motion_count last_motion_time];
           unfold EDGE_MOTION_CONFIG_MIN_INTERVAL_US in *; lia).
    exists li', f',
      (injected_event X mem p f now EDGE_MOTION_CONFIG_MIN_INTERVAL_US :: evs).
    split; [|split; [|split; [|split; [|split]]]].
    + cbn [edge_motion_dispatches]. rewrite Hstep, Hrun.
      rewrite <- app_assoc. reflexivity.
    + cbn [seq map]. rewrite Htimes. f_equal.
      * simpl. unfold EDGE_MOTION_CONFIG_MIN_INTERVAL_US. lia.
      * rewrite <- seq_shift, map_map. apply map_ext. intros i.
        unfold EDGE_MOTION_CONFIG_MIN_INTERVAL_US. lia.
    + constructor; [reflexivity | exact Hdev].
    + rewrite Hcnt. simpl. lia.
    + exact Hst.
    + rewrite Hexp. unfold EDGE_MOTION_CONFIG_MIN_INTERVAL_US. lia.
Qed.

Lemma edge_motion_runs_periodically_witness :
  exists li' f' evs,
    edge_motion_dispatches sample_externals sample_mem_edge 3 1008000
      (w_li sample_world_edge) (w_fsm sample_world_edge, w_motion sample_world_edge)
      = Returned (li', (f', w_motion sample_world_edge ++ evs)) /\
    map ev_time evs = [1008000; 1016000; 1024000] /\
    continuous_motion_count f'
      = continuous_motion_count (w_fsm sample_world_edge) + 3 /\
    timer_expire li' fsm_timer = 1032000.
Proof.
  assert (H1 : timer_list (w_li sample_world_edge) = [fsm_timer])
    by (vm_compute; reflexivity).
  assert (H2 : timer_expire (w_li sample_world_edge) fsm_timer = 1008000)
    by (vm_compute; reflexivity).
  assert (H3 : EDGE_MOTION_CONFIG_MIN_INTERVAL_US < 1008000)
    by (vm_compute; reflexivity).
  assert (H4 : 1008000 + EDGE_MOTION_CONFIG_MIN_INTERVAL_US * Z.of_nat 3
               < UINT64_MOD) by (vm_compute; reflexivity).
  assert (H5 : current_state (w_fsm sample_world_edge) = STATE_EDGE_MOTION)
    by (vm_compute; reflexivity).
  assert (H6 : tp (w_fsm sample_world_edge) = Some 1%nat)
    by (vm_compute; reflexivity).
  assert (H7 : last_motion_time (w_fsm sample_world_edge)
               = 1008000 - EDGE_MOTION_CONFIG_MIN_INTERVAL_US)
    by (vm_compute; reflexivity).
  assert (H8 : 0 <= continuous_motion_count (w_fsm sample_world_edge))
    by (vm_compute; discriminate).
  assert (H9 : continuous_motion_count (w_fsm sample_world_edge) + Z.of_nat 3
               < UINT64_MOD) by (vm_compute; reflexivity).
  destruct (edge_motion_runs_periodically sample_externals sample_mem_edge
              1%nat 3 1008000 (w_li sample_world_edge) (w_fsm sample_world_edge)
              (w_motion sample_world_edge) H1 H2 H3 H4 H5 H6 H7 H8 H9)
    as (li' & f' & evs & Hrun & Ht & _ & Hc & _ & He).
  exists li', f', evs. split; [exact Hrun|].
  split; [exact Ht|]. split; [exact Hc | exact He].
Defined.

(** ** The Lua plugins *)

Lemma copilot_frame_prefix E device pre : forall g g1 calls rest,
  CopilotKey.frame E device g pre = (g1, calls, None) ->
  calls = [] /\
  CopilotKey.frame E device g (pre ++ rest) = CopilotKey.frame E device g1 rest.
Proof.
  induction pre as [|v pre IH]; intros g g1 calls rest H.
  - cbn in H. injection H as <- <-. split; reflexivity.
  - cbn [CopilotKey.frame app] in *.
    destruct (negb (Lua.value v =? 2)); [|now apply IH].
    destruct (Lua.usage v =? Lua.KEY_LEFTMETA E); [now apply IH|].
    destruct (Lua.usage v =? Lua.KEY_LEFTSHIFT E); [now apply IH|].
    destruct ((Lua.usage v =? Lua.KEY_F23 E) && CopilotKey.meta_is_down g
              && CopilotKey.shift_is_down g); [|now apply IH].
    destruct (Lua.value v =? 1); discriminate.
Qed.

(** X25: the Copilot plugin ignores key repeats: a frame and the same frame
    without its events of value 2 set the same globals, make the same calls
    on the device and return the same result. *)
Theorem copilot_ignores_key_repeats E device events : forall g,
  CopilotKey.frame E device g
    (filter (fun v => negb (CopilotKey.is_repeat v)) events)
  = CopilotKey.frame E device g events.
Proof.
  induction events as [|v rest IH]; intros g; [reflexivity|].
  cbn [filter CopilotKey.frame]. unfold CopilotKey.is_repeat at 1.
  destruct (Lua.value v =? 2) eqn:Hv; cbn [negb]; [apply IH|].
  cbn [CopilotKey.frame]. rewrite Hv. cbn [negb].
  destruct (Lua.usage v =? Lua.KEY_LEFTMETA E); [apply IH|].
  destruct (Lua.usage v =? Lua.KEY_LEFTSHIFT E); [apply IH|].
  destruct ((Lua.usage v =? Lua.KEY_F23 E) && CopilotKey.meta_is_down g
            && CopilotKey.shift_is_down g); [reflexivity | apply IH].
Qed.

(** X26: at the first [KEY_F23] event that is not a repeat and arrives with
    both modifiers down, the Copilot plugin discards the frame: a press
    releases shift and meta in front of the frame and appends the presses of
    the replacement sequence, a release appends the releases in reverse
    order; the events behind it in the frame are not read, so the globals
    stay as they were at that event. *)
Theorem copilot_trigger_discards_frame E device g pre v post g1 calls :
  CopilotKey.frame E device g pre = (g1, calls, None) ->
  Lua.value v <> 2 ->
  Lua.usage v = Lua.KEY_F23 E ->
  Lua.KEY_F23 E <> Lua.KEY_LEFTMETA E ->
  Lua.KEY_F23 E <> Lua.KEY_LEFTSHIFT E ->
  CopilotKey.meta_is_down g1 = true ->
  CopilotKey.shift_is_down g1 = true ->
  CopilotKey.frame E device g (pre ++ v :: post)
  = (g1,
     if Lua.value v =? 1 then
       [Lua.prepend_frame device
          [lua_event (Lua.KEY_LEFTSHIFT E) 0; lua_event (Lua.KEY_LEFTMETA E) 0];
        Lua.append_frame device
          (map (fun rv => lua_event rv 1) (CopilotKey.replacement_sequence g1))]
     else
       [Lua.append_frame device
          (rev (map (fun rv => lua_event rv 0)
                  (CopilotKey.replacement_sequence g1)))],
     Some []).
Proof.
  intros Hpre Hv Hu Hm Hs Hmeta Hshift.
  destruct (copilot_frame_prefix E device pre g g1 calls (v :: post) Hpre)
    as [_ ->].
  cbn [CopilotKey.frame]. rewrite Hu, Hmeta, Hshift, Z.eqb_refl.
  destruct (Z.eqb_spec (Lua.value v) 2); [contradiction|].
  destruct (Z.eqb_spec (Lua.KEY_F23 E) (Lua.KEY_LEFTMETA E)); [contradiction|].
  destruct (Z.eqb_spec (Lua.KEY_F23 E) (Lua.KEY_LEFTSHIFT E)); [contradiction|].
  cbn [negb andb]. rewrite map_rev.
  destruct (Lua.value v =? 1); reflexivity.
Qed.

Lemma copilot_trigger_discards_frame_witness :
  let g := CopilotKey.set_shift_is_down
             (CopilotKey.set_meta_is_down
                (CopilotKey.globals_init sample_evdev) true) true in
  CopilotKey.frame sample_evdev 1%nat g
    [lua_event (Lua.KEY_F23 sample_evdev) 0;
     lua_event (Lua.KEY_LEFTSHIFT sample_evdev) 0;
     lua_event (Lua.KEY_LEFTMETA sample_evdev) 0]
  = (g,
     [Lua.append_frame 1%nat
        [lua_event (Lua.KEY_A sample_evdev) 0;
         lua_event (Lua.KEY_LEFTSHIFT sample_evdev) 0]],
     Some []).
Proof.
  intros g.
  apply (copilot_trigger_discards_frame sample_evdev 1%nat g []
           (lua_event (Lua.KEY_F23 sample_evdev) 0)
           [lua_event (Lua.KEY_LEFTSHIFT sample_evdev) 0;
            lua_event (Lua.KEY_LEFTMETA sample_evdev) 0] g []);
    try reflexivity; vm_compute; discriminate.
Defined.

Lemma key_down_after_cons key down v rest :
  CopilotKey.key_down_after key down (v :: rest)
  = CopilotKey.key_down_after key
      (if negb (Lua.value v =? 2) && (Lua.usage v =? key)
       then Lua.value v =? 1 else down) rest.
Proof. reflexivity. Qed.

(** X27: a frame without a [KEY_F23] event passes the Copilot plugin as it
    is, with no call on the device; afterwards [meta_is_down] and
    [shift_is_down] tell whether the last event of the key that is not a
    repeat was a press. *)
Theorem copilot_passes_other_frames E device events : forall g,
  Lua.KEY_LEFTMETA E <> Lua.KEY_LEFTSHIFT E ->
  (forall v, In v events -> Lua.usage v <> Lua.KEY_F23 E) ->
  CopilotKey.frame E device g events
  = ({| CopilotKey.meta_is_down :=
          CopilotKey.key_down_after (Lua.KEY_LEFTMETA E)
            (CopilotKey.meta_is_down g) events;
        CopilotKey.shift_is_down :=
          CopilotKey.key_down_after (Lua.KEY_LEFTSHIFT E)
            (CopilotKey.shift_is_down g) events;
        CopilotKey.replacement_sequence := CopilotKey.replacement_sequence g |},
     [], None).
Proof.
  induction events as [|v rest IH]; intros g Hd Hno.
  - destruct g; reflexivity.
  - assert (Hrest : forall x, In x rest -> Lua.usage x <> Lua.KEY_F23 E)
      by (intros x Hx; apply Hno; now right).
    assert (Hv : Lua.usage v <> Lua.KEY_F23 E) by (apply Hno; now left).
    rewrite !key_down_after_cons. cbn [CopilotKey.frame].
    destruct (negb (Lua.value v =? 2)); cbn [andb]; [|now apply IH].
    destruct (Z.eqb_spec (Lua.usage v) (Lua.KEY_LEFTMETA E)) as [Hm|Hm].
    + rewrite (IH _ Hd Hrest). cbn.
      destruct (Z.eqb_spec (Lua.usage v) (Lua.KEY_LEFTSHIFT E)); [congruence|].
      reflexivity.
    + destruct (Z.eqb_spec (Lua.usage v) (Lua.KEY_LEFTSHIFT E)) as [Hs|Hs].
      * rewrite (IH _ Hd Hrest). reflexivity.
      * destruct (Z.eqb_spec (Lua.usage v) (Lua.KEY_F23 E)); [contradiction|].
        cbn [andb]. now apply IH.
Qed.

Lemma copilot_passes_other_frames_witness :
  CopilotKey.frame sample_evdev 1%nat (CopilotKey.globals_init sample_evdev)
    [lua_event (Lua.KEY_LEFTMETA sample_evdev) 1;
     lua_event (Lua.KEY_LEFTSHIFT sample_evdev) 1;
     lua_event (Lua.KEY_LEFTSHIFT sample_evdev) 2;
     lua_event (Lua.KEY_LEFTMETA sample_evdev) 0]
  = (CopilotKey.set_shift_is_down (CopilotKey.globals_init sample_evdev) true,
     [], None).
Proof.
  apply (copilot_passes_other_frames sample_evdev 1%nat
           [lua_event (Lua.KEY_LEFTMETA sample_evdev) 1;
            lua_event (Lua.KEY_LEFTSHIFT sample_evdev) 1;
            lua_event (Lua.KEY_LEFTSHIFT sample_evdev) 2;
            lua_event (Lua.KEY_LEFTMETA sample_evdev) 0]
           (CopilotKey.globals_init sample_evdev)).
  - vm_compute. discriminate.
  - intros v [<-|[<-|[<-|[<-|[]]]]]; vm_compute; discriminate.
Defined.

Lemma map_frame_proximity E frame : forall events,
  existsb (TabletPointer.is_proximity E) frame = true ->
  TabletPointer.map_frame E frame events = None.
Proof.
  induction frame as [|v rest IH]; intros events H; [discriminate|].
  cbn [existsb] in H. cbn [TabletPointer.map_frame].
  unfold TabletPointer.is_proximity in H at 1.
  destruct (Lua.usage v =? Lua.ABS_MISC E); [reflexivity|].
  cbn [orb] in H.
  destruct (Lua.usage v =? Lua.ABS_X E); [now apply IH|].
  destruct (Lua.usage v =? Lua.ABS_Y E); [now apply IH|].
  destruct (Lua.usage v =? Lua.BTN_TOUCH E); [now apply IH|].
  destruct (Lua.usage v =? Lua.BTN_STYLUS E); [now apply IH|].
  destruct (Lua.usage v =? Lua.BTN_STYLUS2 E); now apply IH.
Qed.

Lemma map_frame_events E frame : forall events,
  existsb (TabletPointer.is_proximity E) frame = false ->
  exists added,
    TabletPointer.map_frame E frame events = Some (events ++ added) /\
    Forall (fun e => In (Lua.usage e) (TabletPointer.pointer_usages E)) added /\
    map Lua.value added
      = map Lua.value (filter (TabletPointer.is_forwarded E) frame).
Proof.
  induction frame as [|v rest IH]; intros events H.
  - exists []. rewrite app_nil_r. repeat split. constructor.
  - cbn [existsb] in H. apply orb_false_iff in H as [Hv Hrest].
    unfold TabletPointer.is_proximity in Hv.
    cbn [TabletPointer.map_frame filter]. rewrite Hv.
    unfold TabletPointer.is_forwarded at 1, TabletPointer.tablet_usages.
    cbn [existsb].
    assert (Hstep : forall u,
              In u (TabletPointer.pointer_usages E) ->
              exists added,
                TabletPointer.map_frame E rest
                  (events ++ [{| Lua.usage := u; Lua.value := Lua.value v |}])
                  = Some (events ++ added) /\
                Forall (fun e => In (Lua.usage e)
                                   (TabletPointer.pointer_usages E)) added /\
                map Lua.value added
                  = Lua.value v
                    :: map Lua.value
                         (filter (TabletPointer.is_forwarded E) rest)).
    { intros u Hu.
      destruct (IH (events ++ [{| Lua.usage := u; Lua.value := Lua.value v |}])
                  Hrest) as (added & Hm & Hf & Hvals).
      exists ({| Lua.usage := u; Lua.value := Lua.value v |} :: added).
      rewrite Hm, <- app_assoc. split; [reflexivity|].
      split; [constructor; assumption|]. cbn [map]. now rewrite Hvals. }
    unfold TabletPointer.pointer_usages in Hstep.
    destruct (Lua.usage v =? Lua.ABS_X E);
      [apply Hstep; cbn; tauto|].
    destruct (Lua.usage v =? Lua.ABS_Y E);
      [apply Hstep; cbn; tauto|].
    destruct (Lua.usage v =? Lua.BTN_TOUCH E);
      [apply Hstep; cbn; tauto|].
    destruct (Lua.usage v =? Lua.BTN_STYLUS E);
      [apply Hstep; cbn; tauto|].
    destruct (Lua.usage v =? Lua.BTN_STYLUS2 E);
      [apply Hstep; cbn; tauto|].
    cbn [orb]. apply IH, Hrest.
Qed.

(** X28: the tablet plugin leaves frames alone while no pointer device is
    known.  With one, every tablet frame is discarded; a frame with an
    [ABS_MISC] event sends nothing, any other frame sends to the pointer
    device, in one frame, the values of its position, touch and stylus
    button events, in order, under pointer usages only, and nothing when it
    has no such event. *)
Theorem tablet_frame_becomes_pointer_frame E pointer frame :
  TabletPointer.on_tablet_frame E None frame = ([], None) /\
  snd (TabletPointer.on_tablet_frame E (Some pointer) frame) = Some [] /\
  (existsb (TabletPointer.is_proximity E) frame = true ->
   fst (TabletPointer.on_tablet_frame E (Some pointer) frame) = []) /\
  (existsb (TabletPointer.is_proximity E) frame = false ->
   filter (TabletPointer.is_forwarded E) frame = [] ->
   fst (TabletPointer.on_tablet_frame E (Some pointer) frame) = []) /\
  (existsb (TabletPointer.is_proximity E) frame = false ->
   filter (TabletPointer.is_forwarded E) frame <> [] ->
   exists events,
     fst (TabletPointer.on_tablet_frame E (Some pointer) frame)
       = [Lua.append_frame pointer events] /\
     Forall (fun e => In (Lua.usage e) (TabletPointer.pointer_usages E)) events /\
     map Lua.value events
       = map Lua.value (filter (TabletPointer.is_forwarded E) frame)).
Proof.
  split; [reflexivity|]. split; [|split; [|split]].
  - unfold TabletPointer.on_tablet_frame.
    destruct (TabletPointer.map_frame E frame []); reflexivity.
  - intros H. unfold TabletPointer.on_tablet_frame.
    now rewrite (map_frame_proximity E frame [] H).
  - intros H Hnone. unfold TabletPointer.on_tablet_frame.
    destruct (map_frame_events E frame [] H) as (added & -> & _ & Hvals).
    rewrite Hnone in Hvals. destruct added; [reflexivity | discriminate].
  - intros H Hsome. unfold TabletPointer.on_tablet_frame.
    destruct (map_frame_events E frame [] H) as (added & -> & Hf & Hvals).
    exists added. cbn [app]. split; [|split; assumption].
    destruct added as [|e added]; [|reflexivity].
    destruct (filter (TabletPointer.is_forwarded E) frame);
      [contradiction | discriminate].
Qed.

Lemma tablet_frame_becomes_pointer_frame_witness :
  TabletPointer.on_tablet_frame sample_evdev (Some 2%nat)
    [lua_event (Lua.ABS_X sample_evdev) 100;
     lua_event 0x30018 512;
     lua_event (Lua.BTN_TOUCH sample_evdev) 1]
  = ([Lua.append_frame 2%nat
        [lua_event (Lua.ABS_X sample_evdev) 100;
         lua_event (Lua.BTN_LEFT sample_evdev) 1]],
     Some []) /\
  fst (TabletPointer.on_tablet_frame sample_evdev (Some 2%nat)
         [lua_event (Lua.ABS_X sample_evdev) 100;
          lua_event (Lua.ABS_MISC sample_evdev) 0]) = [].
Proof.
  destruct (tablet_frame_becomes_pointer_frame sample_evdev 2%nat
              [lua_event (Lua.ABS_X sample_evdev) 100;
               lua_event (Lua.ABS_MISC sample_evdev) 0])
    as (_ & _ & Hprox & _).
  split; [vm_compute; reflexivity|].
  apply Hprox. vm_compute. reflexivity.
Defined.

Lemma wheel_frame_loop_effect E frame : forall state events modified,
  (forall v, In v frame -> Lua.usage v <> WheelButton.wheel_button E) ->
  exists state' added,
    WheelButton.frame_loop E state frame events modified
      = (state', events ++ added,
         modified || existsb (WheelButton.is_wheel E) frame) /\
    WheelButton.alternates (WheelButton.truthy state)
      (WheelButton.button_values E added) /\
    WheelButton.truthy state'
      = (if Nat.even (length (WheelButton.button_values E added))
         then WheelButton.truthy state
         else negb (WheelButton.truthy state)) /\
    filter (fun v => negb (Lua.usage v =? WheelButton.wheel_button E)) added
      = filter (fun v => negb (WheelButton.is_wheel E v)) frame /\
    (existsb (WheelButton.is_wheel E) frame = false -> state' = state).
Proof.
  induction frame as [|v rest IH]; intros state events modified Hno.
  - exists state, []. cbn. rewrite app_nil_r, orb_false_r.
    split; [reflexivity|]. split; [exact I|].
    split; [reflexivity|]. split; reflexivity.
  - assert (Hrest : forall x, In x rest ->
                      Lua.usage x <> WheelButton.wheel_button E)
      by (intros x Hx; apply Hno; now right).
    assert (Hv : Lua.usage v <> WheelButton.wheel_button E)
      by (apply Hno; now left).
    cbn [WheelButton.frame_loop existsb filter].
    destruct (Lua.usage v =? Lua.REL_WHEEL E) eqn:Hw.
    + assert (Hiw : WheelButton.is_wheel E v = true)
        by (unfold WheelButton.is_wheel; now rewrite Hw).
      rewrite Hiw. cbn [orb negb]. rewrite orb_true_r.
      destruct (Lua.value v <? 0).
      * destruct (WheelButton.truthy state) eqn:Ht; cbn [negb].
        -- destruct (IH state events true Hrest)
             as (s' & added & Hl & Ha & Hs & Hf & _).
           exists s', added. rewrite Hl. rewrite Ht in Ha, Hs.
           split; [reflexivity|]. split; [exact Ha|].
           split; [exact Hs|]. split; [exact Hf | discriminate].
        -- destruct (IH (Some true)
                       (events ++ [{| Lua.usage := WheelButton.wheel_button E;
                                      Lua.value := 1 |}]) true Hrest)
             as (s' & added & Hl & Ha & Hs & Hf & _).
           exists s', ({| Lua.usage := WheelButton.wheel_button E;
                          Lua.value := 1 |} :: added).
           rewrite Hl, <- app_assoc. split; [reflexivity|].
           unfold WheelButton.button_values in *. cbn [filter Lua.usage].
           rewrite Z.eqb_refl. cbn [map length negb Lua.value].
           rewrite Nat.even_succ, <- Nat.negb_even.
           split; [split; [reflexivity | exact Ha]|].
           split; [rewrite Hs; cbn; now destruct (Nat.even _)|].
           split; [exact Hf | discriminate].
      * destruct (WheelButton.truthy state) eqn:Ht.
        -- destruct (IH (Some false)
                       (events ++ [{| Lua.usage := WheelButton.wheel_button E;
                                      Lua.value := 0 |}]) true Hrest)
             as (s' & added & Hl & Ha & Hs & Hf & _).
           exists s', ({| Lua.usage := WheelButton.wheel_button E;
                          Lua.value := 0 |} :: added).
           rewrite Hl, <- app_assoc. split; [reflexivity|].
           unfold WheelButton.button_values in *. cbn [filter Lua.usage].
           rewrite Z.eqb_refl. cbn [map length negb Lua.value].
           rewrite Nat.even_succ, <- Nat.negb_even.
           split; [split; [reflexivity | exact Ha]|].
           split; [rewrite Hs; cbn; now destruct (Nat.even _)|].
           split; [exact Hf | discriminate].
        -- destruct (IH state events true Hrest)
             as (s' & added & Hl & Ha & Hs & Hf & _).
           exists s', added. rewrite Hl. rewrite Ht in Ha, Hs.
           split; [reflexivity|]. split; [exact Ha|].
           split; [exact Hs|]. split; [exact Hf | discriminate].
    + destruct (Lua.usage v =? Lua.REL_WHEEL_HI_RES E) eqn:Hh.
      * assert (Hiw : WheelButton.is_wheel E v = true)
          by (unfold WheelButton.is_wheel; rewrite Hw, Hh; reflexivity).
        rewrite Hiw. cbn [orb negb]. rewrite orb_true_r.
        destruct (IH state events true Hrest)
          as (s' & added & Hl & Ha & Hs & Hf & _).
        exists s', added. rewrite Hl.
        split; [reflexivity|]. split; [exact Ha|].
        split; [exact Hs|]. split; [exact Hf | discriminate].
      * assert (Hiw : WheelButton.is_wheel E v = false)
          by (unfold WheelButton.is_wheel; rewrite Hw, Hh; reflexivity).
        rewrite Hiw. cbn [orb negb].
        destruct (IH state (events ++ [v]) modified Hrest)
          as (s' & added & Hl & Ha & Hs & Hf & Hsame).
        exists s', (v :: added). rewrite Hl, <- app_assoc.
        split; [reflexivity|].
        unfold WheelButton.button_values in *. cbn [filter].
        destruct (Z.eqb_spec (Lua.usage v) (WheelButton.wheel_button E));
          [contradiction|].
        cbn [negb]. rewrite Hf.
        split; [exact Ha|]. split; [exact Hs|].
        split; [reflexivity | exact Hsame].
Qed.

(** X29: in the frame that the wheel plugin returns for a frame without
    events of the wheel button, the button events alternate between press
    and release, starting from the state of the button at entry, and the
    state at exit has changed once for each of them. *)
Theorem wheel_button_alternates E state frame state' events :
  (forall v, In v frame -> Lua.usage v <> WheelButton.wheel_button E) ->
  WheelButton.evdev_frame E state frame = (state', Some events) ->
  WheelButton.alternates (WheelButton.truthy state)
    (WheelButton.button_values E events) /\
  WheelButton.truthy state'
    = (if Nat.even (length (WheelButton.button_values E events))
       then WheelButton.truthy state
       else negb (WheelButton.truthy state)).
Proof.
  intros Hno H. unfold WheelButton.evdev_frame in H.
  destruct (wheel_frame_loop_effect E frame state [] false Hno)
    as (s' & added & Hl & Ha & Hs & _).
  rewrite Hl in H. cbn [app orb] in H.
  destruct (existsb (WheelButton.is_wheel E) frame); [|discriminate].
  injection H as <- <-. split; assumption.
Qed.

Lemma wheel_button_alternates_witness :
  exists state' events,
    WheelButton.evdev_frame sample_evdev (Some false)
      [lua_event (Lua.REL_WHEEL sample_evdev) (-1);
       lua_event (Lua.REL_WHEEL sample_evdev) (-1);
       lua_event (Lua.REL_WHEEL sample_evdev) 1;
       lua_event (Lua.REL_WHEEL sample_evdev) (-1)]
      = (state', Some events) /\
    WheelButton.button_values sample_evdev events = [1; 0; 1] /\
    WheelButton.alternates false (WheelButton.button_values sample_evdev events) /\
    WheelButton.truthy state' = true.
Proof.
  eexists _, _. split; [vm_compute; reflexivity|].
  split; [vm_compute; reflexivity|].
  destruct (wheel_button_alternates sample_evdev (Some false)
              [lua_event (Lua.REL_WHEEL sample_evdev) (-1);
               lua_event (Lua.REL_WHEEL sample_evdev) (-1);
               lua_event (Lua.REL_WHEEL sample_evdev) 1;
               lua_event (Lua.REL_WHEEL sample_evdev) (-1)]
              (Some true)
              [lua_event (Lua.BTN_EXTRA sample_evdev) 1;
               lua_event (Lua.BTN_EXTRA sample_evdev) 0;
               lua_event (Lua.BTN_EXTRA sample_evdev) 1])
    as [Ha Hs].
  - intros v [<-|[<-|[<-|[<-|[]]]]]; vm_compute; discriminate.
  - vm_compute. reflexivity.
  - split; [exact Ha | exact Hs].
Defined.

(** X30: the wheel plugin returns [nil], and leaves the state of the button
    as it is, exactly for the frames without wheel events; from any other
    frame it drops the wheel and high-resolution wheel events and keeps the
    remaining events in their order. *)
Theorem wheel_frame_keeps_other_events E state frame :
  (forall v, In v frame -> Lua.usage v <> WheelButton.wheel_button E) ->
  (existsb (WheelButton.is_wheel E) frame = false ->
   WheelButton.evdev_frame E state frame = (state, None)) /\
  (existsb (WheelButton.is_wheel E) frame = true ->
   exists state' events,
     WheelButton.evdev_frame E state frame = (state', Some events) /\
     filter (fun v => negb (Lua.usage v =? WheelButton.wheel_button E)) events
       = filter (fun v => negb (WheelButton.is_wheel E v)) frame).
Proof.
  intros Hno. unfold WheelButton.evdev_frame.
  destruct (wheel_frame_loop_effect E frame state [] false Hno)
    as (s' & added & Hl & _ & _ & Hf & Hsame).
  rewrite Hl. cbn [app orb]. split; intros Hw; rewrite Hw.
  - now rewrite (Hsame Hw).
  - exists s', added. split; [reflexivity | exact Hf].
Qed.

Lemma wheel_frame_keeps_other_events_witness :
  WheelButton.evdev_frame sample_evdev (Some true)
    [lua_event 0x20000 5; lua_event 0x20001 (-3)]
  = (Some true, None) /\
  exists state' events,
    WheelButton.evdev_frame sample_evdev (Some true)
      [lua_event 0x20000 5;
       lua_event (Lua.REL_WHEEL_HI_RES sample_evdev) 120;
       lua_event (Lua.REL_WHEEL sample_evdev) 1;
       lua_event 0x20001 (-3)]
      = (state', Some events) /\
    filter (fun v => negb (Lua.usage v
                           =? WheelButton.wheel_button sample_evdev)) events
      = [lua_event 0x20000 5; lua_event 0x20001 (-3)].
Proof.
  split.
  - apply (wheel_frame_keeps_other_events sample_evdev (Some true)
             [lua_event 0x20000 5; lua_event 0x20001 (-3)]).
    + intros v [<-|[<-|[]]]; vm_compute; discriminate.
    + vm_compute. reflexivity.
  - destruct (wheel_frame_keeps_other_events sample_evdev (Some true)
                [lua_event 0x20000 5;
                 lua_event (Lua.REL_WHEEL_HI_RES sample_evdev) 120;
                 lua_event (Lua.REL_WHEEL sample_evdev) 1;
                 lua_event 0x20001 (-3)]) as [_ H].
    + intros v [<-|[<-|[<-|[<-|[]]]]]; vm_compute; discriminate.
    + destruct H as (s' & events & Hr & Hf); [vm_compute; reflexivity|].
      exists s', events. split; [exact Hr|]. rewrite Hf.
      vm_compute. reflexivity.
Defined.
